(** * RightMic: the HAL driver's ring-buffer transport and clock model

    A shallow embedding of [Driver/RightMicDriver.c] and [Driver/RightMicDriver.h].

    - Machine integers ([UInt32], [uint64_t]) are [Z] with the wrap-around of
      every C operation written out ([wrap32], [wrap64]), following the usual
      arithmetic conversions of the expression in the source.
    - [Float64] is IEEE-754 binary64 as specified by the standard library's
      [SpecFloat] (precision 53, [emax] 1024); a [Float32] sample is its 32-bit
      pattern, which is all that [memcpy] and [memset] see.
    - The driver's file-scope statics are the record [Globals]; the mapped
      shared-memory object is the record [SharedMemory], one value shared by
      the companion app (writer) and the driver (reader).
    - Results of the operating system ([mach_absolute_time], [open], [mmap])
      are inputs, collected in [Env].
    - C behaviour that is undefined (division by zero, an out-of-range
      conversion of a floating value to [uint64_t]) is [None].
    - Output parameters ([*outDataSize], [*outData], [*outIsSettable]) are
      returned beside the status, as [None] when the call did not write
      them; a property value is kept with the type it is stored as.
    - The mapping has the protection the driver asks [mmap] for,
      [PROT_READ]: loads through it succeed, a store through it raises a
      signal and the call does not return ([io_status] is [None]). *)

From Stdlib Require Import ZArith List Bool Lia.
From Stdlib Require Import Floats.SpecFloat.
From stdpp Require Import base list strings.

Local Open Scope Z_scope.

(* ================================================================= *)
(** ** Machine arithmetic *)

Definition wrap32 (x : Z) : Z := x mod 2 ^ 32.
Definition wrap64 (x : Z) : Z := x mod 2 ^ 64.

(* ================================================================= *)
(** ** IEEE-754 binary64 *)

Definition Float64 := spec_float.

(** Conversion of an integer to [Float64] (round to nearest even). *)
Definition Float64_of_Z (n : Z) : Float64 := binary_normalize 53 1024 n 0 false.

Definition Float64_mul (x y : Float64) : Float64 := SFmul 53 1024 x y.
Definition Float64_div (x y : Float64) : Float64 := SFdiv 53 1024 x y.

(** The C operator [!=] on doubles: true when either side is a NaN. *)
Definition Float64_ne (x y : Float64) : bool := negb (SFeqb x y).

(** The integral part of a finite value (truncation toward zero). *)
Definition Float64_trunc (f : Float64) : option Z :=
  match f with
  | S754_zero _ => Some 0
  | S754_finite s m e =>
      let a := if 0 <=? e then Z.pos m * 2 ^ e else Z.pos m / 2 ^ (- e) in
      Some (if s then - a else a)
  | S754_infinity _ | S754_nan => None
  end.

(** The cast [(uint64_t)f]: defined only when the truncated value is
    representable. *)
Definition Float64_to_uint64 (f : Float64) : option Z :=
  match Float64_trunc f with
  | Some v => if (0 <=? v) && (v <? 2 ^ 64) then Some v else None
  | None => None
  end.

(** The exact integer a [Float64] denotes, when it denotes one. *)
Definition Float64_integer (f : Float64) : option Z :=
  match f with
  | S754_zero _ => Some 0
  | S754_finite s m e =>
      if 0 <=? e then Some ((if s then -1 else 1) * (Z.pos m * 2 ^ e))
      else if Z.pos m mod 2 ^ (- e) =? 0
           then Some ((if s then -1 else 1) * (Z.pos m / 2 ^ (- e)))
           else None
  | S754_infinity _ | S754_nan => None
  end.

(* ================================================================= *)
(** ** RightMicDriver.h *)

Definition kRightMicObjectID_Plugin : Z := 1.
Definition kRightMicObjectID_Device : Z := 2.
Definition kRightMicObjectID_InputStream : Z := 3.

Definition kRightMic_SampleRate : Float64 := Float64_of_Z 48000.
Definition kRightMic_ChannelCount : Z := 2.
Definition kRightMic_BitsPerChannel : Z := 32.
Definition kRightMic_BytesPerFrame : Z :=
  kRightMic_ChannelCount * (kRightMic_BitsPerChannel / 8).
Definition kRightMic_BufferFrameSize : Z := 512.
Definition kRightMic_RingBufferFrames : Z := 16384.

Definition sizeof_float : Z := 4.
Definition sizeof_Float64 : Z := 8.
(** Two [uint64_t], three [uint32_t] and five [uint32_t] of padding: 48
    bytes, no tail padding. *)
Definition sizeof_RightMicRingBufferHeader : Z := 8 + 8 + 4 + 4 + 4 + 5 * 4.

Definition kRightMic_RingBufferDataBytes : Z :=
  kRightMic_RingBufferFrames * kRightMic_BytesPerFrame.

(** The length of the mapping. *)
Definition kRightMic_SharedMemorySize : Z :=
  sizeof_RightMicRingBufferHeader + kRightMic_RingBufferDataBytes.

(** A sample is the bit pattern of a [Float32]; [0] is the all-zero pattern
    (+0.0f), which is what [memset (_, 0, _)] writes. *)
Definition Float32 := Z.

Record RightMicRingBufferHeader := {
  writeHead : Z;    (* next frame the app will write   *)
  readHead : Z;     (* next frame the driver will read *)
  active : Z;       (* 1 = app is actively writing     *)
  sampleRate : Z;
  channels : Z
}.

(** The mapped object: the header followed by
    [kRightMic_RingBufferFrames * kRightMic_ChannelCount] samples. *)
Record SharedMemory := {
  header : RightMicRingBufferHeader;
  ringData : list Float32
}.

Definition set_readHead (v : Z) (m : SharedMemory) : SharedMemory :=
  {| header := {| writeHead := writeHead (header m);
                  readHead := v;
                  active := active (header m);
                  sampleRate := sampleRate (header m);
                  channels := channels (header m) |};
     ringData := ringData m |}.

(* ================================================================= *)
(** ** CoreAudio constants used by the driver

    Values of <CoreAudio/AudioServerPlugIn.h>, <CoreAudio/AudioHardware.h>
    and <CoreAudioTypes/CoreAudioBaseTypes.h> (four-character codes). *)

Inductive OSStatus :=
| kAudioHardwareNoError
| kAudioHardwareUnknownPropertyError
| kAudioHardwareBadPropertySizeError
| kAudioHardwareUnsupportedOperationError
| kAudioDeviceUnsupportedFormatError.

Definition kAudioServerPlugInIOOperationReadInput : Z := 0x72656164.  (* 'read' *)
Definition kAudioServerPlugInIOOperationWriteMix : Z := 0x72697465.   (* 'rite' *)
Definition kAudioDevicePropertyNominalSampleRate : Z := 0x6e737274.   (* 'nsrt' *)
Definition kAudioStreamPropertyVirtualFormat : Z := 0x73666d74.       (* 'sfmt' *)
Definition kAudioStreamPropertyPhysicalFormat : Z := 0x70667420.      (* 'pft ' *)
Definition kAudioFormatLinearPCM : Z := 0x6c70636d.                   (* 'lpcm' *)
Definition kAudioFormatFlagIsFloat : Z := 1.
Definition kAudioFormatFlagIsSignedInteger : Z := 4.
Definition kAudioFormatFlagIsPacked : Z := 8.
Definition kAudioFormatFlagsNativeEndian : Z := 0.

Record AudioStreamBasicDescription := {
  mSampleRate : Float64;
  mFormatID : Z;
  mFormatFlags : Z;
  mBytesPerPacket : Z;
  mFramesPerPacket : Z;
  mBytesPerFrame : Z;
  mChannelsPerFrame : Z;
  mBitsPerChannel : Z;
  mReserved : Z
}.

Definition sizeof_AudioStreamBasicDescription : Z := 40.

(* ================================================================= *)
(** ** Section 1 of the driver: global state *)

Inductive Pointer :=
| NULL
| MAP_FAILED
| SHM        (* the address mmap returned for the shared object *)
| SHM_DATA.  (* that address plus sizeof (RightMicRingBufferHeader) *)

Definition Pointer_eqb (p q : Pointer) : bool :=
  match p, q with
  | NULL, NULL | MAP_FAILED, MAP_FAILED | SHM, SHM | SHM_DATA, SHM_DATA => true
  | _, _ => false
  end.

Record mach_timebase_info_data_t := { numer : Z; denom : Z }.

(** Calls into the operating system, in the order the driver made them. *)
Inductive Syscall :=
| sys_open
| sys_mmap
| sys_munmap
| sys_close.

Record Globals := {
  sRefCount : Z;
  sDeviceIsRunning : bool;
  sClientCount : Z;
  sTimebaseInfo : mach_timebase_info_data_t;
  sIO_StartHostTime : Z;
  sIO_HostTicksPerPeriod : Z;
  sShm_FD : Z;
  sShm_Ptr : Pointer;
  sRingHeader : Pointer;
  sRingData : Pointer;
  syscalls : list Syscall   (* ghost: the system calls made so far *)
}.

(** The initializers of the statics. *)
Definition initial_globals : Globals :=
  {| sRefCount := 0;
     sDeviceIsRunning := false;
     sClientCount := 0;
     sTimebaseInfo := {| numer := 0; denom := 0 |};
     sIO_StartHostTime := 0;
     sIO_HostTicksPerPeriod := 0;
     sShm_FD := -1;
     sShm_Ptr := MAP_FAILED;
     sRingHeader := NULL;
     sRingData := NULL;
     syscalls := [] |}.

(** What the operating system answers during one driver call. *)
Record Env := {
  mach_absolute_time : Z;               (* the host clock, a uint64_t *)
  mach_timebase_info : mach_timebase_info_data_t;
  open_result : Z;                      (* open(2): a descriptor, or -1 *)
  mmap_succeeds : bool                  (* mmap(2) did not return MAP_FAILED *)
}.

(* ================================================================= *)
(** ** Section 5: initialization, and Section 6: clients *)

Definition RightMic_Initialize (e : Env) (g : Globals) : OSStatus * Globals :=
  (kAudioHardwareNoError,
   {| sRefCount := sRefCount g;
      sDeviceIsRunning := sDeviceIsRunning g;
      sClientCount := sClientCount g;
      sTimebaseInfo := mach_timebase_info e;
      sIO_StartHostTime := sIO_StartHostTime g;
      sIO_HostTicksPerPeriod := sIO_HostTicksPerPeriod g;
      sShm_FD := sShm_FD g;
      sShm_Ptr := sShm_Ptr g;
      sRingHeader := sRingHeader g;
      sRingData := sRingData g;
      syscalls := syscalls g |}).

Definition set_sClientCount (n : Z) (g : Globals) : Globals :=
  {| sRefCount := sRefCount g;
     sDeviceIsRunning := sDeviceIsRunning g;
     sClientCount := n;
     sTimebaseInfo := sTimebaseInfo g;
     sIO_StartHostTime := sIO_StartHostTime g;
     sIO_HostTicksPerPeriod := sIO_HostTicksPerPeriod g;
     sShm_FD := sShm_FD g;
     sShm_Ptr := sShm_Ptr g;
     sRingHeader := sRingHeader g;
     sRingData := sRingData g;
     syscalls := syscalls g |}.

Definition RightMic_AddDeviceClient (g : Globals) : OSStatus * Globals :=
  (kAudioHardwareNoError, set_sClientCount (wrap32 (sClientCount g + 1)) g).

Definition RightMic_RemoveDeviceClient (g : Globals) : OSStatus * Globals :=
  (kAudioHardwareNoError,
   if sClientCount g >? 0 then set_sClientCount (wrap32 (sClientCount g - 1)) g else g).

(* ================================================================= *)
(** ** Section 8: property helpers *)

Definition RightMic_ASBD : AudioStreamBasicDescription :=
  {| mSampleRate := kRightMic_SampleRate;
     mFormatID := kAudioFormatLinearPCM;
     mFormatFlags :=
       Z.lor (Z.lor kAudioFormatFlagIsFloat kAudioFormatFlagsNativeEndian)
             kAudioFormatFlagIsPacked;
     mBytesPerPacket := kRightMic_BytesPerFrame;
     mFramesPerPacket := 1;
     mBytesPerFrame := kRightMic_BytesPerFrame;
     mChannelsPerFrame := kRightMic_ChannelCount;
     mBitsPerChannel := kRightMic_BitsPerChannel;
     mReserved := 0 |}.

(* ================================================================= *)
(** ** Section 13: SetPropertyData *)

(** The bytes at [inData], as the typed value the host stored there. *)
Inductive PropertyData :=
| Float64Data (v : Float64)
| ASBDData (d : AudioStreamBasicDescription).

(** [*(const Float64 * )inData]: [mSampleRate] is the first member of an
    [AudioStreamBasicDescription]. *)
Definition read_Float64 (d : PropertyData) : Float64 :=
  match d with
  | Float64Data v => v
  | ASBDData a => mSampleRate a
  end.

(** [(const AudioStreamBasicDescription * )inData]; [None] when the bytes
    at [inData] are not a description (reading past the value is undefined). *)
Definition read_ASBD (d : PropertyData) : option AudioStreamBasicDescription :=
  match d with
  | Float64Data _ => None
  | ASBDData a => Some a
  end.

Definition RightMic_SetPropertyData (g : Globals) (inObjectID mSelector : Z)
    (inDataSize : Z) (inData : PropertyData) : option (OSStatus * Globals) :=
  if inObjectID =? kRightMicObjectID_Device then
    if mSelector =? kAudioDevicePropertyNominalSampleRate then
      if inDataSize <? sizeof_Float64 then Some (kAudioHardwareBadPropertySizeError, g)
      else
        let requested := read_Float64 inData in
        if Float64_ne requested kRightMic_SampleRate
        then Some (kAudioDeviceUnsupportedFormatError, g)
        else Some (kAudioHardwareNoError, g)
    else Some (kAudioHardwareUnknownPropertyError, g)
  else if inObjectID =? kRightMicObjectID_InputStream then
    if (mSelector =? kAudioStreamPropertyVirtualFormat)
       || (mSelector =? kAudioStreamPropertyPhysicalFormat) then
      if inDataSize <? sizeof_AudioStreamBasicDescription
      then Some (kAudioHardwareBadPropertySizeError, g)
      else
        match read_ASBD inData with
        | None => None
        | Some requested =>
            let ours := RightMic_ASBD in
            if Float64_ne (mSampleRate requested) (mSampleRate ours)
               || negb (mChannelsPerFrame requested =? mChannelsPerFrame ours)
               || negb (mFormatID requested =? mFormatID ours)
            then Some (kAudioDeviceUnsupportedFormatError, g)
            else Some (kAudioHardwareNoError, g)
        end
    else Some (kAudioHardwareUnknownPropertyError, g)
  else Some (kAudioHardwareUnknownPropertyError, g).

(* ================================================================= *)
(** ** Section 14: the shared-memory mapping *)

Definition set_shm (fd : Z) (ptr hdr data : Pointer) (calls : list Syscall)
    (g : Globals) : Globals :=
  {| sRefCount := sRefCount g;
     sDeviceIsRunning := sDeviceIsRunning g;
     sClientCount := sClientCount g;
     sTimebaseInfo := sTimebaseInfo g;
     sIO_StartHostTime := sIO_StartHostTime g;
     sIO_HostTicksPerPeriod := sIO_HostTicksPerPeriod g;
     sShm_FD := fd;
     sShm_Ptr := ptr;
     sRingHeader := hdr;
     sRingData := data;
     syscalls := syscalls g ++ calls |}.

(** <sys/mman.h> *)
Definition PROT_READ : Z := 1.
Definition PROT_WRITE : Z := 2.

(** The protection of the driver's mapping: the third argument of the
    one [mmap] call of the driver,
    [mmap (NULL, kRightMic_SharedMemorySize, PROT_READ, MAP_SHARED, sShm_FD, 0)],
    on a descriptor opened with [O_RDONLY]. *)
Definition mapping_protection : Z := PROT_READ.

(** [atomic_store_explicit (&sRingHeader->readHead, v, memory_order_release)]
    through a mapping of protection [prot]. The pages take the store only
    when they were mapped with [PROT_WRITE]; otherwise the store raises a
    signal (SIGBUS or SIGSEGV), nothing is written, and the call that made
    it does not return: [None]. *)
Definition store_readHead (prot : Z) (v : Z) (m : SharedMemory)
  : option SharedMemory :=
  if Z.land prot PROT_WRITE =? 0 then None else Some (set_readHead v m).

Definition RightMic_OpenSharedMemory (e : Env) (g : Globals) : Globals :=
  if negb (Pointer_eqb (sShm_Ptr g) MAP_FAILED) then g   (* already open *)
  else
    let fd := open_result e in
    if fd <? 0 then
      set_shm fd (sShm_Ptr g) (sRingHeader g) (sRingData g) [sys_open] g
    else if negb (mmap_succeeds e) then
      set_shm (-1) MAP_FAILED (sRingHeader g) (sRingData g)
              [sys_open; sys_mmap; sys_close] g
    else
      set_shm fd SHM SHM SHM_DATA [sys_open; sys_mmap] g.

Definition RightMic_CloseSharedMemory (g : Globals) : Globals :=
  let unmap := negb (Pointer_eqb (sShm_Ptr g) MAP_FAILED) in
  let close := sShm_FD g >=? 0 in
  set_shm (if close then -1 else sShm_FD g) MAP_FAILED NULL NULL
          ((if unmap then [sys_munmap] else []) ++ (if close then [sys_close] else []))
          g.

(* ================================================================= *)
(** ** Section 15: IO operations *)

Definition set_io (start ticks : Z) (running : bool) (g : Globals) : Globals :=
  {| sRefCount := sRefCount g;
     sDeviceIsRunning := running;
     sClientCount := sClientCount g;
     sTimebaseInfo := sTimebaseInfo g;
     sIO_StartHostTime := start;
     sIO_HostTicksPerPeriod := ticks;
     sShm_FD := sShm_FD g;
     sShm_Ptr := sShm_Ptr g;
     sRingHeader := sRingHeader g;
     sRingData := sRingData g;
     syscalls := syscalls g |}.

(** [((Float64)kRightMic_BufferFrameSize / kRightMic_SampleRate) * 1000000000.0] *)
Definition nsPerPeriod : Float64 :=
  Float64_mul (Float64_div (Float64_of_Z kRightMic_BufferFrameSize) kRightMic_SampleRate)
              (Float64_of_Z 1000000000).

(** [(uint64_t)(nsPerPeriod * (Float64)denom / (Float64)numer)] *)
Definition host_ticks_per_period (tb : mach_timebase_info_data_t) : option Z :=
  Float64_to_uint64
    (Float64_div (Float64_mul nsPerPeriod (Float64_of_Z (denom tb)))
                 (Float64_of_Z (numer tb))).

Definition RightMic_StartIO (e : Env) (g : Globals) : option (OSStatus * Globals) :=
  match host_ticks_per_period (sTimebaseInfo g) with
  | None => None
  | Some ticks =>
      let g1 := set_io (mach_absolute_time e) ticks (sDeviceIsRunning g) g in
      let g2 := RightMic_OpenSharedMemory e g1 in
      Some (kAudioHardwareNoError,
            set_io (sIO_StartHostTime g2) (sIO_HostTicksPerPeriod g2) true g2)
  end.

Definition RightMic_StopIO (g : Globals) : OSStatus * Globals :=
  (kAudioHardwareNoError,
   RightMic_CloseSharedMemory
     (set_io (sIO_StartHostTime g) (sIO_HostTicksPerPeriod g) false g)).

(** The three outputs of [GetZeroTimeStamp]. *)
Record ZeroTimeStamp := {
  outSampleTime : Float64;
  outHostTime : Z;
  outSeed : Z
}.

Definition RightMic_GetZeroTimeStamp (e : Env) (g : Globals)
  : option (OSStatus * ZeroTimeStamp) :=
  let currentHostTime := mach_absolute_time e in
  let ticksSinceStart := wrap64 (currentHostTime - sIO_StartHostTime g) in
  if sIO_HostTicksPerPeriod g =? 0 then None   (* division by zero *)
  else
    let numPeriods := ticksSinceStart / sIO_HostTicksPerPeriod g in
    Some (kAudioHardwareNoError,
          {| outSampleTime := Float64_of_Z (wrap64 (numPeriods * kRightMic_BufferFrameSize));
             outHostTime :=
               wrap64 (sIO_StartHostTime g + wrap64 (numPeriods * sIO_HostTicksPerPeriod g));
             outSeed := 1 |}).

(** [outWillDo], [outWillDoInPlace]. *)
Definition RightMic_WillDoIOOperation (inOperationID : Z) : OSStatus * (bool * bool) :=
  if inOperationID =? kAudioServerPlugInIOOperationReadInput
  then (kAudioHardwareNoError, (true, true))
  else (kAudioHardwareNoError, (false, true)).

(** [memcpy] between two arrays of samples; offsets and length in samples. *)
Definition memcpy (dst : list Float32) (dst_off : Z) (src : list Float32)
    (src_off n : Z) : list Float32 :=
  take (Z.to_nat dst_off) dst
  ++ take (Z.to_nat n) (drop (Z.to_nat src_off) src)
  ++ drop (Z.to_nat (dst_off + n)) dst.

(** [memset (dst, 0, n * sizeof (float))]. *)
Definition memset_zero (dst : list Float32) (n : Z) : list Float32 :=
  replicate (Z.to_nat n) 0 ++ drop (Z.to_nat n) dst.

(** One call of [memcpy] made by the copy loop: the destination and the
    source as sample offsets into [outBuffer] and [sRingData], and the
    length in bytes. *)
Record MemcpyCall := {
  dst_offset : Z;
  src_offset : Z;
  n_bytes : Z
}.

(** The loop [while (framesRead < framesToFill)] of [DoIOOperation].
    [fuel] bounds the number of iterations; [log] collects the [memcpy]
    calls (ghost). *)
Fixpoint copy_loop (fuel : nat) (ring : list Float32) (rHead framesToFill : Z)
    (framesRead : Z) (outBuffer : list Float32) (log : list MemcpyCall)
  : Z * list Float32 * list MemcpyCall :=
  match fuel with
  | O => (framesRead, outBuffer, log)
  | S fuel' =>
      if framesRead <? framesToFill then
        let ringIndex := wrap64 (rHead + framesRead) mod kRightMic_RingBufferFrames in
        let contiguous := wrap32 (wrap64 (kRightMic_RingBufferFrames - ringIndex)) in
        let chunk := wrap32 (framesToFill - framesRead) in
        let chunk := if chunk >? contiguous then contiguous else chunk in
        let call :=
          {| dst_offset := wrap32 (framesRead * kRightMic_ChannelCount);
             src_offset := wrap64 (ringIndex * kRightMic_ChannelCount);
             n_bytes := wrap32 (chunk * kRightMic_BytesPerFrame) |} in
        copy_loop fuel' ring rHead framesToFill
          (wrap32 (framesRead + chunk))
          (memcpy outBuffer (dst_offset call) ring (src_offset call)
                  (n_bytes call / sizeof_float))
          (log ++ [call])
      else (framesRead, outBuffer, log)
  end.

(** Enough iterations for any request: every iteration but the first and
    the last copies a whole ring. *)
Definition copy_fuel (framesToFill : Z) : nat :=
  Z.to_nat (framesToFill / kRightMic_RingBufferFrames + 2).

(** What one call of [DoIOOperation] leaves behind. [io_status] is the
    value returned, and [None] when the call did not return because a store
    raised a signal; the other fields are then the state at the signal. *)
Record IOResult := {
  io_status : option OSStatus;
  io_globals : Globals;
  io_shm : SharedMemory;
  io_buffer : list Float32;       (* ioMainBuffer after the call *)
  io_copies : list MemcpyCall     (* ghost: the memcpy calls made *)
}.

(** The tail of [DoIOOperation]: [memset] and return. *)
Definition fill_with_silence (g : Globals) (shm : SharedMemory)
    (outBuffer : list Float32) (samplesToFill : Z) : IOResult :=
  {| io_status := Some kAudioHardwareNoError;
     io_globals := g;
     io_shm := shm;
     io_buffer := memset_zero outBuffer (wrap64 (samplesToFill * sizeof_float) / sizeof_float);
     io_copies := [] |}.

(** [(wHead >= rHead) ? (wHead - rHead) : 0] *)
Definition available_frames (wHead rHead : Z) : Z :=
  if wHead >=? rHead then wrap64 (wHead - rHead) else 0.

Definition RightMic_DoIOOperation (e : Env) (g : Globals) (shm : SharedMemory)
    (inOperationID inIOBufferFrameSize : Z) (ioMainBuffer : list Float32)
  : IOResult :=
  if negb (inOperationID =? kAudioServerPlugInIOOperationReadInput) then
    {| io_status := Some kAudioHardwareNoError; io_globals := g; io_shm := shm;
       io_buffer := ioMainBuffer; io_copies := [] |}
  else
    let outBuffer := ioMainBuffer in
    let framesToFill := inIOBufferFrameSize in
    let samplesToFill := wrap32 (framesToFill * kRightMic_ChannelCount) in
    (* Try to re-open shared memory if not yet available *)
    let g := if Pointer_eqb (sShm_Ptr g) MAP_FAILED
             then RightMic_OpenSharedMemory e g else g in
    if negb (Pointer_eqb (sRingHeader g) NULL) && negb (active (header shm) =? 0) then
      let wHead := writeHead (header shm) in
      let rHead := readHead (header shm) in
      let available := available_frames wHead rHead in
      if available >=? framesToFill then
        let '(_, out, log) :=
          copy_loop (copy_fuel framesToFill) (ringData shm) rHead framesToFill
                    0 outBuffer [] in
        (* Advance the read head *)
        match store_readHead mapping_protection (wrap64 (rHead + framesToFill)) shm with
        | Some shm' =>
            {| io_status := Some kAudioHardwareNoError;
               io_globals := g;
               io_shm := shm';
               io_buffer := out;
               io_copies := log |}
        | None =>
            {| io_status := None;
               io_globals := g;
               io_shm := shm;
               io_buffer := out;
               io_copies := log |}
        end
      else fill_with_silence g shm outBuffer samplesToFill
    else fill_with_silence g shm outBuffer samplesToFill.

(* ================================================================= *)
(** ** The driver as a state machine

    The entry points of the plug-in interface that touch the statics, as
    the host may call them in any order. *)

Inductive Call :=
| CallInitialize
| CallAddDeviceClient
| CallRemoveDeviceClient
| CallSetPropertyData (inObjectID mSelector inDataSize : Z) (inData : PropertyData)
| CallStartIO
| CallStopIO
| CallGetZeroTimeStamp
| CallWillDoIOOperation (inOperationID : Z)
| CallDoIOOperation (inOperationID inIOBufferFrameSize : Z) (ioMainBuffer : list Float32).

(** One call: the statics and the shared memory afterwards; [None] when the
    call runs into undefined behaviour or does not return. *)
Definition step (e : Env) (c : Call) (g : Globals) (shm : SharedMemory)
  : option (Globals * SharedMemory) :=
  match c with
  | CallInitialize => Some (snd (RightMic_Initialize e g), shm)
  | CallAddDeviceClient => Some (snd (RightMic_AddDeviceClient g), shm)
  | CallRemoveDeviceClient => Some (snd (RightMic_RemoveDeviceClient g), shm)
  | CallSetPropertyData o s n d =>
      match RightMic_SetPropertyData g o s n d with
      | Some (_, g') => Some (g', shm)
      | None => None
      end
  | CallStartIO =>
      match RightMic_StartIO e g with
      | Some (_, g') => Some (g', shm)
      | None => None
      end
  | CallStopIO => Some (snd (RightMic_StopIO g), shm)
  | CallGetZeroTimeStamp =>
      match RightMic_GetZeroTimeStamp e g with
      | Some _ => Some (g, shm)
      | None => None
      end
  | CallWillDoIOOperation _ => Some (g, shm)
  | CallDoIOOperation op n buf =>
      let r := RightMic_DoIOOperation e g shm op n buf in
      match io_status r with
      | Some _ => Some (io_globals r, io_shm r)
      | None => None
      end
  end.

Definition is_StartIO (c : Call) : bool :=
  match c with CallStartIO => true | _ => false end.

(** A timebase the driver can run on: both members are non-zero 32-bit
    values, and one host tick lasts at most ten milliseconds, that is
    [numer / denom <= 10^7] nanoseconds (less than one IO period). *)
Definition valid_timebase (tb : mach_timebase_info_data_t) : Prop :=
  0 < numer tb < 2 ^ 32 /\ 0 < denom tb < 2 ^ 32 /\
  numer tb <= 10000000 * denom tb.

(* ================================================================= *)
(** ** The companion app (writer) *)

(** One frame: the samples of the two channels. *)
Abbreviation Frame := (Float32 * Float32)%type.

(** Interleaving: the samples of a run of frames as they lie in memory. *)
Definition samples_of (fs : list Frame) : list Float32 :=
  flat_map (fun f => [fst f; snd f]) fs.

(** Modelled from the spec: the companion app's copy of new frames into the
    data region (its source is not part of Driver/). Section 4.2, write-side
    contract: the frames are copied "into the data region at the correct
    modulo-addressed offset", frame [pos] at [pos mod N]. *)
Definition writer_store_frame (pos : Z) (f : Frame) (data : list Float32)
  : list Float32 :=
  let i := Z.to_nat (kRightMic_ChannelCount * (pos mod kRightMic_RingBufferFrames)) in
  <[S i := snd f]> (<[i := fst f]> data).

Fixpoint writer_copy (pos : Z) (fs : list Frame) (data : list Float32)
  : list Float32 :=
  match fs with
  | [] => data
  | f :: fs' => writer_copy (pos + 1) fs' (writer_store_frame pos f data)
  end.

(** Modelled from the spec: one publish of the companion app (Section 4.2):
    copy the frames, then store the new [writeHead]. *)
Definition writer_publish (fs : list Frame) (m : SharedMemory) : SharedMemory :=
  {| header := {| writeHead := wrap64 (writeHead (header m) + Z.of_nat (length fs));
                  readHead := readHead (header m);
                  active := active (header m);
                  sampleRate := sampleRate (header m);
                  channels := channels (header m) |};
     ringData := writer_copy (writeHead (header m)) fs (ringData m) |}.

(** Modelled from the spec: the writer's obligation (Section 4.2): it "must
    never set writeHead such that more than N frames are outstanding
    relative to the last readHead it has observed". *)
Definition within_capacity (fs : list Frame) (m : SharedMemory) : Prop :=
  writeHead (header m) + Z.of_nat (length fs) - readHead (header m)
  <= kRightMic_RingBufferFrames.

(* ================================================================= *)
(** ** Sessions: publishes of the writer and reads of the host *)

Inductive Event :=
| Publish (fs : list Frame)
| Read (frames : Z) (ioMainBuffer : list Float32).

(** A read of the host: [DoIOOperation] with the ReadInput operation. *)
Definition read_input (e : Env) (g : Globals) (m : SharedMemory) (frames : Z)
    (buf : list Float32) : IOResult :=
  RightMic_DoIOOperation e g m kAudioServerPlugInIOOperationReadInput frames buf.

(** Runs the events in order; returns the result of every read made. A
    read that does not return is the last one: the signal ends the host
    process. *)
Fixpoint session (e : Env) (evs : list Event) (g : Globals) (m : SharedMemory)
  : list IOResult :=
  match evs with
  | [] => []
  | Publish fs :: evs' => session e evs' g (writer_publish fs m)
  | Read k buf :: evs' =>
      let r := read_input e g m k buf in
      match io_status r with
      | Some _ => r :: session e evs' (io_globals r) (io_shm r)
      | None => [r]
      end
  end.

(** All frames published by a run of events. *)
Definition published (evs : list Event) : list Frame :=
  flat_map (fun ev => match ev with Publish fs => fs | Read _ _ => [] end) evs.

(** The mapping is established: [sShm_Ptr], [sRingHeader] and [sRingData]
    are what [RightMic_OpenSharedMemory] stores on success. *)
Definition mapped (g : Globals) : Prop :=
  sShm_Ptr g = SHM /\ sRingHeader g = SHM /\ sRingData g = SHM_DATA.

(** The two values a header pointer ever takes. *)
Definition pointers_consistent (g : Globals) : Prop :=
  (sShm_Ptr g = MAP_FAILED /\ sRingHeader g = NULL /\ sRingData g = NULL) \/ mapped g.

(** The shared object has the size both sides agreed on, and its counters
    are 64-bit values. *)
Definition well_formed_shm (m : SharedMemory) : Prop :=
  Z.of_nat (length (ringData m)) = kRightMic_RingBufferFrames * kRightMic_ChannelCount /\
  0 <= writeHead (header m) < 2 ^ 64 /\
  0 <= readHead (header m) < 2 ^ 64.

(** The samples of [n] frames of the ring starting at frame position [pos],
    wrapping at the end of the data region. *)
Definition ring_frames (data : list Float32) (pos n : Z) : list Float32 :=
  take (Z.to_nat (kRightMic_ChannelCount * n))
       (drop (Z.to_nat (kRightMic_ChannelCount * (pos mod kRightMic_RingBufferFrames)))
             (data ++ data)).

(** The ring holds the writer's stream: [stream] is everything written
    since the counters stood at [h0], and every frame not yet read is in its
    slot. *)
Definition ring_holds (h0 : Z) (stream : list Frame) (m : SharedMemory) : Prop :=
  well_formed_shm m /\
  0 <= h0 /\
  writeHead (header m) = h0 + Z.of_nat (length stream) /\
  h0 <= readHead (header m) <= writeHead (header m) /\
  writeHead (header m) - readHead (header m) <= kRightMic_RingBufferFrames /\
  forall p, readHead (header m) <= p < writeHead (header m) ->
    exists f, stream !! Z.to_nat (p - h0) = Some f /\
      ringData m !! Z.to_nat (2 * (p mod kRightMic_RingBufferFrames)) = Some (fst f) /\
      ringData m !! S (Z.to_nat (2 * (p mod kRightMic_RingBufferFrames))) = Some (snd f).

(** The silence of [n] frames. *)
Definition silence (n : Z) : list Float32 :=
  replicate (Z.to_nat (kRightMic_ChannelCount * n)) 0.

(** The globals a read works with: [DoIOOperation] first retries the
    mapping when there is none. *)
Definition after_reopen (e : Env) (g : Globals) : Globals :=
  if Pointer_eqb (sShm_Ptr g) MAP_FAILED then RightMic_OpenSharedMemory e g else g.

(** No mapping, and none to be had in this call: the header pointer is NULL
    and the retry, if one is made, fails in [open] or in [mmap]. *)
Definition mapping_unavailable (e : Env) (g : Globals) : Prop :=
  sRingHeader g = NULL /\
  (sShm_Ptr g = MAP_FAILED -> open_result e < 0 \/ mmap_succeeds e = false).

(* ================================================================= *)
(** ** Concrete states used to exercise the definitions *)

(** An Apple-silicon host: 24 MHz ticks, the shared object exists. *)
Definition host_at (now : Z) : Env :=
  {| mach_absolute_time := now;
     mach_timebase_info := {| numer := 125; denom := 3 |};
     open_result := 3;
     mmap_succeeds := true |}.

(** A host on which the companion app has not created the object yet. *)
Definition host_without_app (now : Z) : Env :=
  {| mach_absolute_time := now;
     mach_timebase_info := {| numer := 125; denom := 3 |};
     open_result := -1;
     mmap_succeeds := false |}.

(** An Intel host: one tick is one nanosecond. *)
Definition intel_host_at (now : Z) : Env :=
  {| mach_absolute_time := now;
     mach_timebase_info := {| numer := 1; denom := 1 |};
     open_result := 3;
     mmap_succeeds := true |}.

Definition mapped_globals : Globals :=
  set_shm 3 SHM SHM SHM_DATA [sys_open; sys_mmap] initial_globals.

(** [n] samples counting up from [i]. *)
Fixpoint count_up (n : nat) (i : Z) : list Float32 :=
  match n with
  | O => []
  | S n' => i :: count_up n' (i + 1)
  end.

(** A data region whose sample at index [i] is [i]. *)
Definition counting_ring : list Float32 := count_up (Z.to_nat 32768) 0.

Definition shm_with (wHead rHead act : Z) (data : list Float32) : SharedMemory :=
  {| header := {| writeHead := wHead; readHead := rHead; active := act;
                  sampleRate := 48000; channels := 2 |};
     ringData := data |}.

(** The [memcpy] calls of a read that finds [k <= N] frames at
    [rHead]: none for an empty request, one up to the end of the data
    region, and a second one from offset 0 when the run crosses it. *)
Definition split_copies (rHead k : Z) : list MemcpyCall :=
  let off := rHead mod kRightMic_RingBufferFrames in
  if k =? 0 then []
  else if off + k <=? kRightMic_RingBufferFrames then
    [{| dst_offset := 0; src_offset := 2 * off; n_bytes := 8 * k |}]
  else
    [{| dst_offset := 0; src_offset := 2 * off;
        n_bytes := 8 * (kRightMic_RingBufferFrames - off) |};
     {| dst_offset := 2 * (kRightMic_RingBufferFrames - off); src_offset := 0;
        n_bytes := 8 * (k - (kRightMic_RingBufferFrames - off)) |}].

(** A session in which the writer publishes first and the host reads
    afterwards. *)
Definition publishes_then_reads (pubs : list (list Frame))
    (reads : list (Z * list Float32)) : list Event :=
  map Publish pubs ++ map (fun r => Read (fst r) (snd r)) reads.

(** The slot of frame position [pos] in the data region: the index of its
    first sample. *)
Definition slot (pos : Z) : nat :=
  Z.to_nat (kRightMic_ChannelCount * (pos mod kRightMic_RingBufferFrames)).

(** Two publishes of three frames each; in the examples they are made
    with both counters at frame 16380, across the end of the data region. *)
Definition example_pubs : list (list Frame) :=
  [[(1, 2); (3, 4); (5, 6)]; [(7, 8); (9, 10); (11, 12)]].

(** A timebase with ticks of less than 4.9 microseconds ([2048] ticks in
    ten milliseconds), as the host clock of every Mac has (one nanosecond
    on Intel, 125/3 nanoseconds on Apple silicon): an IO period then lasts
    at least 2048 ticks. *)
Definition fine_timebase (tb : mach_timebase_info_data_t) : Prop :=
  valid_timebase tb /\ 2048 * numer tb <= 10000000 * denom tb.

(** [samplePosition / 48000] seconds are exactly [elapsedTicks] ticks of a
    clock whose tick lasts [numer / denom] nanoseconds. *)
Definition elapsed_matches_sample_rate (tb : mach_timebase_info_data_t)
    (samplePosition elapsedTicks : Z) : Prop :=
  samplePosition * 1000000000 * denom tb = elapsedTicks * 48000 * numer tb.

(** The driver once the host has called [Initialize]. *)
Definition initialized_globals (e : Env) : Globals :=
  snd (RightMic_Initialize e initial_globals).

(** 48 kHz stereo linear PCM as packed 16-bit signed integers: not the
    driver's sample format. *)
Definition int16_stereo_48k : AudioStreamBasicDescription :=
  {| mSampleRate := Float64_of_Z 48000;
     mFormatID := kAudioFormatLinearPCM;
     mFormatFlags := Z.lor kAudioFormatFlagIsSignedInteger kAudioFormatFlagIsPacked;
     mBytesPerPacket := 4;
     mFramesPerPacket := 1;
     mBytesPerFrame := 4;
     mChannelsPerFrame := 2;
     mBitsPerChannel := 16;
     mReserved := 0 |}.

(** The statics after a call of [StartIO] (unchanged when the call is
    undefined). *)
Definition globals_after_StartIO (e : Env) (g : Globals) : Globals :=
  match RightMic_StartIO e g with
  | Some (_, g') => g'
  | None => g
  end.

(** An Apple-silicon host, initialized, with IO started at host time [T0];
    and the same on an Intel host. *)
Definition running_since (T0 : Z) : Globals :=
  globals_after_StartIO (host_at T0) (initialized_globals (host_at 0)).

Definition intel_running_since (T0 : Z) : Globals :=
  globals_after_StartIO (intel_host_at T0) (initialized_globals (intel_host_at 0)).

(* ================================================================= *)
(** ** The property interface: constants

    Four-character codes of <CoreAudio/AudioHardwareBase.h> and
    <CoreAudio/AudioServerPlugIn.h>, and the sizes of the property types on
    a 64-bit host. *)

(** The value of the C character literal ['abcd']. *)
Definition fourcc (s : string) : Z :=
  fold_left (fun acc c => acc * 256 + Z.of_N (Ascii.N_of_ascii c))
            (String.list_ascii_of_string s) 0.

Definition kAudioObjectPropertyBaseClass : Z := fourcc "bcls".
Definition kAudioObjectPropertyClass : Z := fourcc "clas".
Definition kAudioObjectPropertyOwner : Z := fourcc "stdv".
Definition kAudioObjectPropertyName : Z := fourcc "lnam".
Definition kAudioObjectPropertyManufacturer : Z := fourcc "lmak".
Definition kAudioObjectPropertyControlList : Z := fourcc "ctrl".
Definition kAudioPlugInPropertyDeviceList : Z := fourcc "dev#".
Definition kAudioPlugInPropertyTranslateUIDToDevice : Z := fourcc "uidd".
Definition kAudioPlugInPropertyResourceBundle : Z := fourcc "rsrc".
Definition kAudioDevicePropertyDeviceUID : Z := fourcc "uid ".
Definition kAudioDevicePropertyModelUID : Z := fourcc "muid".
Definition kAudioDevicePropertyTransportType : Z := fourcc "tran".
Definition kAudioDevicePropertyRelatedDevices : Z := fourcc "akin".
Definition kAudioDevicePropertyClockDomain : Z := fourcc "clkd".
Definition kAudioDevicePropertyDeviceIsAlive : Z := fourcc "livn".
Definition kAudioDevicePropertyDeviceIsRunning : Z := fourcc "goin".
Definition kAudioDevicePropertyDeviceCanBeDefaultDevice : Z := fourcc "dflt".
Definition kAudioDevicePropertyDeviceCanBeDefaultSystemDevice : Z := fourcc "sflt".
Definition kAudioDevicePropertyLatency : Z := fourcc "ltnc".
Definition kAudioDevicePropertyStreams : Z := fourcc "stm#".
Definition kAudioDevicePropertyAvailableNominalSampleRates : Z := fourcc "nsr#".
Definition kAudioDevicePropertyZeroTimeStampPeriod : Z := fourcc "ring".
Definition kAudioDevicePropertySafetyOffset : Z := fourcc "saft".
Definition kAudioDevicePropertyClockIsStable : Z := fourcc "cstb".
Definition kAudioDevicePropertyIsHidden : Z := fourcc "hidn".
Definition kAudioStreamPropertyIsActive : Z := fourcc "sact".
Definition kAudioStreamPropertyDirection : Z := fourcc "sdir".
Definition kAudioStreamPropertyTerminalType : Z := fourcc "term".
Definition kAudioStreamPropertyStartingChannel : Z := fourcc "schn".
Definition kAudioStreamPropertyLatency : Z := kAudioDevicePropertyLatency.
Definition kAudioStreamPropertyAvailableVirtualFormats : Z := fourcc "sfma".
Definition kAudioStreamPropertyAvailablePhysicalFormats : Z := fourcc "pfta".

Definition kAudioObjectPropertyScopeGlobal : Z := fourcc "glob".
Definition kAudioObjectPropertyScopeInput : Z := fourcc "inpt".
Definition kAudioObjectPropertyScopeOutput : Z := fourcc "outp".

Definition kAudioObjectClassID : Z := fourcc "aobj".
Definition kAudioPlugInClassID : Z := fourcc "aplg".
Definition kAudioDeviceClassID : Z := fourcc "adev".
Definition kAudioStreamClassID : Z := fourcc "astr".
Definition kAudioObjectUnknown : Z := 0.
Definition kAudioObjectPlugInObject : Z := 1.
Definition kAudioDeviceTransportTypeVirtual : Z := fourcc "virt".
Definition kAudioStreamTerminalTypeMicrophone : Z := fourcc "micr".

Definition sizeof_UInt32 : Z := 4.
Definition sizeof_AudioClassID : Z := 4.
Definition sizeof_AudioObjectID : Z := 4.
Definition sizeof_CFStringRef : Z := 8.
Definition sizeof_AudioValueRange : Z := 16.
Definition sizeof_AudioStreamRangedDescription : Z := 56.

(** The identifiers of RightMicDriver.h. *)
Definition kRightMic_DeviceUID : string := "com.rightmic.device".
Definition kRightMic_ModelUID : string := "com.rightmic.model".
Definition kRightMic_DeviceName : string := "RightMic".
Definition kRightMic_Manufacturer : string := "RightMic".

(* ================================================================= *)
(** ** Section 3: the factory, and Section 4: IUnknown *)

(** UUIDs as 128-bit values. *)
Definition IUnknownUUID : Z := 0x00000000_0000_0000_C000_000000000046.
Definition kAudioServerPlugInTypeUUID : Z := 0x443ABAB8_E7B3_491A_B985_BEB9187030DB.
Definition kAudioServerPlugInDriverInterfaceUUID : Z :=
  0xEEA5773D_CC43_49F1_8E00_8F96E7D23B17.

Inductive HRESULT :=
| S_OK
| E_NOINTERFACE.

Definition set_sRefCount (n : Z) (g : Globals) : Globals :=
  {| sRefCount := n;
     sDeviceIsRunning := sDeviceIsRunning g;
     sClientCount := sClientCount g;
     sTimebaseInfo := sTimebaseInfo g;
     sIO_StartHostTime := sIO_StartHostTime g;
     sIO_HostTicksPerPeriod := sIO_HostTicksPerPeriod g;
     sShm_FD := sShm_FD g;
     sShm_Ptr := sShm_Ptr g;
     sRingHeader := sRingHeader g;
     sRingData := sRingData g;
     syscalls := syscalls g |}.

(** The factory; the boolean tells whether it returned the interface
    (rather than NULL). *)
Definition RightMic_Create (typeUUID : Z) (g : Globals) : bool * Globals :=
  if negb (typeUUID =? kAudioServerPlugInTypeUUID) then (false, g)
  else (true, set_sRefCount 1 g).

(** The boolean tells whether [*outInterface] is [inDriver] (rather than
    NULL). *)
Definition RightMic_QueryInterface (inUUID : Z) (g : Globals)
  : HRESULT * bool * Globals :=
  let isIUnknown := inUUID =? IUnknownUUID in
  let isPlugin := inUUID =? kAudioServerPlugInDriverInterfaceUUID in
  if isIUnknown || isPlugin
  then (S_OK, true, set_sRefCount (wrap32 (sRefCount g + 1)) g)
  else (E_NOINTERFACE, false, g).

Definition RightMic_AddRef (g : Globals) : Z * Globals :=
  let g' := set_sRefCount (wrap32 (sRefCount g + 1)) g in
  (sRefCount g', g').

Definition RightMic_Release (g : Globals) : Z * Globals :=
  let g' := if sRefCount g >? 0 then set_sRefCount (wrap32 (sRefCount g - 1)) g else g in
  (sRefCount g', g').

(* ================================================================= *)
(** ** Section 9: HasProperty, and Section 10: IsPropertySettable *)

(** [x] is one of the labels of a run of [case] labels. *)
Definition one_of (x : Z) (cases : list Z) : bool := existsb (Z.eqb x) cases.

(** The [case] labels of the three inner switches of [HasProperty]. *)
Definition plugin_properties : list Z :=
  [kAudioObjectPropertyBaseClass; kAudioObjectPropertyClass;
   kAudioObjectPropertyOwner; kAudioObjectPropertyManufacturer;
   kAudioPlugInPropertyDeviceList; kAudioPlugInPropertyTranslateUIDToDevice;
   kAudioPlugInPropertyResourceBundle].

Definition device_properties : list Z :=
  [kAudioObjectPropertyBaseClass; kAudioObjectPropertyClass;
   kAudioObjectPropertyOwner; kAudioObjectPropertyName;
   kAudioObjectPropertyManufacturer; kAudioDevicePropertyDeviceUID;
   kAudioDevicePropertyModelUID; kAudioDevicePropertyTransportType;
   kAudioDevicePropertyRelatedDevices; kAudioDevicePropertyClockDomain;
   kAudioDevicePropertyDeviceIsAlive; kAudioDevicePropertyDeviceIsRunning;
   kAudioDevicePropertyDeviceCanBeDefaultDevice;
   kAudioDevicePropertyDeviceCanBeDefaultSystemDevice;
   kAudioDevicePropertyLatency; kAudioDevicePropertyStreams;
   kAudioObjectPropertyControlList; kAudioDevicePropertyNominalSampleRate;
   kAudioDevicePropertyAvailableNominalSampleRates;
   kAudioDevicePropertyZeroTimeStampPeriod; kAudioDevicePropertySafetyOffset;
   kAudioDevicePropertyClockIsStable; kAudioDevicePropertyIsHidden].

Definition stream_properties : list Z :=
  [kAudioObjectPropertyBaseClass; kAudioObjectPropertyClass;
   kAudioObjectPropertyOwner; kAudioStreamPropertyIsActive;
   kAudioStreamPropertyDirection; kAudioStreamPropertyTerminalType;
   kAudioStreamPropertyStartingChannel; kAudioStreamPropertyLatency;
   kAudioStreamPropertyVirtualFormat; kAudioStreamPropertyPhysicalFormat;
   kAudioStreamPropertyAvailableVirtualFormats;
   kAudioStreamPropertyAvailablePhysicalFormats].

Definition RightMic_HasProperty (inObjectID mSelector : Z) : bool :=
  if inObjectID =? kRightMicObjectID_Plugin then one_of mSelector plugin_properties
  else if inObjectID =? kRightMicObjectID_Device then one_of mSelector device_properties
  else if inObjectID =? kRightMicObjectID_InputStream
  then one_of mSelector stream_properties
  else false.

(** The status, and [*outIsSettable] when it was written. *)
Definition RightMic_IsPropertySettable (inObjectID mSelector : Z)
  : OSStatus * option bool :=
  if negb (RightMic_HasProperty inObjectID mSelector)
  then (kAudioHardwareUnknownPropertyError, None)
  else
    let settable :=
      if inObjectID =? kRightMicObjectID_Device then
        mSelector =? kAudioDevicePropertyNominalSampleRate
      else if inObjectID =? kRightMicObjectID_InputStream then
        (mSelector =? kAudioStreamPropertyVirtualFormat)
        || (mSelector =? kAudioStreamPropertyPhysicalFormat)
      else false in
    (kAudioHardwareNoError, Some settable).

(* ================================================================= *)
(** ** Section 11: GetPropertyDataSize *)

(** [inAddress->mScope == kAudioObjectPropertyScopeInput ||
    inAddress->mScope == kAudioObjectPropertyScopeGlobal] *)
Definition input_or_global (mScope : Z) : bool :=
  (mScope =? kAudioObjectPropertyScopeInput)
  || (mScope =? kAudioObjectPropertyScopeGlobal).

(** The status, and [*outDataSize] when it was written. *)
Definition RightMic_GetPropertyDataSize (inObjectID mSelector mScope : Z)
  : OSStatus * option Z :=
  let size n := (kAudioHardwareNoError, Some n) in
  let unknown := (kAudioHardwareUnknownPropertyError, None) in
  if negb (RightMic_HasProperty inObjectID mSelector) then unknown
  else if inObjectID =? kRightMicObjectID_Plugin then
    if one_of mSelector
         [kAudioObjectPropertyBaseClass; kAudioObjectPropertyClass;
          kAudioObjectPropertyOwner]
    then size sizeof_AudioClassID
    else if one_of mSelector
              [kAudioObjectPropertyManufacturer; kAudioPlugInPropertyResourceBundle]
    then size sizeof_CFStringRef
    else if mSelector =? kAudioPlugInPropertyDeviceList then size sizeof_AudioObjectID
    else if mSelector =? kAudioPlugInPropertyTranslateUIDToDevice
    then size sizeof_AudioObjectID
    else unknown
  else if inObjectID =? kRightMicObjectID_Device then
    if one_of mSelector
         [kAudioObjectPropertyBaseClass; kAudioObjectPropertyClass;
          kAudioObjectPropertyOwner; kAudioDevicePropertyClockDomain;
          kAudioDevicePropertyLatency; kAudioDevicePropertySafetyOffset;
          kAudioDevicePropertyZeroTimeStampPeriod; kAudioDevicePropertyTransportType]
    then size sizeof_UInt32
    else if one_of mSelector
              [kAudioObjectPropertyName; kAudioObjectPropertyManufacturer;
               kAudioDevicePropertyDeviceUID; kAudioDevicePropertyModelUID]
    then size sizeof_CFStringRef
    else if mSelector =? kAudioDevicePropertyRelatedDevices
    then size sizeof_AudioObjectID
    else if one_of mSelector
              [kAudioDevicePropertyDeviceIsAlive; kAudioDevicePropertyDeviceIsRunning;
               kAudioDevicePropertyDeviceCanBeDefaultDevice;
               kAudioDevicePropertyDeviceCanBeDefaultSystemDevice;
               kAudioDevicePropertyClockIsStable; kAudioDevicePropertyIsHidden]
    then size sizeof_UInt32
    else if mSelector =? kAudioDevicePropertyStreams then
      if input_or_global mScope
      then size sizeof_AudioObjectID   (* 1 input stream *)
      else size 0                      (* no output streams *)
    else if mSelector =? kAudioObjectPropertyControlList then size 0
    else if mSelector =? kAudioDevicePropertyNominalSampleRate then size sizeof_Float64
    else if mSelector =? kAudioDevicePropertyAvailableNominalSampleRates
    then size sizeof_AudioValueRange
    else unknown
  else if inObjectID =? kRightMicObjectID_InputStream then
    if one_of mSelector
         [kAudioObjectPropertyBaseClass; kAudioObjectPropertyClass;
          kAudioObjectPropertyOwner]
    then size sizeof_AudioClassID
    else if one_of mSelector
              [kAudioStreamPropertyIsActive; kAudioStreamPropertyDirection;
               kAudioStreamPropertyTerminalType; kAudioStreamPropertyStartingChannel;
               kAudioStreamPropertyLatency]
    then size sizeof_UInt32
    else if one_of mSelector
              [kAudioStreamPropertyVirtualFormat; kAudioStreamPropertyPhysicalFormat]
    then size sizeof_AudioStreamBasicDescription
    else if one_of mSelector
              [kAudioStreamPropertyAvailableVirtualFormats;
               kAudioStreamPropertyAvailablePhysicalFormats]
    then size sizeof_AudioStreamRangedDescription
    else unknown
  else unknown.

(* ================================================================= *)
(** ** Section 12: GetPropertyData *)

(** What the driver stores at [outData], by the type it stores it as. *)
Inductive PropertyValue :=
| UInt32Value (v : Z)    (* UInt32, AudioClassID, AudioObjectID *)
| CFStringValue (s : string)
| Float64Value (v : Float64)
| AudioValueRangeValue (mMinimum mMaximum : Float64)
| ASBDValue (d : AudioStreamBasicDescription)
| AudioStreamRangedDescriptionValue (mFormat : AudioStreamBasicDescription)
    (mMinimum mMaximum : Float64).

(** The number of bytes the store of a value writes. *)
Definition sizeof_value (v : PropertyValue) : Z :=
  match v with
  | UInt32Value _ => sizeof_UInt32
  | CFStringValue _ => sizeof_CFStringRef
  | Float64Value _ => sizeof_Float64
  | AudioValueRangeValue _ _ => sizeof_AudioValueRange
  | ASBDValue _ => sizeof_AudioStreamBasicDescription
  | AudioStreamRangedDescriptionValue _ _ _ => sizeof_AudioStreamRangedDescription
  end.

(** The status, and [*outDataSize] and [*outData] when they were written. *)
Record PropertyResult := {
  prop_status : OSStatus;
  prop_outDataSize : option Z;
  prop_outData : option PropertyValue
}.

Definition property_error (st : OSStatus) : PropertyResult :=
  {| prop_status := st; prop_outDataSize := None; prop_outData := None |}.

(** A size is reported and nothing is stored at [outData]. *)
Definition property_size_only (size : Z) : PropertyResult :=
  {| prop_status := kAudioHardwareNoError;
     prop_outDataSize := Some size;
     prop_outData := None |}.

Definition store_property (size : Z) (v : PropertyValue) : PropertyResult :=
  {| prop_status := kAudioHardwareNoError;
     prop_outDataSize := Some size;
     prop_outData := Some v |}.

(** The body of nearly every case:
    [if (inDataSize < sizeof (T)) return kAudioHardwareBadPropertySizeError;
     *outDataSize = sizeof (T); *(T * )outData = v; return kAudioHardwareNoError;] *)
Definition put_property (inDataSize size : Z) (v : PropertyValue) : PropertyResult :=
  if inDataSize <? size then property_error kAudioHardwareBadPropertySizeError
  else store_property size v.

(** The case [kAudioPlugInPropertyTranslateUIDToDevice]; [inQualifierData]
    is NULL ([None]) or points to a [CFStringRef]. [inDataSize] is not
    looked at. *)
Definition translate_UID_to_device (inQualifierDataSize : Z)
    (inQualifierData : option string) : PropertyResult :=
  match inQualifierData with
  | None => property_error kAudioHardwareBadPropertySizeError
  | Some uid =>
      if inQualifierDataSize <? sizeof_CFStringRef
      then property_error kAudioHardwareBadPropertySizeError
      else
        store_property sizeof_AudioObjectID
          (UInt32Value (if String.eqb uid kRightMic_DeviceUID
                        then kRightMicObjectID_Device
                        else kAudioObjectUnknown))
  end.

Definition RightMic_GetPropertyData (g : Globals) (inObjectID mSelector mScope : Z)
    (inQualifierDataSize : Z) (inQualifierData : option string) (inDataSize : Z)
  : PropertyResult :=
  let unknown := property_error kAudioHardwareUnknownPropertyError in
  let put := put_property inDataSize in
  if inObjectID =? kRightMicObjectID_Plugin then
    if mSelector =? kAudioObjectPropertyBaseClass then
      put sizeof_AudioClassID (UInt32Value kAudioObjectClassID)
    else if mSelector =? kAudioObjectPropertyClass then
      put sizeof_AudioClassID (UInt32Value kAudioPlugInClassID)
    else if mSelector =? kAudioObjectPropertyOwner then
      put sizeof_AudioObjectID (UInt32Value kAudioObjectPlugInObject)
    else if mSelector =? kAudioObjectPropertyManufacturer then
      put sizeof_CFStringRef (CFStringValue kRightMic_Manufacturer)
    else if mSelector =? kAudioPlugInPropertyDeviceList then
      put sizeof_AudioObjectID (UInt32Value kRightMicObjectID_Device)
    else if mSelector =? kAudioPlugInPropertyTranslateUIDToDevice then
      translate_UID_to_device inQualifierDataSize inQualifierData
    else if mSelector =? kAudioPlugInPropertyResourceBundle then
      put sizeof_CFStringRef (CFStringValue EmptyString)
    else unknown
  else if inObjectID =? kRightMicObjectID_Device then
    if mSelector =? kAudioObjectPropertyBaseClass then
      put sizeof_AudioClassID (UInt32Value kAudioObjectClassID)
    else if mSelector =? kAudioObjectPropertyClass then
      put sizeof_AudioClassID (UInt32Value kAudioDeviceClassID)
    else if mSelector =? kAudioObjectPropertyOwner then
      put sizeof_AudioObjectID (UInt32Value kRightMicObjectID_Plugin)
    else if mSelector =? kAudioObjectPropertyName then
      put sizeof_CFStringRef (CFStringValue kRightMic_DeviceName)
    else if mSelector =? kAudioObjectPropertyManufacturer then
      put sizeof_CFStringRef (CFStringValue kRightMic_Manufacturer)
    else if mSelector =? kAudioDevicePropertyDeviceUID then
      put sizeof_CFStringRef (CFStringValue kRightMic_DeviceUID)
    else if mSelector =? kAudioDevicePropertyModelUID then
      put sizeof_CFStringRef (CFStringValue kRightMic_ModelUID)
    else if mSelector =? kAudioDevicePropertyTransportType then
      put sizeof_UInt32 (UInt32Value kAudioDeviceTransportTypeVirtual)
    else if mSelector =? kAudioDevicePropertyRelatedDevices then
      put sizeof_AudioObjectID (UInt32Value kRightMicObjectID_Device)
    else if mSelector =? kAudioDevicePropertyClockDomain then
      put sizeof_UInt32 (UInt32Value 0)
    else if mSelector =? kAudioDevicePropertyDeviceIsAlive then
      put sizeof_UInt32 (UInt32Value 1)
    else if mSelector =? kAudioDevicePropertyDeviceIsRunning then
      put sizeof_UInt32 (UInt32Value (if sDeviceIsRunning g then 1 else 0))
    else if mSelector =? kAudioDevicePropertyDeviceCanBeDefaultDevice then
      put sizeof_UInt32
          (UInt32Value (if input_or_global mScope then 1 else 0))
    else if mSelector =? kAudioDevicePropertyDeviceCanBeDefaultSystemDevice then
      put sizeof_UInt32 (UInt32Value 0)
    else if mSelector =? kAudioDevicePropertyLatency then
      put sizeof_UInt32 (UInt32Value 0)
    else if mSelector =? kAudioDevicePropertySafetyOffset then
      put sizeof_UInt32 (UInt32Value 0)
    else if mSelector =? kAudioDevicePropertyStreams then
      if input_or_global mScope
      then put sizeof_AudioObjectID (UInt32Value kRightMicObjectID_InputStream)
      else property_size_only 0
    else if mSelector =? kAudioObjectPropertyControlList then
      property_size_only 0
    else if mSelector =? kAudioDevicePropertyNominalSampleRate then
      put sizeof_Float64 (Float64Value kRightMic_SampleRate)
    else if mSelector =? kAudioDevicePropertyAvailableNominalSampleRates then
      put sizeof_AudioValueRange
          (AudioValueRangeValue kRightMic_SampleRate kRightMic_SampleRate)
    else if mSelector =? kAudioDevicePropertyZeroTimeStampPeriod then
      put sizeof_UInt32 (UInt32Value kRightMic_BufferFrameSize)
    else if mSelector =? kAudioDevicePropertyClockIsStable then
      put sizeof_UInt32 (UInt32Value 1)
    else if mSelector =? kAudioDevicePropertyIsHidden then
      put sizeof_UInt32 (UInt32Value 0)
    else unknown
  else if inObjectID =? kRightMicObjectID_InputStream then
    if mSelector =? kAudioObjectPropertyBaseClass then
      put sizeof_AudioClassID (UInt32Value kAudioObjectClassID)
    else if mSelector =? kAudioObjectPropertyClass then
      put sizeof_AudioClassID (UInt32Value kAudioStreamClassID)
    else if mSelector =? kAudioObjectPropertyOwner then
      put sizeof_AudioObjectID (UInt32Value kRightMicObjectID_Device)
    else if mSelector =? kAudioStreamPropertyIsActive then
      put sizeof_UInt32 (UInt32Value 1)
    else if mSelector =? kAudioStreamPropertyDirection then
      put sizeof_UInt32 (UInt32Value 1)
    else if mSelector =? kAudioStreamPropertyTerminalType then
      put sizeof_UInt32 (UInt32Value kAudioStreamTerminalTypeMicrophone)
    else if mSelector =? kAudioStreamPropertyStartingChannel then
      put sizeof_UInt32 (UInt32Value 1)
    else if mSelector =? kAudioStreamPropertyLatency then
      put sizeof_UInt32 (UInt32Value 0)
    else if (mSelector =? kAudioStreamPropertyVirtualFormat)
            || (mSelector =? kAudioStreamPropertyPhysicalFormat) then
      put sizeof_AudioStreamBasicDescription (ASBDValue RightMic_ASBD)
    else if (mSelector =? kAudioStreamPropertyAvailableVirtualFormats)
            || (mSelector =? kAudioStreamPropertyAvailablePhysicalFormats) then
      put sizeof_AudioStreamRangedDescription
          (AudioStreamRangedDescriptionValue RightMic_ASBD
             kRightMic_SampleRate kRightMic_SampleRate)
    else unknown
  else unknown.

(** The bytes a [GetPropertyData] call stored, handed back as the [inData]
    of a [SetPropertyData] call. *)
Definition as_PropertyData (v : PropertyValue) : option PropertyData :=
  match v with
  | Float64Value f => Some (Float64Data f)
  | ASBDValue d => Some (ASBDData d)
  | _ => None
  end.

(* ================================================================= *)
(** ** Runs of calls, and the invariant of the mapping *)

(** A run of calls of the host, each with what the operating system
    answers during it. *)
Fixpoint run (cs : list (Env * Call)) (g : Globals) (shm : SharedMemory)
  : option (Globals * SharedMemory) :=
  match cs with
  | [] => Some (g, shm)
  | (e, c) :: cs' =>
      match step e c g shm with
      | Some (g', shm') => run cs' g' shm'
      | None => None
      end
  end.

(** The statics of the mapping agree: either there is no mapping, no
    descriptor and no pointer into one, or there are all three. *)
Definition shm_invariant (g : Globals) : Prop :=
  (sShm_Ptr g = MAP_FAILED /\ sRingHeader g = NULL /\ sRingData g = NULL
   /\ sShm_FD g < 0)
  \/ (mapped g /\ 0 <= sShm_FD g).

(** [n] calls in a row of an entry point that takes no argument. *)
Fixpoint repeat_call (n : nat) (f : Globals -> Globals) (g : Globals) : Globals :=
  match n with
  | O => g
  | S n' => repeat_call n' f (f g)
  end.

Definition AddRef_times (n : nat) (g : Globals) : Globals :=
  repeat_call n (fun g => snd (RightMic_AddRef g)) g.

Definition Release_times (n : nat) (g : Globals) : Globals :=
  repeat_call n (fun g => snd (RightMic_Release g)) g.

Definition AddDeviceClient_times (n : nat) (g : Globals) : Globals :=
  repeat_call n (fun g => snd (RightMic_AddDeviceClient g)) g.

Definition RemoveDeviceClient_times (n : nat) (g : Globals) : Globals :=
  repeat_call n (fun g => snd (RightMic_RemoveDeviceClient g)) g.

(** A run of the host against a machine on which the companion app
    appears late: a read before the shared object exists, [StartIO] once it
    does, a read, and [StopIO]. *)
Definition example_calls : list (Env * Call) :=
  [(host_without_app 0, CallInitialize);
   (host_without_app 10,
    CallDoIOOperation kAudioServerPlugInIOOperationReadInput 2 [7; 7; 7; 7]);
   (host_at 20, CallStartIO);
   (host_at 30,
    CallDoIOOperation kAudioServerPlugInIOOperationReadInput 2 [7; 7; 7; 7]);
   (host_at 40, CallStopIO)].

(** One [memcpy] call stays inside its two arrays, of [dst_len] and
    [src_len] samples. *)
Definition copy_in_bounds (dst_len src_len : Z) (c : MemcpyCall) : Prop :=
  0 <= dst_offset c /\ 0 <= src_offset c /\ 0 <= n_bytes c /\
  dst_offset c + n_bytes c / sizeof_float <= dst_len /\
  src_offset c + n_bytes c / sizeof_float <= src_len.

(** The publishes of the writer, one after the other. *)
Definition publish_all (pubs : list (list Frame)) (m : SharedMemory) : SharedMemory :=
  fold_left (fun m fs => writer_publish fs m) pubs m.

(** [n] frames whose samples count up from [i]. *)
Fixpoint counting_frames (n : nat) (i : Z) : list Frame :=
  match n with
  | O => []
  | S n' => (i, i + 1) :: counting_frames n' (i + 2)
  end.

(** The example of the specification, with a stream in the ring: both
    counters stood at frame 16000 when the writer published 512 frames,
    which lie across the end of the data region. *)
Definition example_stream : list Frame := counting_frames 512 100000.

Definition example_wrapped : SharedMemory :=
  writer_publish example_stream (shm_with 16000 16000 1 counting_ring).

(* ================================================================= *)
(** * Properties *)

(** ** Machine arithmetic *)

Lemma wrap32_small x : 0 <= x < 2 ^ 32 -> wrap32 x = x.
Proof. intros H. unfold wrap32. now apply Z.mod_small. Qed.

Lemma wrap64_small x : 0 <= x < 2 ^ 64 -> wrap64 x = x.
Proof. intros H. unfold wrap64. now apply Z.mod_small. Qed.

Lemma wrap32_range x : 0 <= wrap32 x < 2 ^ 32.
Proof. unfold wrap32. apply Z.mod_pos_bound. lia. Qed.

Lemma wrap64_range x : 0 <= wrap64 x < 2 ^ 64.
Proof. unfold wrap64. apply Z.mod_pos_bound. lia. Qed.

(** The ring capacity divides 2^64: addressing is unaffected by a wrap of
    the 64-bit sum [rHead + framesRead]. *)
Lemma wrap64_mod_ring x :
  wrap64 x mod kRightMic_RingBufferFrames = x mod kRightMic_RingBufferFrames.
Proof.
  unfold wrap64, kRightMic_RingBufferFrames.
  apply Z.mod_mod_divide. exists (2 ^ 50). reflexivity.
Qed.

(** ** The shape of a read *)

Lemma available_frames_spec wHead rHead :
  0 <= wHead < 2 ^ 64 -> 0 <= rHead < 2 ^ 64 ->
  available_frames wHead rHead = Z.max 0 (wHead - rHead).
Proof.
  intros Hw Hr. unfold available_frames.
  destruct (Z.geb_spec wHead rHead).
  - rewrite wrap64_small by lia. lia.
  - lia.
Qed.

Lemma copy_loop_done fuel ring rHead k fr out log :
  k <= fr -> copy_loop fuel ring rHead k fr out log = (fr, out, log).
Proof.
  intros H. destruct fuel; simpl; [reflexivity|].
  destruct (Z.ltb_spec fr k); [lia | reflexivity].
Qed.

Lemma memset_zero_0 buf : memset_zero buf 0 = buf.
Proof. reflexivity. Qed.

(** The driver's mapping does not take stores. *)
Lemma store_readHead_faults v m : store_readHead mapping_protection v m = None.
Proof. reflexivity. Qed.

(** The branch structure of a ReadInput call, with the loop left folded:
    the data branch copies, and then does not return from its store. *)
Lemma read_input_unfold e g m k buf :
  read_input e g m k buf =
  let g' := after_reopen e g in
  if negb (Pointer_eqb (sRingHeader g') NULL) && negb (active (header m) =? 0) then
    if available_frames (writeHead (header m)) (readHead (header m)) >=? k then
      let r := copy_loop (copy_fuel k) (ringData m) (readHead (header m)) k 0 buf [] in
      {| io_status := None;
         io_globals := g';
         io_shm := m;
         io_buffer := snd (fst r);
         io_copies := snd r |}
    else fill_with_silence g' m buf (wrap32 (k * kRightMic_ChannelCount))
  else fill_with_silence g' m buf (wrap32 (k * kRightMic_ChannelCount)).
Proof.
  unfold read_input, RightMic_DoIOOperation, after_reopen.
  rewrite Z.eqb_refl. simpl negb. cbv iota.
  destruct (negb _ && negb _); [|reflexivity].
  destruct (_ >=? k); [|reflexivity].
  destruct (copy_loop _ _ _ _ _ _ _) as [[? ?] ?].
  rewrite store_readHead_faults. reflexivity.
Qed.

Lemma after_reopen_unavailable e g :
  mapping_unavailable e g -> sRingHeader (after_reopen e g) = NULL.
Proof.
  intros [Hh Hp]. unfold after_reopen.
  destruct (sShm_Ptr g) eqn:Eptr; simpl; try exact Hh.
  unfold RightMic_OpenSharedMemory. rewrite Eptr. simpl.
  destruct (Z.ltb_spec (open_result e) 0); [exact Hh|].
  destruct (mmap_succeeds e) eqn:Em; simpl; [|exact Hh].
  destruct Hp as [? | ?]; [reflexivity | lia | discriminate].
Qed.

Lemma after_reopen_mapped e g : mapped g -> after_reopen e g = g.
Proof. intros (Hp & _). unfold after_reopen. now rewrite Hp. Qed.

(** A read never answers with an error: it returns
    [kAudioHardwareNoError], or it does not return. *)
Lemma read_input_status e g m k buf :
  io_status (read_input e g m k buf) = Some kAudioHardwareNoError \/
  io_status (read_input e g m k buf) = None.
Proof.
  rewrite read_input_unfold. cbv zeta.
  destruct (_ && _); [destruct (_ >=? _)|]; auto.
Qed.

(** It does not return exactly when it takes the data branch. *)
Lemma read_input_faults_iff e g m k buf :
  io_status (read_input e g m k buf) = None <->
  sRingHeader (after_reopen e g) <> NULL /\
  active (header m) <> 0 /\
  available_frames (writeHead (header m)) (readHead (header m)) >= k.
Proof.
  rewrite read_input_unfold. cbv zeta.
  destruct (sRingHeader (after_reopen e g)) eqn:Eh; cbn [Pointer_eqb negb andb];
    try (split; [discriminate | intros (H & _); contradiction]);
    (destruct (Z.eqb_spec (active (header m)) 0) as [Ea | Ea]; cbn [negb];
     [split; [discriminate | intros (_ & H & _); contradiction]|]);
    (destruct (Z.geb_spec (available_frames (writeHead (header m))
                             (readHead (header m))) k) as [Hge | Hlt];
     [split; [intros _; repeat split; [discriminate | assumption | lia] | reflexivity]
     |split; [discriminate | intros (_ & _ & H); lia]]).
Qed.

(** A read writes nothing to the shared object. *)
Lemma read_input_shm e g m k buf : io_shm (read_input e g m k buf) = m.
Proof.
  rewrite read_input_unfold. cbv zeta.
  destruct (_ && _); [destruct (_ >=? _)|]; reflexivity.
Qed.

Lemma read_input_globals e g m k buf :
  io_globals (read_input e g m k buf) = after_reopen e g.
Proof.
  rewrite read_input_unfold. cbv zeta.
  destruct (_ && _); [destruct (_ >=? _)|]; reflexivity.
Qed.

(* ================================================================= *)
(** ** Operations other than ReadInput *)

(** C10. A [DoIOOperation] call whose operation is not ReadInput returns
    [kAudioHardwareNoError] and changes nothing: the statics (and with them
    the list of system calls: no [open], no [mmap]) are the same, the shared
    memory (so [readHead]) is the same, the buffer is the same, and no
    [memcpy] was made. *)
Theorem DoIOOperation_other_operation e g shm op frames buf :
  op <> kAudioServerPlugInIOOperationReadInput ->
  RightMic_DoIOOperation e g shm op frames buf =
  {| io_status := Some kAudioHardwareNoError;
     io_globals := g;
     io_shm := shm;
     io_buffer := buf;
     io_copies := [] |}.
Proof.
  intros Hop. unfold RightMic_DoIOOperation.
  destruct (Z.eqb_spec op kAudioServerPlugInIOOperationReadInput) as [Heq | _].
  - contradiction.
  - reflexivity.
Qed.

Lemma DoIOOperation_other_operation_witness :
  kAudioServerPlugInIOOperationWriteMix <> kAudioServerPlugInIOOperationReadInput /\
  RightMic_DoIOOperation (host_at 0) initial_globals
    (shm_with 512 0 1 counting_ring) kAudioServerPlugInIOOperationWriteMix 512
    (replicate 1024 7) =
  {| io_status := Some kAudioHardwareNoError;
     io_globals := initial_globals;
     io_shm := shm_with 512 0 1 counting_ring;
     io_buffer := replicate 1024 7;
     io_copies := [] |}.
Proof.
  split.
  - discriminate.
  - apply (DoIOOperation_other_operation (host_at 0) initial_globals
             (shm_with 512 0 1 counting_ring)
             kAudioServerPlugInIOOperationWriteMix 512 (replicate 1024 7)).
    discriminate.
Defined.

(** [WillDoIOOperation] announces the same: only ReadInput will be done. *)
Lemma WillDoIOOperation_only_ReadInput op :
  RightMic_WillDoIOOperation op =
  (kAudioHardwareNoError, (op =? kAudioServerPlugInIOOperationReadInput, true)).
Proof.
  unfold RightMic_WillDoIOOperation.
  destruct (op =? kAudioServerPlugInIOOperationReadInput); reflexivity.
Qed.

(* ================================================================= *)
(** ** The available-frame count *)

(** C7. The available-frame count is [writeHead - readHead] when
    [writeHead >= readHead] and 0 otherwise; it never wraps below zero.
    When [writeHead] is behind [readHead], a read of at least one frame
    takes the silence branch: the result is that of [fill_with_silence].
    (A request of no frames is not an underrun, [0 >= 0]: with a mapping
    and an active writer it takes the data branch, which copies nothing,
    leaves buffer and shared memory as they are, and does not return from
    its store.) *)
Theorem available_frames_clamped e g m k buf :
  0 <= writeHead (header m) < 2 ^ 64 ->
  0 <= readHead (header m) < 2 ^ 64 ->
  0 <= k < 2 ^ 32 ->
  let wHead := writeHead (header m) in
  let rHead := readHead (header m) in
  (wHead >= rHead -> available_frames wHead rHead = wHead - rHead) /\
  (wHead < rHead -> available_frames wHead rHead = 0) /\
  0 <= available_frames wHead rHead <= wHead /\
  (wHead < rHead ->
   (0 < k ->
    read_input e g m k buf =
    fill_with_silence (after_reopen e g) m buf (wrap32 (k * kRightMic_ChannelCount))) /\
   (k = 0 ->
    io_buffer (read_input e g m k buf) = buf /\
    io_shm (read_input e g m k buf) = m /\
    io_copies (read_input e g m k buf) = [])).
Proof.
  intros Hw Hr Hk wHead rHead. subst wHead rHead.
  rewrite available_frames_spec by assumption.
  repeat split; try lia.
  - intros Hpos. rewrite read_input_unfold. cbv zeta.
    destruct (_ && _); [|reflexivity].
    rewrite available_frames_spec by assumption.
    destruct (Z.geb_spec (Z.max 0 (writeHead (header m) - readHead (header m))) k)
      as [Hge | Hn]; [lia | reflexivity].
  - subst k. rewrite read_input_unfold. cbv zeta.
    destruct (_ && _); [destruct (_ >=? _)|]; reflexivity.
  - apply read_input_shm.
  - subst k. rewrite read_input_unfold. cbv zeta.
    destruct (_ && _); [destruct (_ >=? _)|]; reflexivity.
Qed.

Lemma available_frames_clamped_witness :
  let m := shm_with 100 4096 1 counting_ring in
  available_frames 100 4096 = 0 /\
  read_input (host_at 0) mapped_globals m 512 (replicate 1024 7) =
  fill_with_silence mapped_globals m (replicate 1024 7) 1024.
Proof.
  pose proof (available_frames_clamped (host_at 0) mapped_globals
                (shm_with 100 4096 1 counting_ring) 512 (replicate 1024 7)) as H.
  simpl in H.
  destruct H as (_ & H0 & _ & Hs); try lia.
  split; [apply H0; lia | apply Hs; lia].
Defined.

(* ================================================================= *)
(** ** The read head *)

(** C6. A read preserves [writeHead >= readHead] on the unwrapped 64-bit
    counters: [readHead] is left unchanged, or (only when
    [writeHead - readHead >= frames]) advanced by exactly [frames]; so
    [readHead] never overtakes [writeHead] and never decreases, and the
    writer's counter is not touched. In the driver as written it is always
    the first: the shared object is the same after every read, because the
    one store of the read, of [rHead + framesToFill] and made only when as
    many frames are available, goes through the read-only mapping and is
    not performed. *)
Theorem read_preserves_head_order e g m k buf :
  0 <= writeHead (header m) < 2 ^ 64 ->
  0 <= readHead (header m) < 2 ^ 64 ->
  0 <= k < 2 ^ 32 ->
  let r := read_input e g m k buf in
  let wHead := writeHead (header m) in
  let rHead := readHead (header m) in
  let rHead' := readHead (header (io_shm r)) in
  writeHead (header (io_shm r)) = wHead /\
  (rHead' = rHead \/ (wHead - rHead >= k /\ rHead' = rHead + k)) /\
  rHead <= rHead' /\
  (wHead >= rHead -> wHead >= rHead') /\
  io_shm r = m /\
  (io_status r = None -> available_frames wHead rHead >= k).
Proof.
  intros Hw Hr Hk. cbv zeta. rewrite read_input_shm.
  repeat split; auto; try lia.
  intros Hfault. apply read_input_faults_iff in Hfault. tauto.
Qed.

Lemma read_preserves_head_order_witness :
  let m := shm_with 2048 1024 1 counting_ring in
  let r := read_input (host_at 0) mapped_globals m 512 (replicate 1024 7) in
  writeHead (header (io_shm r)) = 2048 /\
  (readHead (header (io_shm r)) = 1024 \/
   (2048 - 1024 >= 512 /\ readHead (header (io_shm r)) = 1024 + 512)) /\
  1024 <= readHead (header (io_shm r)) /\
  (2048 >= 1024 -> 2048 >= readHead (header (io_shm r))) /\
  io_shm r = m /\
  (io_status r = None -> available_frames 2048 1024 >= 512).
Proof.
  apply (read_preserves_head_order (host_at 0) mapped_globals
           (shm_with 2048 1024 1 counting_ring) 512 (replicate 1024 7));
    simpl; lia.
Defined.

(** That read is one that finds its frames: it does not return. *)
Lemma read_of_available_frames_faults :
  io_status (read_input (host_at 0) mapped_globals
               (shm_with 2048 1024 1 counting_ring) 512 (replicate 1024 7)) = None.
Proof. vm_compute. reflexivity. Qed.

(* ================================================================= *)
(** ** Silence *)

Lemma memset_zero_whole buf n :
  Z.of_nat (length buf) = n -> memset_zero buf n = replicate (Z.to_nat n) 0.
Proof.
  intros H. unfold memset_zero.
  rewrite drop_ge by lia. apply app_nil_r.
Qed.

Lemma fill_with_silence_buffer g m buf k :
  0 <= k < 2 ^ 31 ->
  Z.of_nat (length buf) = kRightMic_ChannelCount * k ->
  io_buffer (fill_with_silence g m buf (wrap32 (k * kRightMic_ChannelCount))) = silence k.
Proof.
  intros Hk Hlen. unfold fill_with_silence, silence. simpl io_buffer.
  unfold kRightMic_ChannelCount, sizeof_float in *.
  rewrite wrap32_small by lia.
  rewrite wrap64_small by lia.
  rewrite Z.div_mul by lia.
  rewrite memset_zero_whole by lia. f_equal. lia.
Qed.

(** C2, as the code has it. For a read of fewer than 2^31 frames: if the
    region is not mapped (and cannot be mapped in this call), or [active] is
    0, or fewer frames are available than requested, the whole output buffer
    is zero, the shared memory (so [readHead]) is unchanged, and the call
    returns [kAudioHardwareNoError]. *)
Theorem read_underrun_is_silence e g m k buf :
  0 <= writeHead (header m) < 2 ^ 64 ->
  0 <= readHead (header m) < 2 ^ 64 ->
  0 <= k < 2 ^ 31 ->
  Z.of_nat (length buf) = kRightMic_ChannelCount * k ->
  mapping_unavailable e g \/
  active (header m) = 0 \/
  available_frames (writeHead (header m)) (readHead (header m)) < k ->
  let r := read_input e g m k buf in
  io_buffer r = silence k /\
  io_shm r = m /\
  io_status r = Some kAudioHardwareNoError.
Proof.
  intros Hw Hr Hk Hlen Hcase. cbv zeta.
  split; [|split; [apply read_input_shm|]].
  - rewrite read_input_unfold. cbv zeta.
    destruct (negb _ && negb _) eqn:Hc;
      [|apply fill_with_silence_buffer; assumption].
    destruct (Z.geb_spec (available_frames (writeHead (header m)) (readHead (header m))) k)
      as [Hge|]; [|apply fill_with_silence_buffer; assumption].
    apply andb_prop in Hc. destruct Hc as [Hc1 Hc2].
    destruct Hcase as [Hu | [Ha | Hlt]].
    + apply after_reopen_unavailable in Hu. rewrite Hu in Hc1. discriminate.
    + rewrite Ha in Hc2. discriminate.
    + lia.
  - destruct (read_input_status e g m k buf) as [Hst | Hfault]; [exact Hst|].
    apply read_input_faults_iff in Hfault. destruct Hfault as (Hh & Ha & Hav).
    destruct Hcase as [Hu | [Ha' | Hlt]].
    + apply after_reopen_unavailable in Hu. contradiction.
    + contradiction.
    + lia.
Qed.


Lemma read_underrun_is_silence_witness :
  let m := shm_with 0 0 0 counting_ring in
  let r := read_input (host_without_app 0) initial_globals m 512 (replicate 1024 7) in
  io_buffer r = silence 512 /\ io_shm r = m /\
  io_status r = Some kAudioHardwareNoError.
Proof.
  apply (read_underrun_is_silence (host_without_app 0) initial_globals
           (shm_with 0 0 0 counting_ring) 512 (replicate 1024 7)).
  - simpl; lia.
  - simpl; lia.
  - lia.
  - reflexivity.
  - left. split; [reflexivity | intros _; left; simpl; lia].
Defined.

(** C2 fails as stated ("every read operation"): for a request of 2^31
    frames the 32-bit product [framesToFill * kRightMic_ChannelCount] wraps
    to 0, [memset] is asked for 0 bytes, and the buffer keeps its contents
    although the writer is inactive. *)
Lemma read_underrun_not_silence_at_2_31 :
  let k := 2 ^ 31 in
  let buf := replicate (Z.to_nat (kRightMic_ChannelCount * k)) 7 in
  let m := shm_with 0 0 0 counting_ring in
  let r := read_input (host_at 0) mapped_globals m k buf in
  active (header m) = 0 /\
  Z.of_nat (length buf) = kRightMic_ChannelCount * k /\
  io_buffer r = buf /\
  buf !! 0%nat = Some 7 /\
  silence k !! 0%nat = Some 0.
Proof.
  cbv zeta.
  remember (replicate (Z.to_nat (kRightMic_ChannelCount * 2 ^ 31)) 7) as buf eqn:Hbuf.
  assert (0 < Z.to_nat (kRightMic_ChannelCount * 2 ^ 31))%nat as Hpos.
  { apply Nat2Z.inj_lt. rewrite Z2Nat.id; unfold kRightMic_ChannelCount; lia. }
  split; [reflexivity|]. split; [|split; [|split]].
  - subst buf. rewrite length_replicate. apply Z2Nat.id.
    unfold kRightMic_ChannelCount. lia.
  - rewrite read_input_unfold. reflexivity.
  - subst buf. apply lookup_replicate_2. exact Hpos.
  - unfold silence. apply lookup_replicate_2. exact Hpos.
Qed.

(* ================================================================= *)
(** ** The copy loop *)

Lemma copy_fuel_S k : 0 <= k ->
  copy_fuel k = S (S (Z.to_nat (k / kRightMic_RingBufferFrames))).
Proof.
  intros Hk. unfold copy_fuel.
  assert (0 <= k / kRightMic_RingBufferFrames)
    by (apply Z.div_pos; unfold kRightMic_RingBufferFrames; lia).
  lia.
Qed.

(** One iteration, with the machine arithmetic resolved: nothing wraps but,
    for requests of 2^31 frames or more, the destination offset. *)
Lemma copy_loop_iter fuel ring rHead k fr out log :
  0 <= rHead < 2 ^ 64 -> 0 <= fr < k -> k < 2 ^ 32 ->
  copy_loop (S fuel) ring rHead k fr out log =
  let idx := (rHead + fr) mod kRightMic_RingBufferFrames in
  let chunk := Z.min (k - fr) (kRightMic_RingBufferFrames - idx) in
  copy_loop fuel ring rHead k (fr + chunk)
    (memcpy out (wrap32 (fr * 2)) ring (2 * idx) (2 * chunk))
    (log ++ [{| dst_offset := wrap32 (fr * 2);
                src_offset := 2 * idx;
                n_bytes := 8 * chunk |}]).
Proof.
  intros Hr Hfr Hk. cbn [copy_loop].
  destruct (Z.ltb_spec fr k) as [_ | ?]; [|lia].
  rewrite wrap64_mod_ring.
  cbv zeta. cbn [dst_offset src_offset n_bytes].
  set (idx := (rHead + fr) mod kRightMic_RingBufferFrames).
  assert (0 <= idx < 16384) as Hidx
    by (apply Z.mod_pos_bound; reflexivity).
  unfold kRightMic_ChannelCount, kRightMic_BytesPerFrame, kRightMic_BitsPerChannel,
    kRightMic_ChannelCount, sizeof_float, kRightMic_RingBufferFrames in *.
  change (2 * (32 / 8)) with 8.
  rewrite (wrap64_small (16384 - idx)) by lia.
  rewrite (wrap32_small (16384 - idx)) by lia.
  rewrite (wrap32_small (k - fr)) by lia.
  replace (if k - fr >? 16384 - idx then 16384 - idx else k - fr)
    with (Z.min (k - fr) (16384 - idx))
    by (destruct (Z.gtb_spec (k - fr) (16384 - idx)); lia).
  set (chunk := Z.min (k - fr) (16384 - idx)).
  assert (0 < chunk <= 16384) as Hchunk by (subst chunk; lia).
  rewrite (wrap64_small (idx * 2)) by lia.
  rewrite (wrap32_small (chunk * 8)) by lia.
  rewrite (wrap32_small (fr + chunk)) by (subst chunk; lia).
  replace (chunk * 8 / 4) with (2 * chunk)
    by (replace (chunk * 8) with (2 * chunk * 4) by lia; now rewrite Z.div_mul).
  replace (idx * 2) with (2 * idx) by lia.
  replace (chunk * 8) with (8 * chunk) by lia.
  reflexivity.
Qed.

(** The loop ends: with fuel for every pass through the ring, the count of
    frames read reaches the request. *)
Lemma copy_loop_reaches fuel ring rHead k : 
  0 <= rHead < 2 ^ 64 -> k < 2 ^ 32 ->
  forall fr out log, 0 <= fr <= k ->
  ((rHead + fr) mod kRightMic_RingBufferFrames + (k - fr)
     + kRightMic_RingBufferFrames - 1) / kRightMic_RingBufferFrames
    <= Z.of_nat fuel ->
  fst (fst (copy_loop fuel ring rHead k fr out log)) = k.
Proof.
  intros Hr Hk. induction fuel as [|fuel IH]; intros fr out log Hfr Hpot.
  - simpl.
    assert (0 <= (rHead + fr) mod kRightMic_RingBufferFrames < 16384)
      by (apply Z.mod_pos_bound; reflexivity).
    unfold kRightMic_RingBufferFrames in *.
    assert (fr < k \/ fr = k) as [Hlt | ->] by lia; [|reflexivity].
    exfalso. revert Hpot.
    generalize ((rHead + fr) mod 16384) H. intros z Hz.
    intros Hpot.
    assert (1 <= (z + (k - fr) + 16384 - 1) / 16384).
    { apply Z.div_le_lower_bound; lia. }
    lia.
  - assert (fr < k \/ fr = k) as [Hlt | ->] by lia;
      [|now rewrite copy_loop_done by lia].
    rewrite copy_loop_iter by lia. cbv zeta.
    set (idx := (rHead + fr) mod kRightMic_RingBufferFrames) in *.
    assert (0 <= idx < 16384) as Hidx by (apply Z.mod_pos_bound; reflexivity).
    destruct (Z.le_gt_cases (k - fr) (kRightMic_RingBufferFrames - idx)) as [Hle | Hgt].
    + rewrite Z.min_l by lia. rewrite copy_loop_done by lia. simpl. lia.
    + rewrite Z.min_r by lia. apply IH.
      * unfold kRightMic_RingBufferFrames in *. lia.
      * unfold kRightMic_RingBufferFrames in *.
        replace (rHead + (fr + (16384 - idx))) with (rHead + fr - idx + 1 * 16384) by lia.
        rewrite Z.mod_add by lia.
        assert ((rHead + fr - idx) mod 16384 = 0) as ->.
        { subst idx. rewrite Zminus_mod, Z.mod_mod, Z.sub_diag by lia. reflexivity. }
        replace (idx + (k - fr) + 16384 - 1)
          with ((0 + (k - (fr + (16384 - idx))) + 16384 - 1) + 1 * 16384) in Hpot by lia.
        rewrite Z.div_add in Hpot by lia. lia.
Qed.

(** Termination of the loop as [DoIOOperation] runs it. *)
Lemma copy_loop_total ring rHead k out :
  0 <= rHead < 2 ^ 64 -> 0 <= k < 2 ^ 32 ->
  fst (fst (copy_loop (copy_fuel k) ring rHead k 0 out [])) = k.
Proof.
  intros Hr Hk. apply copy_loop_reaches; try lia.
  unfold copy_fuel. rewrite Z.add_0_r, Z.sub_0_r.
  assert (0 <= rHead mod kRightMic_RingBufferFrames < 16384)
    by (apply Z.mod_pos_bound; reflexivity).
  unfold kRightMic_RingBufferFrames in *.
  assert (0 <= k / 16384) by (apply Z.div_pos; lia).
  rewrite Z2Nat.id by lia.
  replace (k / 16384 + 2) with ((k + 2 * 16384) / 16384)
    by (rewrite Z.div_add by lia; reflexivity).
  apply Z.div_le_mono; lia.
Qed.

Lemma memcpy_whole (out ring : list Float32) soff n :
  0 <= soff -> 0 <= n ->
  Z.of_nat (length out) = n ->
  memcpy out (wrap32 (0 * 2)) ring soff n =
  take (Z.to_nat n) (drop (Z.to_nat soff) ring).
Proof.
  intros Hs Hn Hlen. unfold memcpy. change (wrap32 (0 * 2)) with 0.
  simpl take. rewrite (drop_ge out) by lia. now rewrite app_nil_r.
Qed.

Lemma ring_frames_no_wrap ring rHead k :
  0 <= k ->
  Z.of_nat (length ring) = kRightMic_RingBufferFrames * kRightMic_ChannelCount ->
  rHead mod kRightMic_RingBufferFrames + k <= kRightMic_RingBufferFrames ->
  ring_frames ring rHead k =
  take (Z.to_nat (2 * k))
       (drop (Z.to_nat (2 * (rHead mod kRightMic_RingBufferFrames))) ring).
Proof.
  intros Hk Hlen Hfit. unfold ring_frames.
  assert (0 <= rHead mod kRightMic_RingBufferFrames < 16384)
    by (apply Z.mod_pos_bound; reflexivity).
  unfold kRightMic_RingBufferFrames, kRightMic_ChannelCount in *.
  rewrite drop_app_le by lia.
  rewrite take_app_le; [reflexivity|].
  rewrite length_drop. lia.
Qed.

Lemma ring_frames_wrap ring rHead k :
  k <= kRightMic_RingBufferFrames ->
  Z.of_nat (length ring) = kRightMic_RingBufferFrames * kRightMic_ChannelCount ->
  kRightMic_RingBufferFrames < rHead mod kRightMic_RingBufferFrames + k ->
  let off := rHead mod kRightMic_RingBufferFrames in
  ring_frames ring rHead k =
  drop (Z.to_nat (2 * off)) ring
  ++ take (Z.to_nat (2 * (k - (kRightMic_RingBufferFrames - off)))) ring.
Proof.
  intros Hk Hlen Hcross off. unfold ring_frames. fold off.
  assert (0 <= off < 16384) by (apply Z.mod_pos_bound; reflexivity).
  unfold kRightMic_RingBufferFrames, kRightMic_ChannelCount in *.
  rewrite drop_app_le by lia.
  rewrite take_app_ge by (rewrite length_drop; lia).
  rewrite length_drop. do 2 f_equal. lia.
Qed.

(** A request of at most one ring: the loop makes one copy when the run
    ends before the end of the data region, two when it crosses it, and the
    buffer then holds the [k] frames of the ring from [rHead] on. *)
Lemma copy_loop_within_ring ring rHead k out :
  0 <= rHead < 2 ^ 64 ->
  0 < k <= kRightMic_RingBufferFrames ->
  Z.of_nat (length out) = kRightMic_ChannelCount * k ->
  Z.of_nat (length ring) = kRightMic_RingBufferFrames * kRightMic_ChannelCount ->
  let off := rHead mod kRightMic_RingBufferFrames in
  copy_loop (copy_fuel k) ring rHead k 0 out [] =
  (k, ring_frames ring rHead k,
   if off + k <=? kRightMic_RingBufferFrames then
     [{| dst_offset := 0; src_offset := 2 * off; n_bytes := 8 * k |}]
   else
     [{| dst_offset := 0; src_offset := 2 * off;
         n_bytes := 8 * (kRightMic_RingBufferFrames - off) |};
      {| dst_offset := 2 * (kRightMic_RingBufferFrames - off); src_offset := 0;
         n_bytes := 8 * (k - (kRightMic_RingBufferFrames - off)) |}]).
Proof.
  intros Hr Hk Hout Hring off.
  assert (0 <= off < 16384) as Hoff by (apply Z.mod_pos_bound; reflexivity).
  rewrite copy_fuel_S by lia.
  rewrite copy_loop_iter by (unfold kRightMic_RingBufferFrames in *; lia).
  cbv zeta. rewrite Z.add_0_r, Z.sub_0_r. fold off.
  destruct (Z.leb_spec (off + k) kRightMic_RingBufferFrames) as [Hfit | Hcross].
  - rewrite Z.min_l by lia.
    rewrite copy_loop_done by lia.
    rewrite memcpy_whole by (unfold kRightMic_ChannelCount in *; lia).
    rewrite ring_frames_no_wrap by (fold off; lia).
    reflexivity.
  - rewrite Z.min_r by lia.
    set (c1 := kRightMic_RingBufferFrames - off).
    assert (0 < c1 < k) as Hc1 by (subst c1; unfold kRightMic_RingBufferFrames in *; lia).
    rewrite copy_loop_iter by (unfold kRightMic_RingBufferFrames in *; lia).
    cbv zeta. rewrite Z.add_0_l.
    assert ((rHead + c1) mod kRightMic_RingBufferFrames = 0) as Hidx.
    { subst c1. unfold kRightMic_RingBufferFrames in *.
      replace (rHead + (16384 - off)) with (rHead - off + 1 * 16384) by lia.
      rewrite Z.mod_add by lia. subst off.
      rewrite Zminus_mod, Z.mod_mod, Z.sub_diag by lia. reflexivity. }
    rewrite Hidx. rewrite Z.sub_0_r.
    rewrite Z.min_l by (unfold kRightMic_RingBufferFrames in *; lia).
    rewrite copy_loop_done by lia.
    rewrite (wrap32_small (c1 * 2)) by (subst c1; unfold kRightMic_RingBufferFrames in *; lia).
    rewrite ring_frames_wrap by (fold off; unfold kRightMic_RingBufferFrames in *; lia).
    cbv zeta. fold off. fold c1.
    f_equal; [f_equal; [lia|] |].
    + unfold memcpy. change (wrap32 (0 * 2)) with 0. simpl (take (Z.to_nat 0) out).
      rewrite app_nil_l.
      unfold kRightMic_RingBufferFrames, kRightMic_ChannelCount in *.
      rewrite (take_ge (drop _ ring)) by (rewrite length_drop; lia).
      rewrite take_app_length' by (rewrite length_drop; lia).
      rewrite (drop_ge (_ ++ _)) by (rewrite length_app, length_drop, length_drop; lia).
      rewrite app_nil_r. simpl (drop (Z.to_nat (2 * 0)) ring).
      reflexivity.
    + simpl. replace (c1 * 2) with (2 * c1) by lia. reflexivity.
Qed.

(* ================================================================= *)
(** ** Frames and samples *)

Lemma length_samples_of fs : length (samples_of fs) = (2 * length fs)%nat.
Proof. induction fs as [|f fs IH]; simpl; [reflexivity | rewrite IH; lia]. Qed.

Lemma samples_of_app fs gs : samples_of (fs ++ gs) = samples_of fs ++ samples_of gs.
Proof. unfold samples_of. apply flat_map_app. Qed.

Lemma samples_of_lookup_even fs j :
  samples_of fs !! (2 * j)%nat = fst <$> fs !! j.
Proof.
  revert j. induction fs as [|f fs IH]; intros j; [reflexivity|].
  destruct j as [|j]; [reflexivity|].
  replace (2 * S j)%nat with (S (S (2 * j))) by lia. simpl. apply IH.
Qed.

Lemma samples_of_lookup_odd fs j :
  samples_of fs !! S (2 * j) = snd <$> fs !! j.
Proof.
  revert j. induction fs as [|f fs IH]; intros j; [reflexivity|].
  destruct j as [|j]; [reflexivity|].
  replace (2 * S j)%nat with (S (S (2 * j))) by lia. simpl. apply IH.
Qed.

(** Sample [2 a + c] of the data region is channel [c] of frame slot [a]. *)
Lemma sample_index_mod a c :
  0 <= c < 2 ->
  (2 * a + c) mod (2 * kRightMic_RingBufferFrames)
  = 2 * (a mod kRightMic_RingBufferFrames) + c.
Proof.
  intros Hc. unfold kRightMic_RingBufferFrames.
  Z.div_mod_to_equations. lia.
Qed.

Lemma slot_add_mod rHead j :
  (rHead mod kRightMic_RingBufferFrames + j) mod kRightMic_RingBufferFrames
  = (rHead + j) mod kRightMic_RingBufferFrames.
Proof.
  rewrite Z.add_mod_idemp_l; [reflexivity | discriminate].
Qed.

(** Distinct positions less than one ring apart lie in distinct slots. *)
Lemma slots_distinct p q :
  0 < q - p < kRightMic_RingBufferFrames ->
  p mod kRightMic_RingBufferFrames <> q mod kRightMic_RingBufferFrames.
Proof.
  unfold kRightMic_RingBufferFrames. intros H.
  Z.div_mod_to_equations. lia.
Qed.

(** Channel [c] of the [j]-th frame delivered by [ring_frames] is the
    sample in the slot of position [rHead + j]. *)
Lemma ring_frames_lookup ring rHead k j c :
  Z.of_nat (length ring) = kRightMic_RingBufferFrames * kRightMic_ChannelCount ->
  0 <= j < k -> k <= kRightMic_RingBufferFrames -> 0 <= c < 2 ->
  ring_frames ring rHead k !! Z.to_nat (2 * j + c)
  = ring !! Z.to_nat (2 * ((rHead + j) mod kRightMic_RingBufferFrames) + c).
Proof.
  intros Hlen Hj Hk Hc. unfold ring_frames.
  assert (0 <= rHead mod kRightMic_RingBufferFrames < 16384) as Hoff
    by (apply Z.mod_pos_bound; reflexivity).
  rewrite <- slot_add_mod, <- sample_index_mod by assumption.
  set (off := rHead mod kRightMic_RingBufferFrames) in *.
  unfold kRightMic_RingBufferFrames, kRightMic_ChannelCount in *.
  rewrite lookup_take_lt by lia.
  rewrite lookup_drop.
  replace (Z.to_nat (2 * off) + Z.to_nat (2 * j + c))%nat
    with (Z.to_nat (2 * (off + j) + c)) by lia.
  destruct (Z.lt_ge_cases (2 * (off + j) + c) (2 * 16384)) as [Hlt | Hge].
  - rewrite lookup_app_l by lia. rewrite Z.mod_small by lia. reflexivity.
  - rewrite lookup_app_r by lia.
    replace ((2 * (off + j) + c) mod (2 * 16384)) with (2 * (off + j) + c - 2 * 16384)
      by (Z.div_mod_to_equations; lia).
    f_equal. lia.
Qed.

Lemma length_ring_frames ring rHead k :
  Z.of_nat (length ring) = kRightMic_RingBufferFrames * kRightMic_ChannelCount ->
  0 <= k <= kRightMic_RingBufferFrames ->
  length (ring_frames ring rHead k) = Z.to_nat (2 * k).
Proof.
  intros Hlen Hk. unfold ring_frames.
  assert (0 <= rHead mod kRightMic_RingBufferFrames < 16384)
    by (apply Z.mod_pos_bound; reflexivity).
  unfold kRightMic_RingBufferFrames, kRightMic_ChannelCount in *.
  rewrite length_take, length_drop, length_app. lia.
Qed.

(** When the ring holds the writer's stream, the [k] frames from [readHead]
    on are frames [readHead - h0 ..] of the stream. *)
Lemma ring_frames_stream h0 stream m k :
  ring_holds h0 stream m ->
  0 <= k <= writeHead (header m) - readHead (header m) ->
  ring_frames (ringData m) (readHead (header m)) k =
  samples_of (take (Z.to_nat k) (drop (Z.to_nat (readHead (header m) - h0)) stream)).
Proof.
  intros ((Hlen & Hw & Hr) & Hh0 & Hwh & Hrh & Hcap & Hslots) Hk.
  set (rh := readHead (header m)) in *. set (wh := writeHead (header m)) in *.
  assert (length (take (Z.to_nat k) (drop (Z.to_nat (rh - h0)) stream)) = Z.to_nat k)
    as Hlen_fs by (rewrite length_take, length_drop; lia).
  apply list_eq. intros i.
  destruct (Nat.lt_ge_cases i (Z.to_nat (2 * k))) as [Hi | Hi].
  2:{ rewrite !lookup_ge_None_2; [reflexivity | |].
      - rewrite length_samples_of, Hlen_fs. lia.
      - rewrite length_ring_frames by (try assumption; lia). lia. }
  assert (exists j c, i = Z.to_nat (2 * j + c) /\ 0 <= j < k /\ 0 <= c < 2)
    as (j & c & -> & Hj & Hc).
  { exists (Z.of_nat i / 2), (Z.of_nat i mod 2). 
    split; [|split]; Z.div_mod_to_equations; lia. }
  rewrite ring_frames_lookup by (try assumption; lia).
  destruct (Hslots (rh + j)) as (f & Hf & Hf1 & Hf2); [lia|].
  assert (take (Z.to_nat k) (drop (Z.to_nat (rh - h0)) stream) !! Z.to_nat j = Some f)
    as Hfs.
  { rewrite lookup_take_lt by lia. rewrite lookup_drop. rewrite <- Hf. f_equal. lia. }
  assert (c = 0 \/ c = 1) as [-> | ->] by lia.
  - rewrite !Z.add_0_r, Hf1.
    replace (Z.to_nat (2 * j)) with (2 * Z.to_nat j)%nat by lia.
    rewrite samples_of_lookup_even, Hfs. reflexivity.
  - replace (Z.to_nat (2 * ((rh + j) mod kRightMic_RingBufferFrames) + 1))
      with (S (Z.to_nat (2 * ((rh + j) mod kRightMic_RingBufferFrames)))).
    2:{ assert (0 <= (rh + j) mod kRightMic_RingBufferFrames)
          by (apply Z.mod_pos_bound; reflexivity). lia. }
    rewrite Hf2.
    replace (Z.to_nat (2 * j + 1)) with (S (2 * Z.to_nat j))%nat by lia.
    rewrite samples_of_lookup_odd, Hfs. reflexivity.
Qed.

(* ================================================================= *)
(** ** A read that finds its frames *)

(** The data branch for a request of at most one ring: the frames are
    copied, and the call does not return from the store that follows. *)
Lemma read_input_data e g m k buf :
  mapped (after_reopen e g) ->
  active (header m) <> 0 ->
  well_formed_shm m ->
  0 <= k <= kRightMic_RingBufferFrames ->
  k <= writeHead (header m) - readHead (header m) ->
  Z.of_nat (length buf) = kRightMic_ChannelCount * k ->
  read_input e g m k buf =
  {| io_status := None;
     io_globals := after_reopen e g;
     io_shm := m;
     io_buffer := ring_frames (ringData m) (readHead (header m)) k;
     io_copies := split_copies (readHead (header m)) k |}.
Proof.
  intros (_ & Hhdr & _) Hact (Hlen & Hw & Hr) Hk Hav Hbuf.
  rewrite read_input_unfold. cbv zeta. rewrite Hhdr.
  destruct (Z.eqb_spec (active (header m)) 0) as [? | _]; [contradiction|].
  simpl andb. cbv iota.
  rewrite available_frames_spec by assumption.
  destruct (Z.geb_spec (Z.max 0 (writeHead (header m) - readHead (header m))) k)
    as [_ | ?]; [|lia].
  unfold split_copies.
  destruct (Z.eqb_spec k 0) as [-> | Hk0].
  - rewrite copy_loop_done by lia. simpl.
    destruct buf; [reflexivity | simpl in Hbuf; lia].
  - rewrite copy_loop_within_ring by (try assumption; lia). reflexivity.
Qed.

(** C3. A read that finds its [k >= 1] frames in a ring that holds the
    writer's stream: when the run from [readHead mod N] crosses the end of
    the data region the loop makes exactly two copies, from
    [readHead mod N] to the end and the remainder from offset 0; otherwise
    exactly one. The copies put into the buffer the ring's frames from
    [readHead] on, which are frames [readHead .. readHead + k - 1] of the
    writer's stream. *)
Theorem read_splits_at_ring_end e g m k buf h0 stream :
  mapped (after_reopen e g) ->
  active (header m) <> 0 ->
  ring_holds h0 stream m ->
  1 <= k <= writeHead (header m) - readHead (header m) ->
  Z.of_nat (length buf) = kRightMic_ChannelCount * k ->
  let r := read_input e g m k buf in
  let rHead := readHead (header m) in
  let off := rHead mod kRightMic_RingBufferFrames in
  (kRightMic_RingBufferFrames < off + k ->
   io_copies r =
   [{| dst_offset := 0; src_offset := 2 * off;
       n_bytes := 8 * (kRightMic_RingBufferFrames - off) |};
    {| dst_offset := 2 * (kRightMic_RingBufferFrames - off); src_offset := 0;
       n_bytes := 8 * (k - (kRightMic_RingBufferFrames - off)) |}]) /\
  (off + k <= kRightMic_RingBufferFrames ->
   io_copies r = [{| dst_offset := 0; src_offset := 2 * off; n_bytes := 8 * k |}]) /\
  io_buffer r = ring_frames (ringData m) rHead k /\
  io_buffer r = samples_of (take (Z.to_nat k) (drop (Z.to_nat (rHead - h0)) stream)).
Proof.
  intros Hmap Hact Hring Hk Hbuf. cbv zeta.
  pose proof Hring as (Hwf & _ & _ & _ & Hcap & _).
  rewrite read_input_data by (try assumption; lia). simpl.
  unfold split_copies.
  destruct (Z.eqb_spec k 0) as [? | _]; [lia|].
  destruct (Z.leb_spec (readHead (header m) mod kRightMic_RingBufferFrames + k)
                       kRightMic_RingBufferFrames).
  - repeat split; try reflexivity; try lia.
    apply ring_frames_stream; [assumption | lia].
  - repeat split; try reflexivity; try lia.
    apply ring_frames_stream; [assumption | lia].
Qed.

(* ================================================================= *)
(** ** The writer *)

Lemma slot_bound pos :
  Z.of_nat (slot pos) + 1 < kRightMic_RingBufferFrames * kRightMic_ChannelCount.
Proof.
  unfold slot, kRightMic_ChannelCount, kRightMic_RingBufferFrames at 2.
  assert (0 <= pos mod kRightMic_RingBufferFrames < 16384)
    by (apply Z.mod_pos_bound; reflexivity).
  lia.
Qed.

Lemma slot_spec pos : slot pos = Z.to_nat (2 * (pos mod kRightMic_RingBufferFrames)).
Proof. reflexivity. Qed.

Lemma slots_apart p q :
  0 < q - p < kRightMic_RingBufferFrames ->
  slot p <> slot q /\ slot p <> S (slot q) /\ S (slot p) <> slot q.
Proof.
  intros H. pose proof (slots_distinct p q H) as Hd.
  unfold slot, kRightMic_ChannelCount.
  assert (0 <= p mod kRightMic_RingBufferFrames < 16384)
    by (apply Z.mod_pos_bound; reflexivity).
  assert (0 <= q mod kRightMic_RingBufferFrames < 16384)
    by (apply Z.mod_pos_bound; reflexivity).
  lia.
Qed.

Lemma length_writer_store_frame pos f data :
  length (writer_store_frame pos f data) = length data.
Proof. unfold writer_store_frame. now rewrite !length_insert. Qed.

Lemma length_writer_copy fs : forall pos data,
  length (writer_copy pos fs data) = length data.
Proof.
  induction fs as [|f fs IH]; intros pos data; simpl; [reflexivity|].
  now rewrite IH, length_writer_store_frame.
Qed.

Lemma writer_store_frame_other pos f data j :
  j <> slot pos -> j <> S (slot pos) ->
  writer_store_frame pos f data !! j = data !! j.
Proof.
  intros H1 H2. unfold writer_store_frame. fold (slot pos).
  rewrite !list_lookup_insert_ne by congruence. reflexivity.
Qed.

Lemma writer_store_frame_here pos f data :
  Z.of_nat (length data) = kRightMic_RingBufferFrames * kRightMic_ChannelCount ->
  writer_store_frame pos f data !! slot pos = Some (fst f) /\
  writer_store_frame pos f data !! S (slot pos) = Some (snd f).
Proof.
  intros Hlen. unfold writer_store_frame. fold (slot pos).
  pose proof (slot_bound pos).
  split.
  - rewrite list_lookup_insert_ne by lia.
    apply list_lookup_insert_eq. lia.
  - apply list_lookup_insert_eq. rewrite length_insert. lia.
Qed.

(** The copy leaves every slot but those of the new frames alone. *)
Lemma writer_copy_other fs : forall pos data j,
  (forall i, (i < length fs)%nat ->
     j <> slot (pos + Z.of_nat i) /\ j <> S (slot (pos + Z.of_nat i))) ->
  writer_copy pos fs data !! j = data !! j.
Proof.
  induction fs as [|f fs IH]; intros pos data j Hj; simpl; [reflexivity|].
  rewrite IH.
  - apply writer_store_frame_other.
    + specialize (Hj 0%nat). rewrite Z.add_0_r in Hj. apply Hj. simpl. lia.
    + specialize (Hj 0%nat). rewrite Z.add_0_r in Hj. apply Hj. simpl. lia.
  - intros i Hi. specialize (Hj (S i)).
    replace (pos + 1 + Z.of_nat i) with (pos + Z.of_nat (S i)) by lia.
    apply Hj. simpl. lia.
Qed.

(** The copy puts frame [i] of a run of at most [N] frames in the slot of
    position [pos + i]. *)
Lemma writer_copy_frame fs : forall pos data i f,
  Z.of_nat (length data) = kRightMic_RingBufferFrames * kRightMic_ChannelCount ->
  Z.of_nat (length fs) <= kRightMic_RingBufferFrames ->
  fs !! i = Some f ->
  writer_copy pos fs data !! slot (pos + Z.of_nat i) = Some (fst f) /\
  writer_copy pos fs data !! S (slot (pos + Z.of_nat i)) = Some (snd f).
Proof.
  induction fs as [|g fs IH]; intros pos data i f Hlen Hn Hi; [discriminate|].
  simpl in Hn. destruct i as [|i]; simpl in Hi.
  - injection Hi as ->. simpl writer_copy. rewrite Z.add_0_r.
    rewrite !writer_copy_other.
    + apply writer_store_frame_here. assumption.
    + intros i Hi. 
      destruct (slots_apart pos (pos + 1 + Z.of_nat i)) as (? & ? & ?); [lia|].
      split; congruence.
    + intros i Hi. 
      destruct (slots_apart pos (pos + 1 + Z.of_nat i)) as (? & ? & ?); [lia|].
      split; congruence.
  - simpl writer_copy.
    replace (pos + Z.of_nat (S i)) with (pos + 1 + Z.of_nat i) by lia.
    apply IH; [|lia|assumption].
    rewrite length_writer_store_frame. assumption.
Qed.

(** A publish within capacity keeps the ring holding the stream. *)
Lemma writer_publish_holds h0 stream fs m :
  ring_holds h0 stream m ->
  within_capacity fs m ->
  writeHead (header m) + Z.of_nat (length fs) < 2 ^ 64 ->
  ring_holds h0 (stream ++ fs) (writer_publish fs m).
Proof.
  intros ((Hlen & Hw & Hr) & Hh0 & Hwh & Hrh & Hcap & Hslots) Hfit Hno.
  unfold within_capacity in Hfit.
  unfold ring_holds, well_formed_shm, writer_publish. simpl.
  rewrite wrap64_small by lia.
  rewrite length_writer_copy, length_app.
  repeat split; try assumption; try lia.
  intros p Hp.
  destruct (Z.lt_ge_cases p (writeHead (header m))) as [Hold | Hnew].
  - destruct (Hslots p) as (f & Hf & Hf1 & Hf2); [lia|].
    exists f. split; [|split].
    + rewrite lookup_app_l; [exact Hf|]. lia.
    + rewrite <- Hf1. apply writer_copy_other. intros i Hi.
      destruct (slots_apart p (writeHead (header m) + Z.of_nat i)) as (? & ? & ?);
        [lia|].
      rewrite <- slot_spec. split; congruence.
    + rewrite <- Hf2. apply writer_copy_other. intros i Hi.
      destruct (slots_apart p (writeHead (header m) + Z.of_nat i)) as (? & ? & ?);
        [lia|].
      rewrite <- slot_spec. split; congruence.
  - destruct (lookup_lt_is_Some_2 fs (Z.to_nat (p - writeHead (header m)))) as [f Hf];
      [lia|].
    exists f.
    replace p with (writeHead (header m) + Z.of_nat (Z.to_nat (p - writeHead (header m))))
      at 2 3 by lia.
    rewrite <- !slot_spec.
    split; [|apply writer_copy_frame; [assumption | lia | assumption]].
    rewrite lookup_app_r by lia. rewrite <- Hf. f_equal. lia.
Qed.

(** Nothing is outstanding while both counters are equal. *)
Lemma ring_holds_empty m :
  well_formed_shm m ->
  readHead (header m) = writeHead (header m) ->
  ring_holds (writeHead (header m)) [] m.
Proof.
  intros (Hlen & Hw & Hr) Heq.
  unfold ring_holds, well_formed_shm. repeat split; try assumption; try lia.
  - cbn [length]. lia.
  - unfold kRightMic_RingBufferFrames. lia.
Qed.

Lemma example_wrapped_holds : ring_holds 16000 example_stream example_wrapped.
Proof.
  unfold example_wrapped.
  apply (writer_publish_holds 16000 [] example_stream
           (shm_with 16000 16000 1 counting_ring)).
  - apply (ring_holds_empty (shm_with 16000 16000 1 counting_ring)).
    + split; [vm_compute; reflexivity | vm_compute; intuition discriminate].
    + reflexivity.
  - vm_compute. discriminate.
  - vm_compute. reflexivity.
Qed.

(** The example of the specification: capacity 16384, a request of 512
    frames at offset 16000: 384 frames (3072 bytes) up to the end of the
    data region, then 128 frames (1024 bytes) from its start; and the
    buffer holds the 512 frames the writer published there. *)
Lemma read_splits_at_ring_end_witness :
  let r := read_input (host_at 0) mapped_globals example_wrapped 512
             (replicate 1024 7) in
  io_copies r =
  [{| dst_offset := 0; src_offset := 2 * 16000; n_bytes := 8 * 384 |};
   {| dst_offset := 2 * 384; src_offset := 0; n_bytes := 8 * 128 |}] /\
  io_buffer r =
  samples_of (take (Z.to_nat 512)
                   (drop (Z.to_nat (readHead (header example_wrapped) - 16000))
                         example_stream)) /\
  samples_of (take (Z.to_nat 512)
                   (drop (Z.to_nat (readHead (header example_wrapped) - 16000))
                         example_stream))
  = samples_of example_stream.
Proof.
  cbv zeta.
  destruct (read_splits_at_ring_end (host_at 0) mapped_globals example_wrapped 512
              (replicate 1024 7) 16000 example_stream)
    as (Htwo & _ & _ & Hstream).
  - vm_compute. auto.
  - discriminate.
  - exact example_wrapped_holds.
  - vm_compute. intuition discriminate.
  - vm_compute. reflexivity.
  - split; [|split].
    + rewrite Htwo.
      * reflexivity.
      * vm_compute. reflexivity.
    + exact Hstream.
    + vm_compute. reflexivity.
Defined.

(* ================================================================= *)
(** ** Sessions *)

Lemma published_Publish fs evs : published (Publish fs :: evs) = fs ++ published evs.
Proof. reflexivity. Qed.

Lemma session_Publish e fs evs g m :
  session e (Publish fs :: evs) g m = session e evs g (writer_publish fs m).
Proof. reflexivity. Qed.

(** A read that does not return ends the session. *)
Lemma session_Read_faults e k buf evs g m :
  io_status (read_input e g m k buf) = None ->
  session e (Read k buf :: evs) g m = [read_input e g m k buf].
Proof. intros H. cbn [session]. cbv zeta. rewrite H. reflexivity. Qed.

Lemma writer_publish_heads fs m :
  0 <= writeHead (header m) ->
  writeHead (header m) + Z.of_nat (length fs) < 2 ^ 64 ->
  writeHead (header (writer_publish fs m)) = writeHead (header m) + Z.of_nat (length fs) /\
  readHead (header (writer_publish fs m)) = readHead (header m) /\
  active (header (writer_publish fs m)) = active (header m).
Proof.
  intros. unfold writer_publish. simpl. rewrite wrap64_small by lia. auto.
Qed.

Lemma session_publishes e pubs : forall evs g m,
  session e (map Publish pubs ++ evs) g m = session e evs g (publish_all pubs m).
Proof.
  induction pubs as [|fs pubs IH]; intros evs g m; [reflexivity|].
  cbn [map app]. rewrite session_Publish. apply IH.
Qed.

Lemma published_publishes pubs : published (map Publish pubs) = concat pubs.
Proof.
  induction pubs as [|fs pubs IH]; [reflexivity|].
  cbn [map concat]. rewrite published_Publish, IH. reflexivity.
Qed.

Lemma publish_all_heads pubs : forall m,
  0 <= writeHead (header m) ->
  writeHead (header m) + Z.of_nat (length (concat pubs)) < 2 ^ 64 ->
  writeHead (header (publish_all pubs m))
    = writeHead (header m) + Z.of_nat (length (concat pubs)) /\
  readHead (header (publish_all pubs m)) = readHead (header m) /\
  active (header (publish_all pubs m)) = active (header m).
Proof.
  induction pubs as [|fs pubs IH]; intros m Hw Hno.
  - cbn [publish_all fold_left concat length]. repeat split. lia.
  - cbn [concat] in *. rewrite length_app in Hno.
    destruct (writer_publish_heads fs m) as (Ew & Er & Ea); [lia | lia |].
    change (publish_all (fs :: pubs) m) with (publish_all pubs (writer_publish fs m)).
    destruct (IH (writer_publish fs m)) as (Ew' & Er' & Ea'); [lia | lia |].
    rewrite Ew', Er', Ea', Ew, Er, Ea, length_app. repeat split. lia.
Qed.

Lemma published_app evs evs' : published (evs ++ evs') = published evs ++ published evs'.
Proof. unfold published. apply flat_map_app. Qed.

Lemma published_reads (reads : list (Z * list Float32)) :
  published (map (fun r => Read (fst r) (snd r)) reads) = [].
Proof. induction reads as [|r reads IH]; simpl; [reflexivity | exact IH]. Qed.

(** C1 does not hold of the driver. The writer publishes, then the host
    reads, and the frames written are at least the frames of the first
    request: the read finds its frames, copies them, and does not return
    from the store of [readHead], which goes through the read-only mapping.
    The session ends with that call: no read returns, no frame is
    delivered to the host, and [readHead] stands where it stood. *)
Theorem first_read_of_written_frames_does_not_return e g m pubs k buf reads :
  let evs := publishes_then_reads pubs ((k, buf) :: reads) in
  mapped (after_reopen e g) ->
  active (header m) <> 0 ->
  well_formed_shm m ->
  readHead (header m) = writeHead (header m) ->
  writeHead (header m) + Z.of_nat (length (published evs)) < 2 ^ 64 ->
  0 <= k <= Z.of_nat (length (published evs)) ->
  exists r,
    session e evs g m = [r] /\
    io_status r = None /\
    io_shm r = publish_all pubs m /\
    readHead (header (io_shm r)) = readHead (header m).
Proof.
  intros evs Hmap Hact (Hlen & Hw & Hr) Heq Hno Hk. subst evs.
  unfold publishes_then_reads in *.
  rewrite published_app, published_reads, app_nil_r, published_publishes in *.
  destruct (publish_all_heads pubs m) as (Ew & Er & Ea); [lia | lia |].
  rewrite session_publishes. cbn [map fst snd].
  assert (Hfault : io_status (read_input e g (publish_all pubs m) k buf) = None).
  { apply read_input_faults_iff. destruct Hmap as (_ & Hhdr & _).
    rewrite Hhdr, Ea, Ew, Er. split; [discriminate|]. split; [assumption|].
    rewrite available_frames_spec by lia. lia. }
  exists (read_input e g (publish_all pubs m) k buf).
  rewrite session_Read_faults by exact Hfault.
  rewrite read_input_shm. auto.
Qed.

(** The session of the example: the writer publishes twice three frames,
    the host asks for four frames and then for two. Only the first read is
    made, and it does not return. *)
Lemma first_read_of_written_frames_does_not_return_witness :
  exists r,
    session (host_at 0)
            (publishes_then_reads example_pubs ((4, replicate 8 0) :: [(2, replicate 4 0)]))
            mapped_globals (shm_with 16380 16380 1 counting_ring) = [r] /\
    io_status r = None /\
    io_shm r = publish_all example_pubs (shm_with 16380 16380 1 counting_ring) /\
    readHead (header (io_shm r))
      = readHead (header (shm_with 16380 16380 1 counting_ring)).
Proof.
  apply (first_read_of_written_frames_does_not_return (host_at 0) mapped_globals
           (shm_with 16380 16380 1 counting_ring) example_pubs 4 (replicate 8 0)
           [(2, replicate 4 0)]).
  - vm_compute. auto.
  - discriminate.
  - split; [vm_compute; reflexivity | vm_compute; intuition discriminate].
  - reflexivity.
  - vm_compute. reflexivity.
  - vm_compute. intuition discriminate.
Defined.

(* ================================================================= *)
(** ** IEEE-754 binary64: the facts the clock needs

    [SpecFloat] gives the operations; what follows relates their results to
    the numbers they stand for. A positive finite value [m * 2^e] is compared
    with integers after scaling by [2^1100], which makes every quantity an
    integer. *)

Lemma Zdigits2_log2 m : 0 < m -> Zdigits2 m = Z.log2 m + 1.
Proof.
  destruct m as [|p|p]; try lia. intros _. simpl.
  destruct p as [p|p|]; simpl; try reflexivity.
  - induction p; simpl; lia.
  - induction p; simpl; lia.
Qed.

Lemma Zdigits2_bounds m :
  0 < m -> 2 ^ (Zdigits2 m - 1) <= m < 2 ^ Zdigits2 m.
Proof.
  intros Hm. rewrite Zdigits2_log2 by assumption.
  replace (Z.log2 m + 1 - 1) with (Z.log2 m) by lia.
  apply Z.log2_spec. assumption.
Qed.

Lemma Zdigits2_pos m : 0 < m -> 0 < Zdigits2 m.
Proof.
  intros Hm. rewrite Zdigits2_log2 by assumption.
  pose proof (Z.log2_nonneg m). lia.
Qed.

(** [m < 2^k] bounds the number of digits by [k], and [2^k <= m] from below. *)
Lemma Zdigits2_le m k : 0 < m -> m < 2 ^ k -> Zdigits2 m <= k.
Proof.
  intros Hm Hlt. rewrite Zdigits2_log2 by assumption.
  assert (0 <= k).
  { destruct (Z.le_gt_cases 0 k); [assumption|].
    rewrite Z.pow_neg_r in Hlt by lia. lia. }
  apply Z.log2_lt_pow2 in Hlt; lia.
Qed.

Lemma Zdigits2_gt m k : 0 <= k -> 2 ^ k <= m -> k < Zdigits2 m.
Proof.
  intros Hk Hle.
  assert (0 < m) by (pose proof (Z.pow_pos_nonneg 2 k); lia).
  rewrite Zdigits2_log2 by assumption.
  apply Z.log2_le_pow2 in Hle; lia.
Qed.

Lemma shr_1_div2 mrs : 0 <= shr_m mrs -> shr_m (shr_1 mrs) = shr_m mrs / 2.
Proof.
  destruct mrs as [m r s]. simpl. intros Hm.
  rewrite <- Z.div2_div.
  destruct m as [|[p|p|]|p]; try reflexivity. lia.
Qed.

Lemma iter_shr_1 p : forall mrs, 0 <= shr_m mrs ->
  shr_m (SpecFloat.iter_pos shr_1 p mrs) = shr_m mrs / 2 ^ Z.pos p.
Proof.
  induction p as [p IH | p IH |]; intros mrs Hm; cbn [SpecFloat.iter_pos].
  - assert (0 <= shr_m (shr_1 mrs))
      by (rewrite shr_1_div2 by assumption; apply Z.div_pos; lia).
    assert (0 <= shr_m (SpecFloat.iter_pos shr_1 p (shr_1 mrs)))
      by (rewrite IH by assumption; apply Z.div_pos; [assumption | lia]).
    rewrite IH, IH, shr_1_div2 by assumption.
    rewrite !Z.div_div by lia.
    f_equal. change (Z.pos p~1) with (2 * Z.pos p + 1).
    replace (2 * Z.pos p + 1) with (1 + Z.pos p + Z.pos p) by lia.
    rewrite !Z.pow_add_r by lia. lia.
  - assert (0 <= shr_m (SpecFloat.iter_pos shr_1 p mrs))
      by (rewrite IH by assumption; apply Z.div_pos; [assumption | lia]).
    rewrite IH, IH by assumption.
    rewrite !Z.div_div by lia.
    f_equal. change (Z.pos p~0) with (2 * Z.pos p).
    replace (2 * Z.pos p) with (Z.pos p + Z.pos p) by lia.
    rewrite !Z.pow_add_r by lia. lia.
  - apply shr_1_div2. assumption.
Qed.

Lemma shr_m_of_loc m l : shr_m (shr_record_of_loc m l) = m.
Proof. destruct l as [|[]]; reflexivity. Qed.

(** [shr_fexp] on a value away from the subnormal range: the mantissa is cut
    down to 53 digits. *)
Lemma shr_fexp_spec m e l :
  0 < m -> -1000 <= e ->
  let s := Z.max 0 (Zdigits2 m - 53) in
  exists mrs, shr_fexp 53 1024 m e l = (mrs, e + s) /\ shr_m mrs = m / 2 ^ s.
Proof.
  intros Hm He s. unfold shr_fexp, shr, fexp, emin.
  pose proof (Zdigits2_pos m Hm) as Hd.
  replace (Z.max (Zdigits2 m + e - 53) (3 - 1024 - 53) - e) with (Zdigits2 m - 53) by lia.
  subst s.
  destruct (Zdigits2 m - 53) as [|p|p] eqn:Hs.
  - change (Z.max 0 0) with 0. rewrite Z.add_0_r.
    eexists. split; [reflexivity|].
    rewrite shr_m_of_loc. simpl. now rewrite Z.div_1_r.
  - change (Z.max 0 (Z.pos p)) with (Z.pos p).
    eexists. split; [reflexivity|].
    rewrite iter_shr_1 by (rewrite shr_m_of_loc; lia).
    now rewrite shr_m_of_loc.
  - change (Z.max 0 (Z.neg p)) with 0. rewrite Z.add_0_r.
    eexists. split; [reflexivity|].
    rewrite shr_m_of_loc. simpl. now rewrite Z.div_1_r.
Qed.

Lemma round_nearest_even_bounds m l :
  m <= round_nearest_even m l <= m + 1.
Proof.
  unfold round_nearest_even. destruct l as [|[]]; try lia.
  destruct (Z.even m); lia.
Qed.

Lemma pow2_pos k : 0 < 2 ^ k \/ k < 0.
Proof.
  destruct (Z.le_gt_cases 0 k); [left; now apply Z.pow_pos_nonneg | right; lia].
Qed.

Lemma pow2_gt_0 k : 0 <= k -> 0 < 2 ^ k.
Proof. intros. now apply Z.pow_pos_nonneg. Qed.

Lemma pow2_le a b : 0 <= a <= b -> 2 ^ a <= 2 ^ b.
Proof. intros. apply Z.pow_le_mono_r; lia. Qed.

(** Cutting a mantissa down to 53 digits keeps the value above every
    integer below 2^53 that it was above. *)
Lemma round_down_dominates mx K s B :
  0 < mx -> 0 <= K -> 0 <= s ->
  (0 < s -> 2 ^ 52 <= mx / 2 ^ s) ->
  0 < B < 2 ^ 53 ->
  B * 2 ^ 1100 <= mx * 2 ^ K ->
  B * 2 ^ 1100 <= mx / 2 ^ s * 2 ^ (K + s).
Proof.
  intros Hmx HK Hs Hbig HB Hle.
  destruct (Z.eq_dec s 0) as [-> | Hs0].
  - rewrite Z.pow_0_r, Z.div_1_r, Z.add_0_r. exact Hle.
  - specialize (Hbig ltac:(lia)).
    pose proof (pow2_gt_0 K HK) as HpK.
    pose proof (pow2_gt_0 s Hs) as Hps.
    destruct (Z.le_gt_cases 1101 (K + s)) as [Hhigh | Hlow].
    + pose proof (pow2_le 1101 (K + s) ltac:(lia)) as Hp.
      replace (2 ^ 1101) with (2 * 2 ^ 1100) in Hp by reflexivity.
      pose proof (pow2_gt_0 1100 ltac:(lia)) as H1100.
      transitivity (2 ^ 52 * (2 * 2 ^ 1100)); [nia|].
      apply Z.mul_le_mono_nonneg; lia.
    + set (t := 1100 - K - s).
      assert (0 <= t) as Ht by (subst t; lia).
      pose proof (pow2_gt_0 t Ht) as Hpt.
      assert (2 ^ 1100 = 2 ^ K * 2 ^ s * 2 ^ t) as E.
      { rewrite <- !Z.pow_add_r by lia. f_equal. subst t. lia. }
      rewrite E in Hle |- *.
      assert (B * 2 ^ t * 2 ^ s <= mx) as Hq by nia.
      assert (B * 2 ^ t <= mx / 2 ^ s) as Hq'
        by (apply Z.div_le_lower_bound; lia).
      rewrite Z.pow_add_r by lia. nia.
Qed.

(** Rounding to nearest (the core of every operation), for a positive
    value well inside the normal range: the result is finite and positive,
    it stays above every integer below 2^53 that the exact value was above,
    and it has at most one binary digit more before the point. *)
Lemma binary_round_aux_lower mx ex lx B :
  0 < mx < 2 ^ 192 -> -1000 <= ex <= 800 ->
  0 < B < 2 ^ 53 ->
  B * 2 ^ 1100 <= mx * 2 ^ (ex + 1100) ->
  exists m e,
    binary_round_aux 53 1024 false mx ex lx = S754_finite false m e /\
    B * 2 ^ 1100 <= Z.pos m * 2 ^ (e + 1100) /\
    ex <= e /\
    Zdigits2 (Z.pos m) + e <= Zdigits2 mx + ex + 1 /\
    Zdigits2 (Z.pos m) <= 53.
Proof.
  intros Hmx Hex HB Hle. unfold binary_round_aux.
  destruct (shr_fexp_spec mx ex lx) as (mrs1 & E1 & M1); [lia | lia |].
  rewrite E1. clear E1.
  pose proof (Zdigits2_bounds mx ltac:(lia)) as Hd.
  pose proof (Zdigits2_pos mx ltac:(lia)) as Hdpos.
  pose proof (Zdigits2_le mx 192 ltac:(lia) ltac:(lia)) as Hd192.
  set (d := Zdigits2 mx) in *.
  set (s := Z.max 0 (d - 53)) in *.
  assert (0 <= s <= 139) as Hs by (subst s; lia).
  pose proof (pow2_gt_0 s ltac:(lia)) as Hps.
  set (m0 := mx / 2 ^ s) in *.
  (* the mantissa after the shift *)
  assert (0 < s -> 2 ^ 52 <= m0) as Hm0big.
  { intros Hs0. subst m0. apply Z.div_le_lower_bound; [lia|].
    replace (2 ^ s * 2 ^ 52) with (2 ^ (d - 1)); [lia|].
    rewrite <- Z.pow_add_r by lia. f_equal. subst s. lia. }
  assert (1 <= m0 < 2 ^ 53) as Hm0.
  { split.
    - destruct (Z.eq_dec s 0) as [E | ?].
      + subst m0. rewrite E, Z.pow_0_r, Z.div_1_r. lia.
      + specialize (Hm0big ltac:(lia)). lia.
    - subst m0. apply Z.div_lt_upper_bound; [lia|].
      rewrite <- Z.pow_add_r by lia.
      apply Z.lt_le_trans with (2 ^ d); [lia|].
      apply pow2_le. subst s. lia. }
  pose proof (round_nearest_even_bounds (shr_m mrs1) (loc_of_shr_record mrs1)) as Hrne.
  set (m1 := round_nearest_even (shr_m mrs1) (loc_of_shr_record mrs1)) in *.
  rewrite M1 in Hrne.
  destruct (shr_fexp_spec m1 (ex + s) loc_Exact) as (mrs2 & E2 & M2); [lia | lia |].
  rewrite E2. clear E2.
  pose proof (Zdigits2_bounds m1 ltac:(lia)) as Hd1.
  pose proof (Zdigits2_pos m1 ltac:(lia)) as Hd1pos.
  pose proof (Zdigits2_le m1 54 ltac:(lia) ltac:(lia)) as Hd154.
  set (d1 := Zdigits2 m1) in *.
  (* the value carried so far *)
  assert (B * 2 ^ 1100 <= m1 * 2 ^ (ex + s + 1100)) as Hval.
  { pose proof (round_down_dominates mx (ex + 1100) s B ltac:(lia) ltac:(lia)
                  ltac:(lia) Hm0big HB Hle) as Hrd.
    fold m0 in Hrd.
    replace (ex + s + 1100) with (ex + 1100 + s) by lia.
    pose proof (pow2_gt_0 (ex + 1100 + s) ltac:(lia)). nia. }
  destruct (Z.le_gt_cases d1 53) as [Hsmall | Hcarry].
  - (* no carry out of the rounding *)
    replace (Z.max 0 (d1 - 53)) with 0 in * by lia.
    rewrite Z.pow_0_r, Z.div_1_r in M2. rewrite M2, Z.add_0_r.
    destruct m1 as [|p|p] eqn:Em1; try lia.
    destruct (Z.leb_spec (ex + s) (1024 - 53)) as [_ | ?]; [|lia].
    exists p, (ex + s). repeat split; try lia.
    + fold d1. destruct (Z.eq_dec s 0) as [Es | Es].
      * assert (Z.pos p < 2 ^ (d + 1)) as Hlt.
        { rewrite Z.pow_add_r by lia. subst m0.
          rewrite Es, Z.pow_0_r, Z.div_1_r in Hrne. lia. }
        pose proof (Zdigits2_le (Z.pos p) (d + 1) ltac:(lia) Hlt) as Hd1le.
        fold d1 in Hd1le. lia.
      * subst s. lia.
  - (* the rounding carried into a 54th digit: the mantissa is 2^53 *)
    assert (d1 = 54) as Ed1 by lia.
    assert (m1 = 2 ^ 53) as Em1.
    { rewrite Ed1 in Hd1. change (54 - 1) with 53 in Hd1. lia. }
    replace (Z.max 0 (d1 - 53)) with 1 in * by lia.
    rewrite Em1 in M2. change (2 ^ 53 / 2 ^ 1) with (Z.pos (2 ^ 52)) in M2.
    rewrite M2.
    destruct (Z.leb_spec (ex + s + 1) (1024 - 53)) as [_ | ?]; [|lia].
    exists (2 ^ 52)%positive, (ex + s + 1). repeat split; try lia.
    + rewrite Em1 in Hval.
      replace (ex + s + 1 + 1100) with (1 + (ex + s + 1100)) by lia.
      rewrite Z.pow_add_r by lia.
      change (Z.pos (2 ^ 52)) with (2 ^ 52).
      change (2 ^ 53) with (2 ^ 52 * 2 ^ 1) in Hval. lia.
    + change (Zdigits2 (Z.pos (2 ^ 52))) with 53.
      assert (53 <= d).
      { destruct (Z.le_gt_cases 53 d); [assumption|].
        assert (s = 0) as Es by (subst s; lia).
        subst m0. rewrite Es, Z.pow_0_r, Z.div_1_r in Hrne.
        assert (mx < 2 ^ 52) by (apply Z.lt_le_trans with (2 ^ d); [lia | apply pow2_le; lia]).
        rewrite Em1 in Hrne. change (2 ^ 53) with (2 * 2 ^ 52) in Hrne. lia. }
      subst s. lia.
    + change (Zdigits2 (Z.pos (2 ^ 52))) with 53. lia.
Qed.

Lemma pos_iter_xO p k : Z.pos (Pos.iter xO p k) = Z.pos p * 2 ^ Z.pos k.
Proof.
  induction k as [|k IH] using Pos.peano_ind.
  - simpl. lia.
  - rewrite Pos.iter_succ, Pos2Z.inj_xO, IH, Pos2Z.inj_succ, Z.pow_succ_r by lia. lia.
Qed.

Lemma Zdigits2_mul_pow2 n k : 0 < n -> 0 <= k -> Zdigits2 (n * 2 ^ k) = Zdigits2 n + k.
Proof.
  intros Hn Hk. pose proof (pow2_gt_0 k Hk).
  rewrite !Zdigits2_log2 by nia.
  rewrite Z.log2_mul_pow2 by lia. lia.
Qed.

(** A 53-digit mantissa needs no rounding. *)
Lemma binary_round_aux_exact m e :
  Zdigits2 (Z.pos m) = 53 -> -1000 <= e <= 900 ->
  binary_round_aux 53 1024 false (Z.pos m) e loc_Exact = S754_finite false m e.
Proof.
  intros Hd He. unfold binary_round_aux.
  assert (shr_fexp 53 1024 (Z.pos m) e loc_Exact
          = (shr_record_of_loc (Z.pos m) loc_Exact, e)) as E.
  { unfold shr_fexp, shr, fexp, emin. rewrite Hd.
    replace (Z.max (53 + e - 53) (3 - 1024 - 53) - e) with 0 by lia. reflexivity. }
  rewrite E. cbn [shr_record_of_loc shr_m loc_of_shr_record round_nearest_even].
  rewrite E. cbn [shr_record_of_loc shr_m].
  destruct (Z.leb_spec e (1024 - 53)); [reflexivity | lia].
Qed.

(** Integers below 2^53 convert exactly: the mantissa is the integer
    shifted up to 53 digits. *)
Lemma Float64_of_Z_exact n :
  0 < n < 2 ^ 53 ->
  exists m, Float64_of_Z n = S754_finite false m (Zdigits2 n - 53) /\
            Z.pos m = n * 2 ^ (53 - Zdigits2 n) /\
            Zdigits2 (Z.pos m) = 53.
Proof.
  intros Hn. destruct n as [|p|p]; try lia.
  pose proof (Zdigits2_le (Z.pos p) 53 ltac:(lia) ltac:(lia)) as Hd.
  pose proof (Zdigits2_pos (Z.pos p) ltac:(lia)) as Hdpos.
  unfold Float64_of_Z, binary_normalize, binary_round, shl_align, fexp, emin.
  change (Z.pos (digits2_pos p)) with (Zdigits2 (Z.pos p)).
  set (d := Zdigits2 (Z.pos p)) in *.
  replace (Z.max (d + 0 - 53) (3 - 1024 - 53) - 0) with (d - 53) by lia.
  replace (Z.max (d + 0 - 53) (3 - 1024 - 53)) with (d - 53) by lia.
  destruct (d - 53) as [|k|k] eqn:Ek; try lia.
  - (* already 53 digits *)
    exists p. assert (d = 53) as Ed by lia.
    rewrite binary_round_aux_exact by (fold d; lia).
    rewrite Ed. split; [reflexivity | split; [simpl; lia | exact Ed]].
  - exists (Pos.iter xO p k).
    assert (Z.pos (Pos.iter xO p k) = Z.pos p * 2 ^ (53 - d)) as Em.
    { rewrite pos_iter_xO. do 2 f_equal. lia. }
    assert (Zdigits2 (Z.pos (Pos.iter xO p k)) = 53) as Edig.
    { rewrite Em, Zdigits2_mul_pow2 by lia. fold d. lia. }
    rewrite binary_round_aux_exact by (try assumption; lia).
    repeat split; assumption.
Qed.

Lemma Float64_integer_of_Z n :
  0 <= n < 2 ^ 53 -> Float64_integer (Float64_of_Z n) = Some n.
Proof.
  intros Hn. destruct (Z.eq_dec n 0) as [-> | Hn0]; [reflexivity|].
  destruct (Float64_of_Z_exact n) as (m & -> & Em & _); [lia|].
  pose proof (Zdigits2_le n 53 ltac:(lia) ltac:(lia)) as Hd.
  pose proof (Zdigits2_pos n ltac:(lia)) as Hdpos.
  unfold Float64_integer. rewrite Em.
  destruct (Z.leb_spec 0 (Zdigits2 n - 53)) as [Hz | Hneg].
  - replace (Zdigits2 n - 53) with 0 by lia.
    replace (53 - Zdigits2 n) with 0 by lia. f_equal. simpl. lia.
  - replace (- (Zdigits2 n - 53)) with (53 - Zdigits2 n) by lia.
    pose proof (pow2_gt_0 (53 - Zdigits2 n) ltac:(lia)).
    rewrite Z.mod_mul by lia. simpl. rewrite Z.div_mul by lia.
    f_equal. lia.
Qed.

(** Multiplication of two positive values. *)
Lemma Float64_mul_lower mx ex my ey B :
  Zdigits2 (Z.pos mx) <= 53 -> Zdigits2 (Z.pos my) <= 53 ->
  -400 <= ex <= 400 -> -400 <= ey <= 400 ->
  0 < B < 2 ^ 53 ->
  B * 2 ^ 1100 <= Z.pos mx * Z.pos my * 2 ^ (ex + ey + 1100) ->
  exists m e,
    Float64_mul (S754_finite false mx ex) (S754_finite false my ey)
      = S754_finite false m e /\
    B * 2 ^ 1100 <= Z.pos m * 2 ^ (e + 1100) /\
    ex + ey <= e /\
    Zdigits2 (Z.pos m) + e <= Zdigits2 (Z.pos mx) + Zdigits2 (Z.pos my) + ex + ey + 1 /\
    Zdigits2 (Z.pos m) <= 53.
Proof.
  intros Hdx Hdy Hex Hey HB Hle.
  pose proof (Zdigits2_bounds (Z.pos mx) ltac:(lia)) as Hx.
  pose proof (Zdigits2_bounds (Z.pos my) ltac:(lia)) as Hy.
  pose proof (Zdigits2_pos (Z.pos mx) ltac:(lia)) as Hxp.
  pose proof (Zdigits2_pos (Z.pos my) ltac:(lia)) as Hyp.
  set (dx := Zdigits2 (Z.pos mx)) in *. set (dy := Zdigits2 (Z.pos my)) in *.
  assert (Z.pos mx * Z.pos my < 2 ^ (dx + dy)) as Hprod.
  { rewrite Z.pow_add_r by lia. nia. }
  assert (2 ^ (dx + dy) <= 2 ^ 192) by (apply pow2_le; lia).
  assert (0 < Z.pos (mx * my) < 2 ^ 192) as H1 by (rewrite Pos2Z.inj_mul; lia).
  assert (B * 2 ^ 1100 <= Z.pos (mx * my) * 2 ^ (ex + ey + 1100)) as H2
    by (rewrite Pos2Z.inj_mul; exact Hle).
  destruct (binary_round_aux_lower (Z.pos (mx * my)) (ex + ey) loc_Exact B
              H1 ltac:(lia) HB H2)
    as (m & e & E & Hv & He & Hdig & Hd53).
  exists m, e. split; [exact E|]. repeat split; try assumption.
  pose proof (Zdigits2_le (Z.pos (mx * my)) (dx + dy) ltac:(lia)
                ltac:(rewrite Pos2Z.inj_mul; exact Hprod)).
  lia.
Qed.

(** Division of two positive values. *)
Lemma Float64_div_lower mx ex my ey B :
  Zdigits2 (Z.pos mx) <= 53 -> Zdigits2 (Z.pos my) <= 53 ->
  -400 <= ex <= 400 -> -400 <= ey <= 400 ->
  0 < B < 2 ^ 53 ->
  B * Z.pos my * 2 ^ (ey + 1100) <= Z.pos mx * 2 ^ (ex + 1100) ->
  exists m e,
    Float64_div (S754_finite false mx ex) (S754_finite false my ey)
      = S754_finite false m e /\
    B * 2 ^ 1100 <= Z.pos m * 2 ^ (e + 1100) /\
    -1000 <= e /\
    Zdigits2 (Z.pos m) + e
      <= Zdigits2 (Z.pos mx) + ex - (Zdigits2 (Z.pos my) + ey) + 2.
Proof.
  intros Hdx Hdy Hex Hey HB Hle.
  pose proof (Zdigits2_bounds (Z.pos mx) ltac:(lia)) as Hx.
  pose proof (Zdigits2_bounds (Z.pos my) ltac:(lia)) as Hy.
  pose proof (Zdigits2_pos (Z.pos mx) ltac:(lia)) as Hxp.
  pose proof (Zdigits2_pos (Z.pos my) ltac:(lia)) as Hyp.
  unfold Float64_div, SFdiv, SFdiv_core_binary, fexp, emin.
  set (dx := Zdigits2 (Z.pos mx)) in *. set (dy := Zdigits2 (Z.pos my)) in *.
  replace (Z.max (dx + ex - (dy + ey) - 53) (3 - 1024 - 53))
    with (dx + ex - (dy + ey) - 53) by lia.
  set (e' := Z.min (dx + ex - (dy + ey) - 53) (ex - ey)).
  set (s := ex - ey - e').
  assert (53 + dy - dx <= s <= 106) as Hs by (subst s e'; lia).
  assert (Z.pos mx * 2 ^ s = match s with
                             | 0 => Z.pos mx
                             | Z.pos _ => Z.shiftl (Z.pos mx) s
                             | Z.neg _ => 0
                             end) as Eshift.
  { destruct s as [|k|k] eqn:Es; try lia.
    rewrite Z.shiftl_mul_pow2 by lia. reflexivity. }
  rewrite <- Eshift. clear Eshift.
  pose proof (pow2_gt_0 s ltac:(lia)) as Hps.
  pose proof (Z_div_mod_eq_full (Z.pos mx * 2 ^ s) (Z.pos my)) as Hdm.
  pose proof (Z.mod_pos_bound (Z.pos mx * 2 ^ s) (Z.pos my) ltac:(lia)) as Hr.
  unfold Z.modulo, Z.div in Hdm, Hr.
  destruct (Z.div_eucl (Z.pos mx * 2 ^ s) (Z.pos my)) as [q r].
  (* the quotient has at least 53 digits *)
  assert (2 ^ 52 <= q) as Hq52.
  { assert (2 ^ 52 * Z.pos my < Z.pos mx * 2 ^ s); [|nia].
    apply Z.lt_le_trans with (2 ^ 52 * 2 ^ dy); [nia|].
    apply Z.le_trans with (2 ^ (dx - 1) * 2 ^ (53 + dy - dx)).
    - rewrite <- !Z.pow_add_r by lia. apply pow2_le. lia.
    - pose proof (pow2_le (53 + dy - dx) s ltac:(lia)).
      pose proof (pow2_gt_0 (dx - 1) ltac:(lia)). nia. }
  assert (q < 2 ^ 192) as Hq192.
  { assert (q <= Z.pos mx * 2 ^ s) by nia.
    assert (Z.pos mx * 2 ^ s < 2 ^ 53 * 2 ^ 106).
    { pose proof (pow2_le s 106 ltac:(lia)).
      pose proof (pow2_le dx 53 ltac:(lia)). nia. }
    change (2 ^ 53 * 2 ^ 106) with (2 ^ 159) in *.
    assert (2 ^ 159 < 2 ^ 192) by reflexivity. lia. }
  (* the quotient, scaled, is above B *)
  assert (B * 2 ^ 1100 <= q * 2 ^ (e' + 1100)) as Hqv.
  { destruct (Z.le_gt_cases 1 e') as [Hpos | Hnonpos].
    - pose proof (pow2_le 1101 (e' + 1100) ltac:(subst e'; lia)) as Hp.
      change (2 ^ 1101) with (2 * 2 ^ 1100) in Hp.
      pose proof (pow2_gt_0 1100 ltac:(lia)). nia.
    - assert (B * 2 ^ (- e') <= q) as Hqb.
      { pose proof (pow2_gt_0 (- e') ltac:(lia)) as Hpe.
        pose proof (pow2_gt_0 (ey + e' + 1100) ltac:(subst e'; lia)) as HP.
        assert (2 ^ (ex + 1100) = 2 ^ s * 2 ^ (ey + e' + 1100)) as E1.
        { rewrite <- Z.pow_add_r by (subst s e'; lia). f_equal. subst s. lia. }
        assert (2 ^ (ey + 1100) = 2 ^ (- e') * 2 ^ (ey + e' + 1100)) as E2.
        { rewrite <- Z.pow_add_r by (subst e'; lia). f_equal. lia. }
        rewrite E1, E2 in Hle.
        assert (B * 2 ^ (- e') * Z.pos my <= Z.pos mx * 2 ^ s) as Hnum by nia.
        assert (B * 2 ^ (- e') < q + 1); [|lia].
        apply Z.mul_lt_mono_pos_r with (Z.pos my); [lia|]. nia. }
      assert (2 ^ 1100 = 2 ^ (- e') * 2 ^ (e' + 1100)) as E3.
      { rewrite <- Z.pow_add_r by (subst e'; lia). f_equal. lia. }
      rewrite E3.
      pose proof (pow2_gt_0 (e' + 1100) ltac:(subst e'; lia)). nia. }
  destruct (binary_round_aux_lower q e' (new_location (Z.pos my) r) B)
    as (m & e & E & Hv & He & Hdig & Hd53); try (subst e'; lia).
  simpl xorb. rewrite E.
  exists m, e. split; [reflexivity|]. split; [exact Hv|]. split; [subst e'; lia|].
  (* digits of the quotient *)
  assert (q < 2 ^ (dx + s - dy + 1)) as Hqd.
  { assert (q * Z.pos my < 2 ^ (dx + s - dy + 1) * Z.pos my); [|nia].
    apply Z.le_lt_trans with (Z.pos mx * 2 ^ s); [nia|].
    apply Z.lt_le_trans with (2 ^ dx * 2 ^ s); [nia|].
    apply Z.le_trans with (2 ^ (dx + s - dy + 1) * 2 ^ (dy - 1)).
    - rewrite <- !Z.pow_add_r by lia. apply pow2_le. lia.
    - pose proof (pow2_gt_0 (dx + s - dy + 1) ltac:(lia)). nia. }
  pose proof (Zdigits2_le q (dx + s - dy + 1) ltac:(lia) Hqd).
  subst s. lia.
Qed.

(** The cast to [uint64_t] of a positive value with at most 64 digits
    before the point. *)
Lemma Float64_to_uint64_lower m e B :
  -1000 <= e ->
  Zdigits2 (Z.pos m) + e <= 64 ->
  0 <= B ->
  B * 2 ^ 1100 <= Z.pos m * 2 ^ (e + 1100) ->
  exists v, Float64_to_uint64 (S754_finite false m e) = Some v /\ B <= v < 2 ^ 64.
Proof.
  intros He Hdig HB Hle.
  pose proof (Zdigits2_bounds (Z.pos m) ltac:(lia)) as Hm.
  pose proof (Zdigits2_pos (Z.pos m) ltac:(lia)) as Hdp.
  set (d := Zdigits2 (Z.pos m)) in *.
  unfold Float64_to_uint64, Float64_trunc.
  set (v := if 0 <=? e then Z.pos m * 2 ^ e else Z.pos m / 2 ^ (- e)).
  assert (B <= v < 2 ^ 64) as Hv.
  { subst v. destruct (Z.leb_spec 0 e) as [Hpos | Hneg].
    - pose proof (pow2_gt_0 e Hpos). pose proof (pow2_gt_0 1100 ltac:(lia)).
      rewrite Z.pow_add_r in Hle by lia. split; [nia|].
      apply Z.lt_le_trans with (2 ^ d * 2 ^ e); [nia|].
      rewrite <- Z.pow_add_r by lia. apply pow2_le. lia.
    - pose proof (pow2_gt_0 (- e) ltac:(lia)) as Hpe.
      pose proof (pow2_gt_0 (e + 1100) ltac:(lia)) as HP.
      assert (2 ^ 1100 = 2 ^ (- e) * 2 ^ (e + 1100)) as E.
      { rewrite <- Z.pow_add_r by lia. f_equal. lia. }
      rewrite E in Hle. split.
      + apply Z.div_le_lower_bound; [lia | nia].
      + apply Z.div_lt_upper_bound; [lia|].
        apply Z.lt_le_trans with (2 ^ d); [lia|].
        rewrite <- Z.pow_add_r by lia. apply pow2_le. lia. }
  destruct (Z.leb_spec 0 v); [|lia].
  destruct (Z.ltb_spec v (2 ^ 64)); [|lia].
  exists v. split; [reflexivity | exact Hv].
Qed.

Lemma nsPerPeriod_value :
  nsPerPeriod = S754_finite false 5726623061333333 (-29).
Proof. vm_compute. reflexivity. Qed.

(** The ticks in one IO period are at least [B] whenever [B] ticks last at
    most ten milliseconds ([B * numer <= 10^7 * denom] nanoseconds): the
    floating-point computation of [StartIO] does not lose that. *)
Lemma host_ticks_per_period_lower tb B :
  0 < numer tb < 2 ^ 32 -> 0 < denom tb < 2 ^ 32 ->
  0 < B -> B * numer tb < 2 ^ 53 ->
  B * numer tb <= 10000000 * denom tb ->
  exists t, host_ticks_per_period tb = Some t /\ B <= t < 2 ^ 64.
Proof.
  intros Hn Hd HB Hrep Hle. unfold host_ticks_per_period.
  rewrite nsPerPeriod_value.
  destruct (Float64_of_Z_exact (denom tb)) as (md & -> & Emd & Hmd); [lia|].
  destruct (Float64_of_Z_exact (numer tb)) as (mn & -> & Emn & Hmn); [lia|].
  pose proof (Zdigits2_le (denom tb) 32 ltac:(lia) ltac:(lia)) as Hdd.
  pose proof (Zdigits2_le (numer tb) 32 ltac:(lia) ltac:(lia)) as Hdn.
  pose proof (Zdigits2_pos (denom tb) ltac:(lia)) as Hddp.
  pose proof (Zdigits2_pos (numer tb) ltac:(lia)) as Hdnp.
  set (dd := Zdigits2 (denom tb)) in *. set (dn := Zdigits2 (numer tb)) in *.
  (* nsPerPeriod * denom, at least B * numer *)
  destruct (Float64_mul_lower 5726623061333333 (-29) md (dd - 53) (B * numer tb))
    as (m1 & e1 & -> & Hv1 & He1 & Hdig1 & Hd1); try lia.
  { change (Zdigits2 (Z.pos 5726623061333333)) with 53. lia. }
  { rewrite Emd.
    pose proof (pow2_gt_0 (53 - dd) ltac:(lia)) as Hp1.
    replace (2 ^ 1100) with (2 ^ 29 * 2 ^ 1071) by reflexivity.
    replace (Z.pos 5726623061333333 * (denom tb * 2 ^ (53 - dd))
             * 2 ^ (-29 + (dd - 53) + 1100))
      with (Z.pos 5726623061333333 * denom tb * 2 ^ 1071).
    - assert (B * numer tb * 2 ^ 29 <= Z.pos 5726623061333333 * denom tb);
        [|pose proof (pow2_gt_0 1071 ltac:(lia)); nia].
      change (2 ^ 29) with 536870912. lia.
    - replace 1071 with ((53 - dd) + (-29 + (dd - 53) + 1100)) at 1 by lia.
      rewrite Z.pow_add_r by lia. ring. }
  change (Zdigits2 (Z.pos 5726623061333333)) with 53 in Hdig1.
  (* ... divided by numer, at least B *)
  assert (B * Z.pos mn * 2 ^ (dn - 53 + 1100) <= Z.pos m1 * 2 ^ (e1 + 1100)) as Hdiv.
  { rewrite Emn.
    replace (B * (numer tb * 2 ^ (53 - dn)) * 2 ^ (dn - 53 + 1100))
      with (B * numer tb * 2 ^ 1100); [exact Hv1|].
    replace 1100 with ((53 - dn) + (dn - 53 + 1100)) at 1 by lia.
    rewrite Z.pow_add_r by lia. ring. }
  pose proof (Zdigits2_pos (Z.pos m1) ltac:(lia)) as Hd1p.
  destruct (Float64_div_lower m1 e1 mn (dn - 53) B Hd1 ltac:(lia) ltac:(lia)
              ltac:(lia) ltac:(lia) Hdiv)
    as (m2 & e2 & -> & Hv2 & He2 & Hdig2).
  apply Float64_to_uint64_lower; lia.
Qed.

Lemma shr_1_even m :
  0 <= m -> (2 | m) ->
  shr_1 {| shr_m := m; shr_r := false; shr_s := false |}
  = {| shr_m := m / 2; shr_r := false; shr_s := false |}.
Proof.
  intros Hm [q ->]. rewrite Z.div_mul by lia. rewrite (Z.mul_comm q 2) in *.
  destruct q as [|q|q]; try lia; reflexivity.
Qed.

Lemma iter_shr_1_exact p : forall m,
  0 <= m -> (2 ^ Z.pos p | m) ->
  SpecFloat.iter_pos shr_1 p {| shr_m := m; shr_r := false; shr_s := false |}
  = {| shr_m := m / 2 ^ Z.pos p; shr_r := false; shr_s := false |}.
Proof.
  assert (forall p m, 0 <= m -> (2 ^ Z.pos p * 2 ^ Z.pos p | m) ->
            0 <= m / 2 ^ Z.pos p /\ (2 ^ Z.pos p | m / 2 ^ Z.pos p)) as Hhalf.
  { intros q m Hm [c ->]. pose proof (pow2_gt_0 (Z.pos q) ltac:(lia)).
    replace (c * (2 ^ Z.pos q * 2 ^ Z.pos q)) with (c * 2 ^ Z.pos q * 2 ^ Z.pos q) by ring.
    rewrite Z.div_mul by lia. split; [nia | now exists c]. }
  induction p as [p IH | p IH |]; intros m Hm Hdiv; cbn [SpecFloat.iter_pos].
  - change (Z.pos p~1) with (2 * Z.pos p + 1) in *.
    replace (2 * Z.pos p + 1) with (1 + (Z.pos p + Z.pos p)) in * by lia.
    rewrite Z.pow_add_r, Z.pow_add_r in * by lia. change (2 ^ 1) with 2 in *.
    destruct Hdiv as [c ->].
    rewrite shr_1_even by (try lia; exists (c * (2 ^ Z.pos p * 2 ^ Z.pos p)); ring).
    replace (c * (2 * (2 ^ Z.pos p * 2 ^ Z.pos p)) / 2)
      with (c * (2 ^ Z.pos p * 2 ^ Z.pos p))
      by (replace (c * (2 * (2 ^ Z.pos p * 2 ^ Z.pos p)))
            with (c * (2 ^ Z.pos p * 2 ^ Z.pos p) * 2) by ring;
          now rewrite Z.div_mul).
    pose proof (pow2_gt_0 (Z.pos p) ltac:(lia)).
    assert (0 <= c * (2 ^ Z.pos p * 2 ^ Z.pos p)) as Hc by nia.
    destruct (Hhalf p _ Hc ltac:(now exists c)) as [Hh1 Hh2].
    rewrite IH by (try assumption; exists (c * 2 ^ Z.pos p); ring).
    rewrite IH by assumption.
    f_equal. rewrite Z.div_div by lia.
    rewrite !Z.div_mul by nia. reflexivity.
  - change (Z.pos p~0) with (2 * Z.pos p) in *.
    replace (2 * Z.pos p) with (Z.pos p + Z.pos p) in * by lia.
    rewrite Z.pow_add_r in * by lia.
    pose proof (pow2_gt_0 (Z.pos p) ltac:(lia)).
    destruct (Hhalf p m Hm Hdiv) as [Hh1 Hh2].
    rewrite IH by (try assumption; destruct Hdiv as [c ->]; exists (c * 2 ^ Z.pos p); ring).
    rewrite IH by assumption.
    f_equal. now rewrite Z.div_div by lia.
  - change (2 ^ 1) with 2 in *. apply shr_1_even; assumption.
Qed.

(** An integer with at most 53 significant digits followed by zeros
    converts exactly. *)
Lemma Float64_integer_of_Z_shifted a k :
  0 <= a < 2 ^ 53 -> 0 <= k <= 64 ->
  Float64_integer (Float64_of_Z (a * 2 ^ k)) = Some (a * 2 ^ k).
Proof.
  intros Ha Hk. pose proof (pow2_gt_0 k ltac:(lia)) as Hpk.
  destruct (Z.eq_dec a 0) as [-> | Ha0]; [reflexivity|].
  destruct (Z.lt_ge_cases (a * 2 ^ k) (2 ^ 53)) as [Hsmall | Hbig].
  { apply Float64_integer_of_Z. nia. }
  pose proof (Zdigits2_pos a ltac:(lia)) as Hdap.
  pose proof (Zdigits2_le a 53 ltac:(lia) ltac:(lia)) as Hda.
  pose proof (Zdigits2_mul_pow2 a k ltac:(lia) ltac:(lia)) as Hdn.
  pose proof (Zdigits2_gt (a * 2 ^ k) 53 ltac:(lia) Hbig) as Hd53.
  set (n := a * 2 ^ k) in *. set (d := Zdigits2 n) in *.
  assert (0 < n) as Hn by (subst n; nia).
  set (s := d - 53).
  assert (0 < s <= k) as Hs by (subst s; lia).
  pose proof (pow2_gt_0 s ltac:(lia)) as Hps.
  assert (n = n / 2 ^ s * 2 ^ s) as Hdivn.
  { subst n. replace k with ((k - s) + s) at 1 2 by lia.
    rewrite Z.pow_add_r by lia.
    replace (a * (2 ^ (k - s) * 2 ^ s)) with (a * 2 ^ (k - s) * 2 ^ s) by ring.
    now rewrite Z.div_mul by lia. }
  assert (Zdigits2 (n / 2 ^ s) = 53) as Hdq.
  { subst n. replace k with ((k - s) + s) at 1 by lia.
    rewrite Z.pow_add_r by lia.
    replace (a * (2 ^ (k - s) * 2 ^ s)) with (a * 2 ^ (k - s) * 2 ^ s) by ring.
    rewrite Z.div_mul by lia.
    rewrite Zdigits2_mul_pow2 by lia. subst s. lia. }
  assert (0 < n / 2 ^ s) as Hq by (pose proof (Zdigits2_bounds n Hn); nia).
  destruct n as [|p|p] eqn:En; try lia.
  destruct (Z.pos p / 2 ^ s) as [|q|q] eqn:Eq; try lia.
  assert (Float64_of_Z (Z.pos p) = S754_finite false q s) as ->.
  { unfold Float64_of_Z, binary_normalize, binary_round, shl_align, fexp, emin.
    change (Z.pos (digits2_pos p)) with (Zdigits2 (Z.pos p)). fold d.
    replace (Z.max (d + 0 - 53) (3 - 1024 - 53) - 0) with s by (subst s; lia).
    destruct s as [|s'|s'] eqn:Es; try lia.
    unfold binary_round_aux.
    assert (shr_fexp 53 1024 (Z.pos p) 0 loc_Exact
            = ({| shr_m := Z.pos q; shr_r := false; shr_s := false |}, Z.pos s')) as E1.
    { unfold shr_fexp, shr, fexp, emin.
      change (Zdigits2 (Z.pos p)) with d.
      replace (Z.max (d + 0 - 53) (3 - 1024 - 53) - 0) with (Z.pos s') by lia.
      cbn [shr_record_of_loc]. rewrite iter_shr_1_exact.
      - rewrite Eq. reflexivity.
      - lia.
      - exists (Z.pos q). exact Hdivn. }
    rewrite E1. cbn [shr_m loc_of_shr_record round_nearest_even].
    assert (shr_fexp 53 1024 (Z.pos q) (Z.pos s') loc_Exact
            = (shr_record_of_loc (Z.pos q) loc_Exact, Z.pos s')) as E2.
    { unfold shr_fexp, shr, fexp, emin. rewrite Hdq.
      replace (Z.max (53 + Z.pos s' - 53) (3 - 1024 - 53) - Z.pos s') with 0 by lia.
      reflexivity. }
    rewrite E2. cbn [shr_record_of_loc shr_m].
    destruct (Z.leb_spec (Z.pos s') (1024 - 53)); [reflexivity | lia]. }
  unfold Float64_integer.
  destruct (Z.leb_spec 0 s); [|lia].
  f_equal. rewrite Hdivn. lia.
Qed.

(* ================================================================= *)
(** ** The clock *)

Lemma OpenSharedMemory_clock e g :
  sIO_StartHostTime (RightMic_OpenSharedMemory e g) = sIO_StartHostTime g /\
  sIO_HostTicksPerPeriod (RightMic_OpenSharedMemory e g) = sIO_HostTicksPerPeriod g /\
  sTimebaseInfo (RightMic_OpenSharedMemory e g) = sTimebaseInfo g /\
  sDeviceIsRunning (RightMic_OpenSharedMemory e g) = sDeviceIsRunning g.
Proof.
  unfold RightMic_OpenSharedMemory.
  destruct (negb _); [auto|].
  destruct (_ <? 0); [simpl; auto|].
  destruct (negb _); simpl; auto.
Qed.

(** What [StartIO] leaves in the statics. *)
Lemma StartIO_clock e g st g' :
  RightMic_StartIO e g = Some (st, g') ->
  st = kAudioHardwareNoError /\
  host_ticks_per_period (sTimebaseInfo g) = Some (sIO_HostTicksPerPeriod g') /\
  sIO_StartHostTime g' = mach_absolute_time e /\
  sDeviceIsRunning g' = true /\
  sTimebaseInfo g' = sTimebaseInfo g.
Proof.
  unfold RightMic_StartIO.
  destruct (host_ticks_per_period (sTimebaseInfo g)) as [t|]; [|discriminate].
  intros [= <- <-]. cbn [set_io sIO_HostTicksPerPeriod sIO_StartHostTime
                           sDeviceIsRunning sTimebaseInfo].
  destruct (OpenSharedMemory_clock e
              (set_io (mach_absolute_time e) t (sDeviceIsRunning g) g))
    as (-> & -> & -> & _).
  repeat split.
Qed.

(** [StartIO] is defined on every valid timebase. *)
Lemma StartIO_defined e g :
  valid_timebase (sTimebaseInfo g) ->
  exists g', RightMic_StartIO e g = Some (kAudioHardwareNoError, g').
Proof.
  intros (Hn & Hd & Hle).
  destruct (host_ticks_per_period_lower (sTimebaseInfo g) 1) as (t & Et & _);
    try lia.
  unfold RightMic_StartIO. rewrite Et. eexists. reflexivity.
Qed.

(** The query in a state whose divisor is positive, with the machine
    arithmetic resolved: nothing wraps for a clock that has not run
    backwards. *)
Lemma GetZeroTimeStamp_running e g :
  let T0 := sIO_StartHostTime g in
  let now := mach_absolute_time e in
  let ticks := sIO_HostTicksPerPeriod g in
  0 < ticks -> 0 <= T0 <= now -> now < 2 ^ 64 ->
  kRightMic_BufferFrameSize <= ticks ->
  RightMic_GetZeroTimeStamp e g =
  Some (kAudioHardwareNoError,
        {| outSampleTime := Float64_of_Z ((now - T0) / ticks * kRightMic_BufferFrameSize);
           outHostTime := T0 + (now - T0) / ticks * ticks;
           outSeed := 1 |}).
Proof.
  intros T0 now ticks Hticks HT0 Hnow Hbig. unfold RightMic_GetZeroTimeStamp.
  fold T0 now ticks.
  destruct (Z.eqb_spec ticks 0) as [? | _]; [lia|].
  rewrite (wrap64_small (now - T0)) by lia.
  set (n := (now - T0) / ticks).
  assert (0 <= n) by (apply Z.div_pos; lia).
  assert (n * ticks <= now - T0) by (subst n; rewrite Z.mul_comm; apply Z.mul_div_le; lia).
  unfold kRightMic_BufferFrameSize in *.
  rewrite (wrap64_small (n * 512)) by nia.
  rewrite (wrap64_small (n * ticks)) by lia.
  rewrite (wrap64_small (T0 + n * ticks)) by lia.
  reflexivity.
Qed.

(** Everything the clock claims rest on: after [StartIO] on a fine
    timebase, a query at [now >= T0] returns the number of whole periods
    elapsed, as a sample position and as a host time. *)
Lemma GetZeroTimeStamp_after_StartIO e0 e g0 g st :
  fine_timebase (sTimebaseInfo g0) ->
  RightMic_StartIO e0 g0 = Some (st, g) ->
  let T0 := mach_absolute_time e0 in
  let now := mach_absolute_time e in
  let ticks := sIO_HostTicksPerPeriod g in
  let periods := (now - T0) / ticks in
  0 <= T0 <= now -> now < 2 ^ 64 ->
  2048 <= ticks /\
  exists ts,
    RightMic_GetZeroTimeStamp e g = Some (kAudioHardwareNoError, ts) /\
    Float64_integer (outSampleTime ts) = Some (periods * kRightMic_BufferFrameSize) /\
    outHostTime ts = T0 + periods * ticks /\
    outSeed ts = 1.
Proof.
  intros ((Hn & Hd & _) & Hfine) Hstart T0 now ticks periods HT0 Hnow.
  destruct (StartIO_clock e0 g0 st g Hstart) as (_ & Eticks & ET0 & _).
  destruct (host_ticks_per_period_lower (sTimebaseInfo g0) 2048) as (t & Et & Ht);
    try lia.
  rewrite Et in Eticks. injection Eticks as Eticks. fold ticks in Eticks. subst t.
  split; [lia|].
  pose proof (GetZeroTimeStamp_running e g) as Hrun. cbv zeta in Hrun.
  rewrite ET0 in Hrun. fold T0 now ticks periods in Hrun.
  rewrite Hrun by (unfold kRightMic_BufferFrameSize; lia).
  eexists. split; [reflexivity|].
  cbn [outSampleTime outHostTime outSeed].
  split; [|split; reflexivity].
  { 
    unfold kRightMic_BufferFrameSize. change 512 with (2 ^ 9).
    apply Float64_integer_of_Z_shifted; [|lia].
    subst periods. split; [apply Z.div_pos; lia|].
    apply Z.div_lt_upper_bound; [lia|].
    assert (2048 * 2 ^ 53 = 2 ^ 64) by reflexivity. nia. }
Qed.

(** C4. After [StartIO], a query at host time [now >= T0] returns the
    sample position [periods * 512] and the host time
    [T0 + periods * ticksPerPeriod], where [periods = (now - T0) /
    ticksPerPeriod] by integer division: the answer lies on the last period
    boundary at or before [now] (never after it, never between two). In
    particular [now = T0 + n * ticksPerPeriod + eps] with
    [0 <= eps < ticksPerPeriod] gives [periods = n], so a query just after
    the third boundary returns [3 * 512] and [T0 + 3 * ticksPerPeriod]. *)
Theorem zero_timestamp_quantized e0 e g0 g st :
  fine_timebase (sTimebaseInfo g0) ->
  RightMic_StartIO e0 g0 = Some (st, g) ->
  let T0 := mach_absolute_time e0 in
  let now := mach_absolute_time e in
  let ticksPerPeriod := sIO_HostTicksPerPeriod g in
  let periods := (now - T0) / ticksPerPeriod in
  0 <= T0 <= now -> now < 2 ^ 64 ->
  exists ts,
    RightMic_GetZeroTimeStamp e g = Some (kAudioHardwareNoError, ts) /\
    Float64_integer (outSampleTime ts) = Some (periods * kRightMic_BufferFrameSize) /\
    outHostTime ts = T0 + periods * ticksPerPeriod /\
    outHostTime ts <= now < outHostTime ts + ticksPerPeriod /\
    (forall n eps, 0 <= n -> 0 <= eps < ticksPerPeriod ->
       now = T0 + n * ticksPerPeriod + eps -> periods = n).
Proof.
  intros Hfine Hstart T0 now ticks periods HT0 Hnow.
  destruct (GetZeroTimeStamp_after_StartIO e0 e g0 g st Hfine Hstart HT0 Hnow)
    as (Hticks & ts & Ets & Esample & Ehost & _).
  fold T0 now ticks periods in Hticks, Ets, Esample, Ehost.
  exists ts. repeat split; try assumption.
  - rewrite Ehost. subst periods.
    pose proof (Z.mul_div_le (now - T0) ticks ltac:(lia)). lia.
  - rewrite Ehost. subst periods.
    pose proof (Z.mul_succ_div_gt (now - T0) ticks ltac:(lia)). lia.
  - intros n eps Hn Heps Enow. subst periods.
    replace (now - T0) with (eps + n * ticks) by lia.
    rewrite Z.div_add by lia. rewrite Z.div_small by lia. lia.
Qed.

Lemma host_at_fine : fine_timebase (sTimebaseInfo (initialized_globals (host_at 0))).
Proof. unfold fine_timebase, valid_timebase. simpl. lia. Qed.

Lemma Some_eq_inv {A} (a b : A) : Some a = Some b -> a = b.
Proof. intros [= ->]. reflexivity. Qed.

Lemma running_since_StartIO T0 :
  RightMic_StartIO (host_at T0) (initialized_globals (host_at 0))
  = Some (kAudioHardwareNoError, running_since T0).
Proof.
  unfold running_since, globals_after_StartIO, RightMic_StartIO.
  replace (host_ticks_per_period (sTimebaseInfo (initialized_globals (host_at 0))))
    with (Some 256000) by (vm_compute; reflexivity).
  reflexivity.
Qed.

Lemma running_since_ticks T0 : sIO_HostTicksPerPeriod (running_since T0) = 256000.
Proof.
  destruct (StartIO_clock _ _ _ _ (running_since_StartIO T0)) as (_ & E & _).
  replace (host_ticks_per_period (sTimebaseInfo (initialized_globals (host_at 0))))
    with (Some 256000) in E by (vm_compute; reflexivity).
  exact (eq_sym (Some_eq_inv _ _ E)).
Qed.

(** The example of the specification on an Apple-silicon host (256000
    ticks per period): IO started at 1000, queried 777 ticks after the
    third period boundary. *)
Lemma zero_timestamp_quantized_witness :
  exists ts,
    RightMic_GetZeroTimeStamp (host_at (1000 + 3 * 256000 + 777)) (running_since 1000)
      = Some (kAudioHardwareNoError, ts) /\
    Float64_integer (outSampleTime ts) = Some (3 * kRightMic_BufferFrameSize) /\
    outHostTime ts = 1000 + 3 * 256000.
Proof.
  destruct (zero_timestamp_quantized (host_at 1000) (host_at (1000 + 3 * 256000 + 777))
              (initialized_globals (host_at 0)) (running_since 1000)
              kAudioHardwareNoError host_at_fine (running_since_StartIO 1000))
    as (ts & Ets & Esample & Ehost & _ & Hperiods).
  - simpl. lia.
  - simpl. lia.
  - rewrite running_since_ticks in *.
    rewrite (Hperiods 3 777) in Esample, Ehost by (simpl; lia).
    exists ts. repeat split; assumption.
Defined.

(* ================================================================= *)
(** ** Self-consistency of the returned pair *)

(** C5, as the code has it. After [StartIO], the host time elapsed to the
    returned [hostTime] and the returned sample position are the same
    whole number of periods: [(hostTime - T0) * 512 = samplePosition *
    ticksPerPeriod], with [ticksPerPeriod] the whole number of ticks that
    [StartIO] computed in binary64 and cast to [UInt64]. The elapsed time
    is exactly [samplePosition / 48000] seconds if and only if the sample
    position is 0 or that number of ticks lasts exactly one period
    ([ticksPerPeriod * 48000 * numer = 512 * 10^9 * denom]). *)
Theorem zero_timestamp_self_consistent e0 e g0 g st :
  fine_timebase (sTimebaseInfo g0) ->
  RightMic_StartIO e0 g0 = Some (st, g) ->
  let T0 := mach_absolute_time e0 in
  let now := mach_absolute_time e in
  let ticksPerPeriod := sIO_HostTicksPerPeriod g in
  0 <= T0 <= now -> now < 2 ^ 64 ->
  host_ticks_per_period (sTimebaseInfo g0) = Some ticksPerPeriod /\
  exists ts samplePosition,
    RightMic_GetZeroTimeStamp e g = Some (kAudioHardwareNoError, ts) /\
    Float64_integer (outSampleTime ts) = Some samplePosition /\
    (outHostTime ts - T0) * kRightMic_BufferFrameSize = samplePosition * ticksPerPeriod /\
    (elapsed_matches_sample_rate (sTimebaseInfo g0) samplePosition (outHostTime ts - T0)
     <->
     samplePosition = 0 \/
     ticksPerPeriod * 48000 * numer (sTimebaseInfo g0)
       = kRightMic_BufferFrameSize * 1000000000 * denom (sTimebaseInfo g0)).
Proof.
  intros Hfine Hstart T0 now ticks HT0 Hnow.
  destruct (GetZeroTimeStamp_after_StartIO e0 e g0 g st Hfine Hstart HT0 Hnow)
    as (Hticks & ts & Ets & Esample & Ehost & _).
  fold T0 now ticks in Hticks, Ets, Esample, Ehost.
  destruct (StartIO_clock e0 g0 st g Hstart) as (_ & Ecomputed & _).
  split; [exact Ecomputed|].
  exists ts, ((now - T0) / ticks * kRightMic_BufferFrameSize).
  split; [exact Ets|]. split; [exact Esample|].
  rewrite Ehost. unfold kRightMic_BufferFrameSize, elapsed_matches_sample_rate.
  set (p := (now - T0) / ticks).
  split; [ring|].
  split.
  - intros Hexact. destruct (Z.eq_dec p 0) as [Hp | Hp]; [left; lia | right].
    apply (Z.mul_reg_l _ _ p Hp). lia.
  - intros [Hzero | Hexact]; [|nia].
    assert (p = 0) as -> by lia. lia.
Qed.

(** The Apple-silicon host: a period is 256000 ticks of 125/3 ns, exactly
    512 frames at 48000 Hz, and every pair returned is exact. *)
Lemma zero_timestamp_self_consistent_witness :
  host_ticks_per_period (sTimebaseInfo (initialized_globals (host_at 0)))
    = Some (sIO_HostTicksPerPeriod (running_since 1000)) /\
  exists ts samplePosition,
    RightMic_GetZeroTimeStamp (host_at (1000 + 3 * 256000 + 777)) (running_since 1000)
      = Some (kAudioHardwareNoError, ts) /\
    Float64_integer (outSampleTime ts) = Some samplePosition /\
    (outHostTime ts - 1000) * kRightMic_BufferFrameSize = samplePosition * 256000 /\
    elapsed_matches_sample_rate {| numer := 125; denom := 3 |} samplePosition
      (outHostTime ts - 1000).
Proof.
  destruct (zero_timestamp_self_consistent (host_at 1000)
              (host_at (1000 + 3 * 256000 + 777))
              (initialized_globals (host_at 0)) (running_since 1000)
              kAudioHardwareNoError host_at_fine (running_since_StartIO 1000))
    as (Hcomputed & ts & S & Ets & Esample & Hperiods & Hexact).
  - simpl. lia.
  - simpl. lia.
  - split; [exact Hcomputed|].
    exists ts, S. split; [exact Ets|]. split; [exact Esample|].
    rewrite running_since_ticks in Hperiods, Hexact.
    split; [exact Hperiods|].
    apply Hexact. right. reflexivity.
Defined.

(** C5 fails as stated ("exactly"): on an Intel host a tick is one
    nanosecond and a period of 512 / 48000 s is 10666666.67 ticks, which
    [StartIO] truncates to 10666666. One period after the start the pair is
    512 frames and 10666666 ns, but 512 frames at 48000 Hz last
    10666666.67 ns. Nor is the number of ticks always the period cut to
    whole ticks: with a tick of 1000/99 ns a period is exactly 1056000
    ticks, and the binary64 computation gives 1055999. *)
Lemma zero_timestamp_not_exact_on_intel :
  sIO_HostTicksPerPeriod (intel_running_since 0) = 10666666 /\
  (exists ts,
    RightMic_GetZeroTimeStamp (intel_host_at 10666666) (intel_running_since 0)
      = Some (kAudioHardwareNoError, ts) /\
    Float64_integer (outSampleTime ts) = Some 512 /\
    outHostTime ts - 0 = 10666666 /\
    ~ elapsed_matches_sample_rate {| numer := 1; denom := 1 |} 512 (outHostTime ts - 0)) /\
  host_ticks_per_period {| numer := 1000; denom := 99 |} = Some 1055999 /\
  1056000 * 48000 * 1000 = kRightMic_BufferFrameSize * 1000000000 * 99.
Proof.
  split; [vm_compute; reflexivity|]. split; [|split; vm_compute; reflexivity].
  eexists. split; [vm_compute; reflexivity|].
  split; [vm_compute; reflexivity|]. split; [vm_compute; reflexivity|].
  vm_compute. discriminate.
Qed.

(* ================================================================= *)
(** ** The divisor of the clock query *)

Lemma GetZeroTimeStamp_defined e g :
  0 < sIO_HostTicksPerPeriod g ->
  exists ts, RightMic_GetZeroTimeStamp e g = Some (kAudioHardwareNoError, ts).
Proof.
  intros H. unfold RightMic_GetZeroTimeStamp.
  destruct (Z.eqb_spec (sIO_HostTicksPerPeriod g) 0); [lia|].
  eexists. reflexivity.
Qed.

Lemma CloseSharedMemory_clock g :
  sIO_HostTicksPerPeriod (RightMic_CloseSharedMemory g) = sIO_HostTicksPerPeriod g /\
  sIO_StartHostTime (RightMic_CloseSharedMemory g) = sIO_StartHostTime g.
Proof. split; reflexivity. Qed.

Lemma after_reopen_clock e g :
  sIO_HostTicksPerPeriod (after_reopen e g) = sIO_HostTicksPerPeriod g /\
  sIO_StartHostTime (after_reopen e g) = sIO_StartHostTime g.
Proof.
  unfold after_reopen. destruct (Pointer_eqb _ _); [|auto].
  destruct (OpenSharedMemory_clock e g) as (-> & -> & _). auto.
Qed.

Lemma DoIOOperation_globals e g shm op n buf :
  io_globals (RightMic_DoIOOperation e g shm op n buf) = g \/
  io_globals (RightMic_DoIOOperation e g shm op n buf) = after_reopen e g.
Proof.
  destruct (Z.eq_dec op kAudioServerPlugInIOOperationReadInput) as [-> | Hne].
  - right. apply read_input_globals.
  - left. unfold RightMic_DoIOOperation.
    destruct (Z.eqb_spec op kAudioServerPlugInIOOperationReadInput);
      [contradiction | reflexivity].
Qed.

(** Only [StartIO] writes [sIO_HostTicksPerPeriod]. *)
Lemma step_keeps_ticks e c g shm g' shm' :
  is_StartIO c = false ->
  step e c g shm = Some (g', shm') ->
  sIO_HostTicksPerPeriod g' = sIO_HostTicksPerPeriod g.
Proof.
  intros Hc Hstep. destruct c; cbn [step] in Hstep; try discriminate Hc.
  - injection Hstep as <- _. reflexivity.
  - injection Hstep as <- _. reflexivity.
  - injection Hstep as <- _. unfold RightMic_RemoveDeviceClient. simpl.
    destruct (_ >? 0); reflexivity.
  - destruct (RightMic_SetPropertyData g inObjectID mSelector inDataSize inData)
      as [[st g1]|] eqn:E; [|discriminate].
    injection Hstep as <- _.
    unfold RightMic_SetPropertyData in E.
    repeat match type of E with
           | context [if ?b then _ else _] => destruct b
           | context [match ?o with Some _ => _ | None => _ end] => destruct o
           end; try discriminate; now injection E as _ <-.
  - injection Hstep as <- _. reflexivity.
  - destruct (RightMic_GetZeroTimeStamp e g); [|discriminate].
    now injection Hstep as <- _.
  - now injection Hstep as <- _.
  - cbv zeta in Hstep. destruct (io_status _); [|discriminate].
    injection Hstep as <- _.
    destruct (DoIOOperation_globals e g shm inOperationID inIOBufferFrameSize ioMainBuffer)
      as [-> | ->]; [reflexivity | apply after_reopen_clock].
Qed.

(** C9. [GetZeroTimeStamp] divides by [sIO_HostTicksPerPeriod]. Once
    [StartIO] has run on a valid timebase the divisor is strictly positive
    and every query is defined. Without it the divisor is the initial 0 and
    the query divides by zero; no other call of the interface writes the
    divisor. *)
Theorem divisor_positive_after_StartIO e0 g0 :
  valid_timebase (sTimebaseInfo g0) ->
  (exists g,
     RightMic_StartIO e0 g0 = Some (kAudioHardwareNoError, g) /\
     0 < sIO_HostTicksPerPeriod g /\
     forall e, exists ts,
       RightMic_GetZeroTimeStamp e g = Some (kAudioHardwareNoError, ts)) /\
  (forall e, RightMic_GetZeroTimeStamp e initial_globals = None) /\
  (forall e c g shm g' shm',
     is_StartIO c = false ->
     step e c g shm = Some (g', shm') ->
     sIO_HostTicksPerPeriod g' = sIO_HostTicksPerPeriod g).
Proof.
  intros Hvalid. split; [|split].
  - destruct (StartIO_defined e0 g0 Hvalid) as (g & Hstart).
    destruct (StartIO_clock e0 g0 _ g Hstart) as (_ & Eticks & _).
    destruct Hvalid as (Hn & Hd & Hle).
    destruct (host_ticks_per_period_lower (sTimebaseInfo g0) 1) as (t & Et & Ht);
      try lia.
    rewrite Et in Eticks. injection Eticks as Eticks.
    exists g. split; [exact Hstart|]. split; [lia|].
    intros e. apply GetZeroTimeStamp_defined. lia.
  - intros e. reflexivity.
  - apply step_keeps_ticks.
Qed.

Lemma divisor_positive_after_StartIO_witness :
  exists g,
    RightMic_StartIO (host_at 1000) (initialized_globals (host_at 0))
      = Some (kAudioHardwareNoError, g) /\
    0 < sIO_HostTicksPerPeriod g.
Proof.
  destruct (divisor_positive_after_StartIO (host_at 1000)
              (initialized_globals (host_at 0)))
    as ((g & Hstart & Hpos & _) & _).
  - unfold valid_timebase. simpl. lia.
  - exists g. split; assumption.
Defined.

(* ================================================================= *)
(** ** SetPropertyData *)

(** C8 does not hold of the code: a request for 48 kHz stereo linear PCM
    in packed 16-bit signed integers, which is not the driver's 32-bit
    float format, is answered with [kAudioHardwareNoError]. The check
    compares [mSampleRate], [mChannelsPerFrame] and [mFormatID] only. *)
Theorem SetPropertyData_accepts_integer_format g :
  RightMic_SetPropertyData g kRightMicObjectID_InputStream
    kAudioStreamPropertyVirtualFormat sizeof_AudioStreamBasicDescription
    (ASBDData int16_stereo_48k)
  = Some (kAudioHardwareNoError, g) /\
  mFormatFlags int16_stereo_48k <> mFormatFlags RightMic_ASBD /\
  mBitsPerChannel int16_stereo_48k <> mBitsPerChannel RightMic_ASBD.
Proof.
  split; [reflexivity|]. split; discriminate.
Qed.

(* ================================================================= *)
(** ** The property interface *)

Lemma one_of_In x l : one_of x l = true -> In x l.
Proof.
  unfold one_of. rewrite existsb_exists. intros (c & Hc & E).
  apply Z.eqb_eq in E. now subst.
Qed.

Lemma HasProperty_inv o s :
  RightMic_HasProperty o s = true ->
  (o = kRightMicObjectID_Plugin /\ In s plugin_properties) \/
  (o = kRightMicObjectID_Device /\ In s device_properties) \/
  (o = kRightMicObjectID_InputStream /\ In s stream_properties).
Proof.
  unfold RightMic_HasProperty.
  destruct (Z.eqb_spec o kRightMicObjectID_Plugin);
    [intros H; left; split; [assumption | now apply one_of_In]|].
  destruct (Z.eqb_spec o kRightMicObjectID_Device);
    [intros H; right; left; split; [assumption | now apply one_of_In]|].
  destruct (Z.eqb_spec o kRightMicObjectID_InputStream);
    [intros H; right; right; split; [assumption | now apply one_of_In]|].
  discriminate.
Qed.

Ltac differ := let E := fresh in intros E; vm_compute in E; discriminate E.

(** Every selector of a list, one goal each. *)
Ltac each_property H :=
  cbv [plugin_properties device_properties stream_properties In] in H;
  repeat (destruct H as [<- | H]); [.. | destruct H].

(** What [GetPropertyData] does, case by case: an unknown property; the
    translation of a UID; a stored value of the size that
    [GetPropertyDataSize] reports; or a size of 0 and no value. *)
Lemma GetPropertyData_cases g o s scope qsize q n :
  let r := RightMic_GetPropertyData g o s scope qsize q n in
  (RightMic_HasProperty o s = false /\
   r = property_error kAudioHardwareUnknownPropertyError /\
   RightMic_GetPropertyDataSize o s scope = (kAudioHardwareUnknownPropertyError, None)) \/
  (RightMic_HasProperty o s = true /\
   ((o = kRightMicObjectID_Plugin /\ s = kAudioPlugInPropertyTranslateUIDToDevice /\
     r = translate_UID_to_device qsize q /\
     RightMic_GetPropertyDataSize o s scope
       = (kAudioHardwareNoError, Some sizeof_AudioObjectID)) \/
    (exists v,
       (o <> kRightMicObjectID_Plugin \/ s <> kAudioPlugInPropertyTranslateUIDToDevice) /\
       r = put_property n (sizeof_value v) v /\
       RightMic_GetPropertyDataSize o s scope
         = (kAudioHardwareNoError, Some (sizeof_value v))) \/
    ((o <> kRightMicObjectID_Plugin \/ s <> kAudioPlugInPropertyTranslateUIDToDevice) /\
     r = property_size_only 0 /\
     RightMic_GetPropertyDataSize o s scope = (kAudioHardwareNoError, Some 0)))).
Proof.
  intros r. destruct (RightMic_HasProperty o s) eqn:Has.
  - right. split; [reflexivity|].
    subst r. unfold RightMic_GetPropertyData, RightMic_GetPropertyDataSize.
    generalize (translate_UID_to_device qsize q); intros tr.
    generalize (put_property n); intros put.
    generalize (sDeviceIsRunning g); intros running.
    generalize (input_or_global scope); intros inout.
    destruct (HasProperty_inv o s Has) as [[-> H] | [[-> H] | [-> H]]];
      clear Has; each_property H.
    all: destruct inout.
    all: first
      [ left; repeat split; vm_compute; reflexivity
      | right; left;
        lazymatch goal with
        | |- exists v, _ /\ ?lhs = _ /\ _ =>
            let l := eval vm_compute in lhs in
            lazymatch l with
            | _ _ ?v => exists v
            end
        end;
        split; [first [left; differ | right; differ]
               | split; vm_compute; reflexivity]
      | right; right;
        split; [first [left; differ | right; differ]
               | split; vm_compute; reflexivity] ].
  - left. split; [reflexivity|].
    split; [|unfold RightMic_GetPropertyDataSize; rewrite Has; reflexivity].
    subst r. revert Has.
    unfold RightMic_HasProperty, RightMic_GetPropertyData.
    destruct (o =? kRightMicObjectID_Plugin);
      [|destruct (o =? kRightMicObjectID_Device);
        [|destruct (o =? kRightMicObjectID_InputStream); [|reflexivity]]];
      cbv [one_of plugin_properties device_properties stream_properties existsb];
      intros H; rewrite !orb_false_iff in H;
      decompose [and] H; clear H;
      repeat match goal with
             | E : (s =? _) = false |- _ => try rewrite E; clear E
             end; reflexivity.
Qed.

Lemma sizeof_value_pos v : 0 < sizeof_value v.
Proof. destruct v; reflexivity. Qed.

Lemma put_property_spec n size v :
  (size <= n /\ put_property n size v = store_property size v) \/
  (n < size /\ put_property n size v = property_error kAudioHardwareBadPropertySizeError).
Proof.
  unfold put_property. destruct (Z.ltb_spec n size); [right | left]; split; auto; lia.
Qed.

Lemma translate_UID_to_device_spec qsize q :
  (exists uid, q = Some uid /\ sizeof_CFStringRef <= qsize /\
     translate_UID_to_device qsize q =
     store_property sizeof_AudioObjectID
       (UInt32Value (if String.eqb uid kRightMic_DeviceUID
                     then kRightMicObjectID_Device else kAudioObjectUnknown))) \/
  ((q = None \/ qsize < sizeof_CFStringRef) /\
   translate_UID_to_device qsize q = property_error kAudioHardwareBadPropertySizeError).
Proof.
  unfold translate_UID_to_device. destruct q as [uid|]; [|right; auto].
  destruct (Z.ltb_spec qsize sizeof_CFStringRef); [right; auto|].
  left. exists uid. auto.
Qed.

(** One case of [GetPropertyData], evaluated. *)
Ltac evaluate_property :=
  unfold RightMic_GetPropertyData;
  match goal with
  | |- context [put_property ?n] => generalize (put_property n); intro
  end;
  vm_compute; reflexivity.

Lemma GetPropertyData_DeviceIsRunning g scope qsize q n :
  RightMic_GetPropertyData g kRightMicObjectID_Device
    kAudioDevicePropertyDeviceIsRunning scope qsize q n
  = put_property n sizeof_UInt32 (UInt32Value (if sDeviceIsRunning g then 1 else 0)).
Proof.
  unfold RightMic_GetPropertyData.
  generalize (sDeviceIsRunning g); intro.
  generalize (put_property n); intro. vm_compute. reflexivity.
Qed.

Lemma GetPropertyData_ZeroTimeStampPeriod g scope qsize q n :
  RightMic_GetPropertyData g kRightMicObjectID_Device
    kAudioDevicePropertyZeroTimeStampPeriod scope qsize q n
  = put_property n sizeof_UInt32 (UInt32Value kRightMic_BufferFrameSize).
Proof. evaluate_property. Qed.

Lemma GetPropertyData_DeviceUID g scope qsize q n :
  RightMic_GetPropertyData g kRightMicObjectID_Device
    kAudioDevicePropertyDeviceUID scope qsize q n
  = put_property n sizeof_CFStringRef (CFStringValue kRightMic_DeviceUID).
Proof. evaluate_property. Qed.

Lemma GetPropertyData_TranslateUIDToDevice g scope qsize q n :
  RightMic_GetPropertyData g kRightMicObjectID_Plugin
    kAudioPlugInPropertyTranslateUIDToDevice scope qsize q n
  = translate_UID_to_device qsize q.
Proof.
  unfold RightMic_GetPropertyData.
  generalize (translate_UID_to_device qsize q); intro.
  generalize (put_property n); intro. vm_compute. reflexivity.
Qed.

Lemma GetPropertyData_NominalSampleRate g scope qsize q n :
  RightMic_GetPropertyData g kRightMicObjectID_Device
    kAudioDevicePropertyNominalSampleRate scope qsize q n
  = put_property n sizeof_Float64 (Float64Value kRightMic_SampleRate).
Proof. evaluate_property. Qed.

Lemma GetPropertyData_VirtualFormat g scope qsize q n :
  RightMic_GetPropertyData g kRightMicObjectID_InputStream
    kAudioStreamPropertyVirtualFormat scope qsize q n
  = put_property n sizeof_AudioStreamBasicDescription (ASBDValue RightMic_ASBD).
Proof. evaluate_property. Qed.

Lemma GetPropertyData_PhysicalFormat g scope qsize q n :
  RightMic_GetPropertyData g kRightMicObjectID_InputStream
    kAudioStreamPropertyPhysicalFormat scope qsize q n
  = put_property n sizeof_AudioStreamBasicDescription (ASBDValue RightMic_ASBD).
Proof. evaluate_property. Qed.

(** The settable properties are three. *)
Lemma IsPropertySettable_true o s :
  RightMic_IsPropertySettable o s = (kAudioHardwareNoError, Some true) <->
  (o = kRightMicObjectID_Device /\ s = kAudioDevicePropertyNominalSampleRate) \/
  (o = kRightMicObjectID_InputStream /\
   (s = kAudioStreamPropertyVirtualFormat \/ s = kAudioStreamPropertyPhysicalFormat)).
Proof.
  split.
  - unfold RightMic_IsPropertySettable.
    destruct (RightMic_HasProperty o s); [|discriminate]. cbn [negb].
    destruct (Z.eqb_spec o kRightMicObjectID_Device) as [-> | _].
    + destruct (Z.eqb_spec s kAudioDevicePropertyNominalSampleRate); [auto | discriminate].
    + destruct (Z.eqb_spec o kRightMicObjectID_InputStream) as [-> | _]; [|discriminate].
      destruct (Z.eqb_spec s kAudioStreamPropertyVirtualFormat); [auto|].
      destruct (Z.eqb_spec s kAudioStreamPropertyPhysicalFormat); [auto | discriminate].
  - intros [[-> ->] | [-> [-> | ->]]]; vm_compute; reflexivity.
Qed.

(** X1. [GetPropertyDataSize] answers exactly the properties that
    [HasProperty] advertises: each of them gets a size, so the final
    [return kAudioHardwareUnknownPropertyError] of the function is never
    reached; everything else is an unknown property and no size is
    written. *)
Theorem GetPropertyDataSize_answers_what_HasProperty_advertises o s scope :
  (RightMic_HasProperty o s = true /\
   exists size, 0 <= size /\
     RightMic_GetPropertyDataSize o s scope = (kAudioHardwareNoError, Some size)) \/
  (RightMic_HasProperty o s = false /\
   RightMic_GetPropertyDataSize o s scope = (kAudioHardwareUnknownPropertyError, None)).
Proof.
  destruct (GetPropertyData_cases initial_globals o s scope 0 None 0)
    as [(Has & _ & E) | (Has & [(_ & _ & _ & E) | [(v & _ & _ & E) | (_ & _ & E)]])].
  - right. auto.
  - left. split; [assumption|]. eexists. split; [|exact E]. discriminate.
  - left. split; [assumption|]. eexists. split; [|exact E].
    pose proof (sizeof_value_pos v). lia.
  - left. split; [assumption|]. eexists. split; [|exact E]. lia.
Qed.

(** X2. [GetPropertyData] does not ask [HasProperty], but its switches
    answer the same properties: the status is the unknown-property error
    exactly for the properties [HasProperty] does not advertise, and then
    nothing is written. *)
Theorem GetPropertyData_knows_what_HasProperty_advertises g o s scope qsize q n :
  let r := RightMic_GetPropertyData g o s scope qsize q n in
  (prop_status r = kAudioHardwareUnknownPropertyError
   <-> RightMic_HasProperty o s = false) /\
  (RightMic_HasProperty o s = false ->
   prop_outDataSize r = None /\ prop_outData r = None).
Proof.
  intros r.
  destruct (GetPropertyData_cases g o s scope qsize q n)
    as [(Has & E & _) | (Has & Hcase)]; fold r in E || fold r in Hcase.
  - rewrite E, Has. repeat split; reflexivity.
  - rewrite Has. split; [split; [|discriminate] | discriminate].
    intros Hst. exfalso.
    destruct Hcase as [(_ & _ & E & _) | [(v & _ & E & _) | (_ & E & _)]];
      rewrite E in Hst.
    + destruct (translate_UID_to_device_spec qsize q) as [(uid & _ & _ & T) | (_ & T)];
        rewrite T in Hst; discriminate.
    + destruct (put_property_spec n (sizeof_value v) v) as [(_ & T) | (_ & T)];
        rewrite T in Hst; discriminate.
    + discriminate.
Qed.

(** X3. Except for [kAudioPlugInPropertyTranslateUIDToDevice], whatever
    [GetPropertyData] stores at [outData] fits into the [inDataSize] bytes
    the caller provided, and [*outDataSize] is the number of bytes
    stored. *)
Theorem GetPropertyData_stores_within_inDataSize g o s scope qsize q n v :
  let r := RightMic_GetPropertyData g o s scope qsize q n in
  prop_outData r = Some v ->
  o <> kRightMicObjectID_Plugin \/ s <> kAudioPlugInPropertyTranslateUIDToDevice ->
  sizeof_value v <= n /\
  prop_outDataSize r = Some (sizeof_value v) /\
  prop_status r = kAudioHardwareNoError.
Proof.
  intros r Hv Hne.
  destruct (GetPropertyData_cases g o s scope qsize q n)
    as [(_ & E & _) | (_ & [(-> & -> & _) | [(w & _ & E & _) | (_ & E & _)]])];
    try fold r in E.
  - rewrite E in Hv. discriminate.
  - destruct Hne; contradiction.
  - rewrite E in *.
    destruct (put_property_spec n (sizeof_value w) w) as [(Hle & T) | (_ & T)];
      rewrite T in *; [|discriminate].
    injection Hv as <-. auto.
  - rewrite E in Hv. discriminate.
Qed.

Lemma GetPropertyData_stores_within_inDataSize_witness :
  sizeof_value (Float64Value kRightMic_SampleRate) <= 8 /\
  prop_outDataSize
    (RightMic_GetPropertyData initial_globals kRightMicObjectID_Device
       kAudioDevicePropertyNominalSampleRate kAudioObjectPropertyScopeGlobal 0 None 8)
  = Some (sizeof_value (Float64Value kRightMic_SampleRate)) /\
  prop_status
    (RightMic_GetPropertyData initial_globals kRightMicObjectID_Device
       kAudioDevicePropertyNominalSampleRate kAudioObjectPropertyScopeGlobal 0 None 8)
  = kAudioHardwareNoError.
Proof.
  apply (GetPropertyData_stores_within_inDataSize initial_globals
           kRightMicObjectID_Device kAudioDevicePropertyNominalSampleRate
           kAudioObjectPropertyScopeGlobal 0 None 8
           (Float64Value kRightMic_SampleRate)).
  - vm_compute. reflexivity.
  - left. vm_compute. discriminate.
Defined.

(** X4. The case [kAudioPlugInPropertyTranslateUIDToDevice] checks the
    qualifier but not [inDataSize]: with a qualifier of sufficient size it
    stores an [AudioObjectID] for every [inDataSize], also 0. It answers
    the device for the device's UID and [kAudioObjectUnknown] for every
    other string. *)
Theorem TranslateUIDToDevice_ignores_inDataSize g scope qsize uid n :
  sizeof_CFStringRef <= qsize ->
  RightMic_GetPropertyData g kRightMicObjectID_Plugin
    kAudioPlugInPropertyTranslateUIDToDevice scope qsize (Some uid) n
  = store_property sizeof_AudioObjectID
      (UInt32Value (if String.eqb uid kRightMic_DeviceUID
                    then kRightMicObjectID_Device else kAudioObjectUnknown)).
Proof.
  intros Hq. rewrite GetPropertyData_TranslateUIDToDevice.
  unfold translate_UID_to_device.
  destruct (Z.ltb_spec qsize sizeof_CFStringRef); [lia | reflexivity].
Qed.

Lemma TranslateUIDToDevice_ignores_inDataSize_witness :
  RightMic_GetPropertyData initial_globals kRightMicObjectID_Plugin
    kAudioPlugInPropertyTranslateUIDToDevice kAudioObjectPropertyScopeGlobal 8
    (Some kRightMic_ModelUID) 0
  = store_property sizeof_AudioObjectID
      (UInt32Value (if String.eqb kRightMic_ModelUID kRightMic_DeviceUID
                    then kRightMicObjectID_Device else kAudioObjectUnknown)).
Proof.
  apply (TranslateUIDToDevice_ignores_inDataSize initial_globals
           kAudioObjectPropertyScopeGlobal 8 kRightMic_ModelUID 0).
  vm_compute. discriminate.
Defined.

(** X5. The two-call protocol of the host. When [GetPropertyDataSize]
    reports a size for a property (other than the UID translation), then
    [GetPropertyData] with at least that many bytes succeeds, reports the
    same size and, unless the size is 0, stores a value of that size; with
    fewer bytes it returns the bad-size error and writes nothing. *)
Theorem GetPropertyData_follows_GetPropertyDataSize g o s scope qsize q n size :
  RightMic_GetPropertyDataSize o s scope = (kAudioHardwareNoError, Some size) ->
  o <> kRightMicObjectID_Plugin \/ s <> kAudioPlugInPropertyTranslateUIDToDevice ->
  0 <= n ->
  let r := RightMic_GetPropertyData g o s scope qsize q n in
  (size <= n ->
   prop_status r = kAudioHardwareNoError /\
   prop_outDataSize r = Some size /\
   (0 < size -> exists v, prop_outData r = Some v /\ sizeof_value v = size)) /\
  (n < size -> r = property_error kAudioHardwareBadPropertySizeError).
Proof.
  intros Hsize Hne Hn r.
  destruct (GetPropertyData_cases g o s scope qsize q n)
    as [(_ & _ & E) | (_ & [(-> & -> & _) | [(v & _ & E & Es) | (_ & E & Es)]])];
    try fold r in E.
  - rewrite E in Hsize. discriminate.
  - destruct Hne; contradiction.
  - rewrite Es in Hsize. injection Hsize as <-. rewrite E.
    destruct (put_property_spec n (sizeof_value v) v) as [(Hle & T) | (Hlt & T)];
      rewrite T; (split; [|intros; (reflexivity || lia)]).
    + intros _. repeat split. intros _. exists v. auto.
    + intros Hle. lia.
  - rewrite Es in Hsize. injection Hsize as <-. rewrite E.
    split; [|lia]. intros _. repeat split. lia.
Qed.

Lemma GetPropertyData_follows_GetPropertyDataSize_witness :
  let r := RightMic_GetPropertyData initial_globals kRightMicObjectID_InputStream
             kAudioStreamPropertyVirtualFormat kAudioObjectPropertyScopeGlobal 0 None 40 in
  (40 <= 40 ->
   prop_status r = kAudioHardwareNoError /\
   prop_outDataSize r = Some 40 /\
   (0 < 40 -> exists v, prop_outData r = Some v /\ sizeof_value v = 40)) /\
  (40 < 40 -> r = property_error kAudioHardwareBadPropertySizeError).
Proof.
  apply (GetPropertyData_follows_GetPropertyDataSize initial_globals
           kRightMicObjectID_InputStream kAudioStreamPropertyVirtualFormat
           kAudioObjectPropertyScopeGlobal 0 None 40 40).
  - vm_compute. reflexivity.
  - left. vm_compute. discriminate.
  - lia.
Defined.

(** X6. Reading a settable property and writing the value back. For each
    property that [IsPropertySettable] reports as settable, the value
    [GetPropertyData] stores is one that [SetPropertyData] accepts, and the
    statics are unchanged. *)
Theorem SetPropertyData_accepts_what_GetPropertyData_stores g o s scope qsize q n v :
  RightMic_IsPropertySettable o s = (kAudioHardwareNoError, Some true) ->
  prop_outData (RightMic_GetPropertyData g o s scope qsize q n) = Some v ->
  exists d,
    as_PropertyData v = Some d /\
    RightMic_SetPropertyData g o s (sizeof_value v) d = Some (kAudioHardwareNoError, g).
Proof.
  intros Hset Hv. apply IsPropertySettable_true in Hset.
  destruct Hset as [[-> ->] | [-> [-> | ->]]].
  - rewrite GetPropertyData_NominalSampleRate in Hv.
    destruct (put_property_spec n sizeof_Float64 (Float64Value kRightMic_SampleRate))
      as [(_ & T) | (_ & T)]; rewrite T in Hv; [|discriminate].
    injection Hv as <-. eexists. split; [reflexivity|]. vm_compute. reflexivity.
  - rewrite GetPropertyData_VirtualFormat in Hv.
    destruct (put_property_spec n sizeof_AudioStreamBasicDescription (ASBDValue RightMic_ASBD))
      as [(_ & T) | (_ & T)]; rewrite T in Hv; [|discriminate].
    injection Hv as <-. eexists. split; [reflexivity|]. vm_compute. reflexivity.
  - rewrite GetPropertyData_PhysicalFormat in Hv.
    destruct (put_property_spec n sizeof_AudioStreamBasicDescription (ASBDValue RightMic_ASBD))
      as [(_ & T) | (_ & T)]; rewrite T in Hv; [|discriminate].
    injection Hv as <-. eexists. split; [reflexivity|]. vm_compute. reflexivity.
Qed.

Lemma SetPropertyData_accepts_what_GetPropertyData_stores_witness :
  exists d,
    as_PropertyData (ASBDValue RightMic_ASBD) = Some d /\
    RightMic_SetPropertyData mapped_globals kRightMicObjectID_InputStream
      kAudioStreamPropertyPhysicalFormat (sizeof_value (ASBDValue RightMic_ASBD)) d
    = Some (kAudioHardwareNoError, mapped_globals).
Proof.
  apply (SetPropertyData_accepts_what_GetPropertyData_stores mapped_globals
           kRightMicObjectID_InputStream kAudioStreamPropertyPhysicalFormat
           kAudioObjectPropertyScopeInput 0 None 40 (ASBDValue RightMic_ASBD)).
  - vm_compute. reflexivity.
  - vm_compute. reflexivity.
Defined.

(** X7. [IsPropertySettable] and [SetPropertyData] agree: a defined
    [SetPropertyData] call answers the unknown-property error exactly for
    the properties that [IsPropertySettable] does not report as settable;
    and it never changes the statics. *)
Theorem SetPropertyData_handles_what_IsPropertySettable_reports g o s n d st g' :
  RightMic_SetPropertyData g o s n d = Some (st, g') ->
  (st = kAudioHardwareUnknownPropertyError
   <-> RightMic_IsPropertySettable o s <> (kAudioHardwareNoError, Some true)) /\
  g' = g.
Proof.
  rewrite IsPropertySettable_true. unfold RightMic_SetPropertyData.
  destruct (Z.eqb_spec o kRightMicObjectID_Device) as [-> | Ho].
  - destruct (Z.eqb_spec s kAudioDevicePropertyNominalSampleRate) as [-> | Hs].
    + destruct (n <? sizeof_Float64); [|destruct (Float64_ne _ _)];
        intros [= <- <-]; (split; [|reflexivity]);
        (split; [discriminate | intros H; exfalso; apply H; auto]).
    + intros [= <- <-]. split; [|reflexivity]. split; [|reflexivity].
      intros _ [[_ E] | [E _]]; [contradiction | vm_compute in E; discriminate].
  - destruct (Z.eqb_spec o kRightMicObjectID_InputStream) as [-> | Ho'].
    + destruct (Z.eqb_spec s kAudioStreamPropertyVirtualFormat) as [-> | Hv];
        [|destruct (Z.eqb_spec s kAudioStreamPropertyPhysicalFormat) as [-> | Hp]];
        cbn [orb].
      * destruct (n <? _); [|destruct (read_ASBD d); [destruct (_ || _)|discriminate]];
          intros [= <- <-]; (split; [|reflexivity]);
          (split; [discriminate | intros H; exfalso; apply H; auto]).
      * destruct (n <? _); [|destruct (read_ASBD d); [destruct (_ || _)|discriminate]];
          intros [= <- <-]; (split; [|reflexivity]);
          (split; [discriminate | intros H; exfalso; apply H; auto]).
      * intros [= <- <-]. split; [|reflexivity]. split; [|reflexivity].
        intros _ [[E _] | [_ [E | E]]]; [vm_compute in E; discriminate | |];
          contradiction.
    + intros [= <- <-]. split; [|reflexivity]. split; [|reflexivity].
      intros _ [[E _] | [E _]]; contradiction.
Qed.

Lemma SetPropertyData_handles_what_IsPropertySettable_reports_witness :
  (kAudioHardwareUnknownPropertyError = kAudioHardwareUnknownPropertyError
   <-> RightMic_IsPropertySettable kRightMicObjectID_Device kAudioDevicePropertyLatency
       <> (kAudioHardwareNoError, Some true)) /\
  initial_globals = initial_globals.
Proof.
  apply (SetPropertyData_handles_what_IsPropertySettable_reports initial_globals
           kRightMicObjectID_Device kAudioDevicePropertyLatency 4
           (Float64Data kRightMic_SampleRate)).
  vm_compute. reflexivity.
Defined.

Lemma put_property_enough n size v :
  size <= n -> put_property n size v = store_property size v.
Proof.
  intros H. destruct (put_property_spec n size v) as [(_ & E) | (Hlt & _)];
    [exact E | lia].
Qed.

Lemma StopIO_not_running g : sDeviceIsRunning (snd (RightMic_StopIO g)) = false.
Proof. reflexivity. Qed.

(** X8. The [kAudioDevicePropertyDeviceIsRunning] property follows
    [StartIO] and [StopIO]: it reads 1 after every [StartIO] that returns,
    0 after [StopIO], and 0 before the first call. *)
Theorem DeviceIsRunning_follows_StartIO_and_StopIO e g scope qsize q n :
  sizeof_UInt32 <= n ->
  let reported g :=
    prop_outData (RightMic_GetPropertyData g kRightMicObjectID_Device
                    kAudioDevicePropertyDeviceIsRunning scope qsize q n) in
  (forall st g', RightMic_StartIO e g = Some (st, g') ->
     reported g' = Some (UInt32Value 1)) /\
  reported (snd (RightMic_StopIO g)) = Some (UInt32Value 0) /\
  reported initial_globals = Some (UInt32Value 0).
Proof.
  intros Hn reported. subst reported. cbv beta.
  rewrite !GetPropertyData_DeviceIsRunning, !put_property_enough by exact Hn.
  split; [|split].
  - intros st g' Hstart.
    destruct (StartIO_clock e g st g' Hstart) as (_ & _ & _ & Hrun & _).
    rewrite GetPropertyData_DeviceIsRunning, put_property_enough by exact Hn.
    rewrite Hrun. reflexivity.
  - rewrite StopIO_not_running. reflexivity.
  - reflexivity.
Qed.

Lemma DeviceIsRunning_follows_StartIO_and_StopIO_witness :
  let reported g :=
    prop_outData (RightMic_GetPropertyData g kRightMicObjectID_Device
                    kAudioDevicePropertyDeviceIsRunning
                    kAudioObjectPropertyScopeGlobal 0 None 4) in
  (forall st g',
     RightMic_StartIO (host_at 1000) (initialized_globals (host_at 0)) = Some (st, g') ->
     reported g' = Some (UInt32Value 1)) /\
  reported (snd (RightMic_StopIO (initialized_globals (host_at 0))))
    = Some (UInt32Value 0) /\
  reported initial_globals = Some (UInt32Value 0).
Proof.
  apply (DeviceIsRunning_follows_StartIO_and_StopIO (host_at 1000)
           (initialized_globals (host_at 0)) kAudioObjectPropertyScopeGlobal 0 None 4).
  vm_compute. discriminate.
Defined.

(** X9. The period the device reports as
    [kAudioDevicePropertyZeroTimeStampPeriod] is the period of its clock:
    after [StartIO] on a fine timebase, the sample time of every zero
    timestamp is a whole multiple of the reported period. *)
Theorem ZeroTimeStampPeriod_is_the_period_of_the_clock e0 e g0 g st scope qsize q :
  fine_timebase (sTimebaseInfo g0) ->
  RightMic_StartIO e0 g0 = Some (st, g) ->
  0 <= mach_absolute_time e0 <= mach_absolute_time e ->
  mach_absolute_time e < 2 ^ 64 ->
  exists period ts periods,
    prop_outData (RightMic_GetPropertyData g kRightMicObjectID_Device
                    kAudioDevicePropertyZeroTimeStampPeriod scope qsize q sizeof_UInt32)
      = Some (UInt32Value period) /\
    RightMic_GetZeroTimeStamp e g = Some (kAudioHardwareNoError, ts) /\
    0 <= periods /\
    Float64_integer (outSampleTime ts) = Some (periods * period).
Proof.
  intros Hfine Hstart Ht Hnow.
  destruct (GetZeroTimeStamp_after_StartIO e0 e g0 g st Hfine Hstart Ht Hnow)
    as (Hticks & ts & Ets & Esample & _).
  exists kRightMic_BufferFrameSize, ts,
    ((mach_absolute_time e - mach_absolute_time e0) / sIO_HostTicksPerPeriod g).
  rewrite GetPropertyData_ZeroTimeStampPeriod, put_property_enough by reflexivity.
  split; [reflexivity|]. split; [exact Ets|]. split; [|exact Esample].
  apply Z.div_pos; lia.
Qed.

Lemma ZeroTimeStampPeriod_is_the_period_of_the_clock_witness :
  exists period ts periods,
    prop_outData (RightMic_GetPropertyData (running_since 1000) kRightMicObjectID_Device
                    kAudioDevicePropertyZeroTimeStampPeriod
                    kAudioObjectPropertyScopeGlobal 0 None sizeof_UInt32)
      = Some (UInt32Value period) /\
    RightMic_GetZeroTimeStamp (host_at (1000 + 3 * 256000 + 777)) (running_since 1000)
      = Some (kAudioHardwareNoError, ts) /\
    0 <= periods /\
    Float64_integer (outSampleTime ts) = Some (periods * period).
Proof.
  apply (ZeroTimeStampPeriod_is_the_period_of_the_clock (host_at 1000)
           (host_at (1000 + 3 * 256000 + 777)) (initialized_globals (host_at 0))
           (running_since 1000) kAudioHardwareNoError
           kAudioObjectPropertyScopeGlobal 0 None
           host_at_fine (running_since_StartIO 1000)).
  - cbn [mach_absolute_time host_at]. lia.
  - cbn [mach_absolute_time host_at]. lia.
Defined.

(** X10. The UID the device reports as [kAudioDevicePropertyDeviceUID] is
    the one [kAudioPlugInPropertyTranslateUIDToDevice] translates to the
    device; every other string translates to [kAudioObjectUnknown]. *)
Theorem DeviceUID_translates_back_to_the_device g scope scope' qsize n n' :
  sizeof_CFStringRef <= n -> sizeof_CFStringRef <= qsize ->
  exists uid,
    prop_outData (RightMic_GetPropertyData g kRightMicObjectID_Device
                    kAudioDevicePropertyDeviceUID scope 0 None n)
      = Some (CFStringValue uid) /\
    prop_outData (RightMic_GetPropertyData g kRightMicObjectID_Plugin
                    kAudioPlugInPropertyTranslateUIDToDevice scope' qsize (Some uid) n')
      = Some (UInt32Value kRightMicObjectID_Device) /\
    forall other, other <> uid ->
      prop_outData (RightMic_GetPropertyData g kRightMicObjectID_Plugin
                      kAudioPlugInPropertyTranslateUIDToDevice scope' qsize (Some other) n')
        = Some (UInt32Value kAudioObjectUnknown).
Proof.
  intros Hn Hq. exists kRightMic_DeviceUID.
  rewrite GetPropertyData_DeviceUID, put_property_enough by exact Hn.
  split; [reflexivity|].
  assert (Htr : forall uid,
             translate_UID_to_device qsize (Some uid) =
             store_property sizeof_AudioObjectID
               (UInt32Value (if String.eqb uid kRightMic_DeviceUID
                             then kRightMicObjectID_Device else kAudioObjectUnknown))).
  { intros uid. unfold translate_UID_to_device.
    destruct (Z.ltb_spec qsize sizeof_CFStringRef); [lia | reflexivity]. }
  split.
  - rewrite GetPropertyData_TranslateUIDToDevice, Htr, String.eqb_refl. reflexivity.
  - intros other Hne.
    rewrite GetPropertyData_TranslateUIDToDevice, Htr.
    apply String.eqb_neq in Hne. rewrite Hne. reflexivity.
Qed.

Lemma DeviceUID_translates_back_to_the_device_witness :
  exists uid,
    prop_outData (RightMic_GetPropertyData initial_globals kRightMicObjectID_Device
                    kAudioDevicePropertyDeviceUID kAudioObjectPropertyScopeGlobal 0 None 8)
      = Some (CFStringValue uid) /\
    prop_outData (RightMic_GetPropertyData initial_globals kRightMicObjectID_Plugin
                    kAudioPlugInPropertyTranslateUIDToDevice
                    kAudioObjectPropertyScopeGlobal 8 (Some uid) 4)
      = Some (UInt32Value kRightMicObjectID_Device) /\
    forall other, other <> uid ->
      prop_outData (RightMic_GetPropertyData initial_globals kRightMicObjectID_Plugin
                      kAudioPlugInPropertyTranslateUIDToDevice
                      kAudioObjectPropertyScopeGlobal 8 (Some other) 4)
        = Some (UInt32Value kAudioObjectUnknown).
Proof.
  apply (DeviceUID_translates_back_to_the_device initial_globals
           kAudioObjectPropertyScopeGlobal kAudioObjectPropertyScopeGlobal 8 8 4).
  - vm_compute. discriminate.
  - vm_compute. discriminate.
Defined.

(* ================================================================= *)
(** ** Reference and client counts *)

Lemma set_sRefCount_same g : set_sRefCount (sRefCount g) g = g.
Proof. destruct g; reflexivity. Qed.

Lemma set_sClientCount_same g : set_sClientCount (sClientCount g) g = g.
Proof. destruct g; reflexivity. Qed.

Lemma Release_AddRef g :
  0 <= sRefCount g < 2 ^ 32 - 1 ->
  snd (RightMic_Release (snd (RightMic_AddRef g))) = g.
Proof.
  intros H. unfold RightMic_Release, RightMic_AddRef. cbn [snd].
  cbn [sRefCount set_sRefCount].
  rewrite (wrap32_small (sRefCount g + 1)) by lia.
  destruct (Z.gtb_spec (sRefCount g + 1) 0); [|lia].
  unfold set_sRefCount at 1. cbn [set_sRefCount sRefCount sDeviceIsRunning sClientCount
    sTimebaseInfo sIO_StartHostTime sIO_HostTicksPerPeriod sShm_FD sShm_Ptr sRingHeader
    sRingData syscalls].
  replace (sRefCount g + 1 - 1) with (sRefCount g) by lia.
  rewrite wrap32_small by lia. apply set_sRefCount_same.
Qed.

Lemma repeat_call_last n f g : repeat_call (S n) f g = f (repeat_call n f g).
Proof.
  revert g. induction n as [|n IH]; intros g; [reflexivity|].
  change (repeat_call (S (S n)) f g) with (repeat_call (S n) f (f g)).
  rewrite IH. reflexivity.
Qed.

Lemma sRefCount_AddRef_times n g :
  0 <= sRefCount g -> sRefCount g + Z.of_nat n < 2 ^ 32 ->
  sRefCount (AddRef_times n g) = sRefCount g + Z.of_nat n.
Proof.
  unfold AddRef_times. induction n as [|n IH]; intros H0 H.
  - cbn [repeat_call]. lia.
  - rewrite repeat_call_last.
    unfold RightMic_AddRef at 1. cbn [snd set_sRefCount sRefCount].
    rewrite IH by lia. rewrite wrap32_small by lia. lia.
Qed.

Lemma sRefCount_Release_times n g :
  0 <= sRefCount g < 2 ^ 32 ->
  sRefCount (Release_times n g) = Z.max 0 (sRefCount g - Z.of_nat n).
Proof.
  unfold Release_times. induction n as [|n IH]; intros H.
  - cbn [repeat_call]. lia.
  - specialize (IH H). rewrite repeat_call_last.
    set (g' := repeat_call n (fun g => snd (RightMic_Release g)) g) in *.
    unfold RightMic_Release. cbn [snd].
    destruct (Z.gtb_spec (sRefCount g') 0) as [Hpos | Hzero].
    + cbn [set_sRefCount sRefCount]. rewrite IH in *. rewrite wrap32_small; lia.
    + rewrite IH in *. lia.
Qed.

(** X11. The reference count. [n] calls of [Release] undo [n] calls of
    [AddRef] as long as the count stays below 2^32; [Release] never takes
    the count below 0, however often it is called; and one [AddRef] at
    [2^32 - 1] wraps the count to 0. *)
Theorem Release_undoes_AddRef n m g :
  0 <= sRefCount g ->
  sRefCount g + Z.of_nat n < 2 ^ 32 ->
  Release_times n (AddRef_times n g) = g /\
  sRefCount (AddRef_times n g) = sRefCount g + Z.of_nat n /\
  sRefCount (Release_times m g) = Z.max 0 (sRefCount g - Z.of_nat m) /\
  (sRefCount g = 2 ^ 32 - 1 -> fst (RightMic_AddRef g) = 0).
Proof.
  intros H0 H. split; [|split; [|split]].
  - revert g H0 H. induction n as [|n IH]; intros g H0 H; [reflexivity|].
    unfold AddRef_times. rewrite repeat_call_last. fold (AddRef_times n g).
    unfold Release_times. cbn [repeat_call]. fold (Release_times n).
    rewrite Release_AddRef.
    + apply IH; lia.
    + rewrite sRefCount_AddRef_times; lia.
  - apply sRefCount_AddRef_times; assumption.
  - apply sRefCount_Release_times. lia.
  - intros E. unfold RightMic_AddRef. cbn [fst set_sRefCount sRefCount].
    rewrite E. reflexivity.
Qed.

Lemma Release_undoes_AddRef_witness :
  Release_times 3 (AddRef_times 3 (snd (RightMic_Create kAudioServerPlugInTypeUUID initial_globals)))
    = snd (RightMic_Create kAudioServerPlugInTypeUUID initial_globals) /\
  sRefCount (AddRef_times 3 (snd (RightMic_Create kAudioServerPlugInTypeUUID initial_globals)))
    = sRefCount (snd (RightMic_Create kAudioServerPlugInTypeUUID initial_globals))
      + Z.of_nat 3 /\
  sRefCount (Release_times 5 (snd (RightMic_Create kAudioServerPlugInTypeUUID initial_globals)))
    = Z.max 0 (sRefCount (snd (RightMic_Create kAudioServerPlugInTypeUUID initial_globals))
               - Z.of_nat 5) /\
  (sRefCount (snd (RightMic_Create kAudioServerPlugInTypeUUID initial_globals)) = 2 ^ 32 - 1 ->
   fst (RightMic_AddRef (snd (RightMic_Create kAudioServerPlugInTypeUUID initial_globals))) = 0).
Proof.
  apply (Release_undoes_AddRef 3 5
           (snd (RightMic_Create kAudioServerPlugInTypeUUID initial_globals))).
  - vm_compute. discriminate.
  - vm_compute. reflexivity.
Defined.

(** X12. A successful [QueryInterface] counts a reference exactly as
    [AddRef] does and hands out the driver; for any other interface it
    answers [E_NOINTERFACE], hands out NULL and leaves the count alone. The
    factory hands out the interface, with a count of 1, for the plug-in
    type only. *)
Theorem QueryInterface_counts_a_reference uuid g :
  (uuid = IUnknownUUID \/ uuid = kAudioServerPlugInDriverInterfaceUUID ->
   RightMic_QueryInterface uuid g = (S_OK, true, snd (RightMic_AddRef g))) /\
  (uuid <> IUnknownUUID /\ uuid <> kAudioServerPlugInDriverInterfaceUUID ->
   RightMic_QueryInterface uuid g = (E_NOINTERFACE, false, g)) /\
  (uuid = kAudioServerPlugInTypeUUID ->
   fst (RightMic_Create uuid g) = true /\
   sRefCount (snd (RightMic_Create uuid g)) = 1) /\
  (uuid <> kAudioServerPlugInTypeUUID -> RightMic_Create uuid g = (false, g)).
Proof.
  unfold RightMic_QueryInterface, RightMic_Create, RightMic_AddRef.
  split; [|split; [|split]].
  - intros [-> | ->]; reflexivity.
  - intros [H1 H2].
    destruct (Z.eqb_spec uuid IUnknownUUID); [contradiction|].
    destruct (Z.eqb_spec uuid kAudioServerPlugInDriverInterfaceUUID); [contradiction|].
    reflexivity.
  - intros ->. split; reflexivity.
  - intros H. destruct (Z.eqb_spec uuid kAudioServerPlugInTypeUUID); [contradiction|].
    reflexivity.
Qed.

Lemma Remove_AddDeviceClient g :
  0 <= sClientCount g < 2 ^ 32 - 1 ->
  snd (RightMic_RemoveDeviceClient (snd (RightMic_AddDeviceClient g))) = g.
Proof.
  intros H. unfold RightMic_RemoveDeviceClient, RightMic_AddDeviceClient. cbn [snd].
  cbn [sClientCount set_sClientCount].
  rewrite (wrap32_small (sClientCount g + 1)) by lia.
  destruct (Z.gtb_spec (sClientCount g + 1) 0); [|lia].
  unfold set_sClientCount at 1. cbn [set_sClientCount sRefCount sDeviceIsRunning
    sClientCount sTimebaseInfo sIO_StartHostTime sIO_HostTicksPerPeriod sShm_FD sShm_Ptr
    sRingHeader sRingData syscalls].
  replace (sClientCount g + 1 - 1) with (sClientCount g) by lia.
  rewrite wrap32_small by lia. apply set_sClientCount_same.
Qed.

Lemma sClientCount_Add_times n g :
  0 <= sClientCount g -> sClientCount g + Z.of_nat n < 2 ^ 32 ->
  sClientCount (AddDeviceClient_times n g) = sClientCount g + Z.of_nat n.
Proof.
  unfold AddDeviceClient_times. induction n as [|n IH]; intros H0 H.
  - cbn [repeat_call]. lia.
  - rewrite repeat_call_last.
    unfold RightMic_AddDeviceClient at 1. cbn [snd set_sClientCount sClientCount].
    rewrite IH by lia. rewrite wrap32_small by lia. lia.
Qed.

Lemma sClientCount_Remove_times n g :
  0 <= sClientCount g < 2 ^ 32 ->
  sClientCount (RemoveDeviceClient_times n g) = Z.max 0 (sClientCount g - Z.of_nat n).
Proof.
  unfold RemoveDeviceClient_times. induction n as [|n IH]; intros H.
  - cbn [repeat_call]. lia.
  - specialize (IH H). rewrite repeat_call_last.
    set (g' := repeat_call n (fun g => snd (RightMic_RemoveDeviceClient g)) g) in *.
    unfold RightMic_RemoveDeviceClient. cbn [snd].
    destruct (Z.gtb_spec (sClientCount g') 0) as [Hpos | Hzero].
    + cbn [set_sClientCount sClientCount]. rewrite IH in *. rewrite wrap32_small; lia.
    + rewrite IH in *. lia.
Qed.

(** X13. The client count. [n] calls of [RemoveDeviceClient] undo [n] calls
    of [AddDeviceClient] as long as the count stays below 2^32, and
    [RemoveDeviceClient] never takes the count below 0: removing more
    clients than were added leaves 0. *)
Theorem RemoveDeviceClient_undoes_AddDeviceClient n m g :
  0 <= sClientCount g ->
  sClientCount g + Z.of_nat n < 2 ^ 32 ->
  RemoveDeviceClient_times n (AddDeviceClient_times n g) = g /\
  sClientCount (AddDeviceClient_times n g) = sClientCount g + Z.of_nat n /\
  sClientCount (RemoveDeviceClient_times m g) = Z.max 0 (sClientCount g - Z.of_nat m).
Proof.
  intros H0 H. split; [|split].
  - revert g H0 H. induction n as [|n IH]; intros g H0 H; [reflexivity|].
    unfold AddDeviceClient_times. rewrite repeat_call_last.
    fold (AddDeviceClient_times n g).
    unfold RemoveDeviceClient_times. cbn [repeat_call].
    fold (RemoveDeviceClient_times n).
    rewrite Remove_AddDeviceClient.
    + apply IH; lia.
    + rewrite sClientCount_Add_times; lia.
  - apply sClientCount_Add_times; assumption.
  - apply sClientCount_Remove_times. lia.
Qed.

Lemma RemoveDeviceClient_undoes_AddDeviceClient_witness :
  RemoveDeviceClient_times 2 (AddDeviceClient_times 2 initial_globals) = initial_globals /\
  sClientCount (AddDeviceClient_times 2 initial_globals)
    = sClientCount initial_globals + Z.of_nat 2 /\
  sClientCount (RemoveDeviceClient_times 3 initial_globals)
    = Z.max 0 (sClientCount initial_globals - Z.of_nat 3).
Proof.
  apply (RemoveDeviceClient_undoes_AddDeviceClient 2 3 initial_globals).
  - vm_compute. discriminate.
  - vm_compute. reflexivity.
Defined.

(* ================================================================= *)
(** ** The statics of the mapping *)

Lemma shm_invariant_ext g g' :
  sShm_Ptr g' = sShm_Ptr g -> sRingHeader g' = sRingHeader g ->
  sRingData g' = sRingData g -> sShm_FD g' = sShm_FD g ->
  shm_invariant g -> shm_invariant g'.
Proof.
  unfold shm_invariant, mapped. intros -> -> -> ->. exact (fun H => H).
Qed.

Lemma OpenSharedMemory_invariant e g :
  shm_invariant g -> shm_invariant (RightMic_OpenSharedMemory e g).
Proof.
  intros Hinv. unfold RightMic_OpenSharedMemory.
  destruct Hinv as [(Hp & Hh & Hd & Hfd) | ((Hp & Hh & Hd) & Hfd)]; rewrite Hp;
    cbn [Pointer_eqb negb].
  - destruct (Z.ltb_spec (open_result e) 0).
    + left. cbn [set_shm sShm_Ptr sRingHeader sRingData sShm_FD]. auto.
    + destruct (mmap_succeeds e); cbn [negb].
      * right. unfold mapped. cbn [set_shm sShm_Ptr sRingHeader sRingData sShm_FD].
        repeat split; lia.
      * left. cbn [set_shm sShm_Ptr sRingHeader sRingData sShm_FD].
        repeat split; auto; lia.
  - right. unfold mapped. auto.
Qed.

Lemma CloseSharedMemory_closed g :
  let g' := RightMic_CloseSharedMemory g in
  sShm_Ptr g' = MAP_FAILED /\ sRingHeader g' = NULL /\ sRingData g' = NULL /\
  sShm_FD g' < 0.
Proof.
  unfold RightMic_CloseSharedMemory.
  cbn [set_shm sShm_Ptr sRingHeader sRingData sShm_FD].
  repeat split. destruct (Z.geb_spec (sShm_FD g) 0); lia.
Qed.

Lemma after_reopen_invariant e g : shm_invariant g -> shm_invariant (after_reopen e g).
Proof.
  intros H. unfold after_reopen. destruct (Pointer_eqb _ _); [|exact H].
  apply OpenSharedMemory_invariant, H.
Qed.

Lemma SetPropertyData_globals g o s n d st g' :
  RightMic_SetPropertyData g o s n d = Some (st, g') -> g' = g.
Proof.
  unfold RightMic_SetPropertyData.
  repeat match goal with
         | |- context [if ?b then _ else _] => destruct b
         | |- context [match ?o with Some _ => _ | None => _ end] => destruct o
         end; intros [= _ <-] || discriminate; reflexivity.
Qed.

Lemma StartIO_invariant e g st g' :
  RightMic_StartIO e g = Some (st, g') -> shm_invariant g -> shm_invariant g'.
Proof.
  unfold RightMic_StartIO.
  destruct (host_ticks_per_period (sTimebaseInfo g)) as [t|]; [|discriminate].
  intros [= _ <-] H.
  eapply shm_invariant_ext;
    [..| apply (OpenSharedMemory_invariant e
                  (set_io (mach_absolute_time e) t (sDeviceIsRunning g) g))];
    try reflexivity.
  eapply shm_invariant_ext; [..| exact H]; reflexivity.
Qed.

Lemma step_invariant e c g shm g' shm' :
  shm_invariant g -> step e c g shm = Some (g', shm') -> shm_invariant g'.
Proof.
  intros H. destruct c; cbn [step].
  - intros [= <- _]. eapply shm_invariant_ext; [..| exact H]; reflexivity.
  - intros [= <- _]. eapply shm_invariant_ext; [..| exact H]; reflexivity.
  - intros [= <- _]. unfold RightMic_RemoveDeviceClient. cbn [snd].
    destruct (_ >? 0); [|exact H].
    eapply shm_invariant_ext; [..| exact H]; reflexivity.
  - destruct (RightMic_SetPropertyData g inObjectID mSelector inDataSize inData)
      as [[st g1]|] eqn:E; [|discriminate].
    intros [= <- _]. apply SetPropertyData_globals in E. subst g1. exact H.
  - destruct (RightMic_StartIO e g) as [[st g1]|] eqn:E; [|discriminate].
    intros [= <- _]. exact (StartIO_invariant e g st g1 E H).
  - intros [= <- _]. left. apply CloseSharedMemory_closed.
  - destruct (RightMic_GetZeroTimeStamp e g); [|discriminate].
    intros [= <- _]. exact H.
  - intros [= <- _]. exact H.
  - cbv zeta. destruct (io_status _); [|discriminate].
    intros [= <- _].
    destruct (DoIOOperation_globals e g shm inOperationID inIOBufferFrameSize ioMainBuffer)
      as [-> | ->]; [exact H | apply after_reopen_invariant, H].
Qed.

(** X14. The statics of the mapping stay consistent whatever the host
    calls, in any order and whatever the operating system answers: either
    there is no mapping ([sShm_Ptr] is MAP_FAILED, both ring pointers are
    NULL and there is no descriptor), or all of them are set. So the IO
    path never sees a ring pointer without a mapping, and no call leaks a
    descriptor of a mapping that failed. *)
Theorem mapping_statics_stay_consistent cs : forall g shm g' shm',
  shm_invariant g ->
  run cs g shm = Some (g', shm') ->
  shm_invariant g' /\ pointers_consistent g'.
Proof.
  assert (Hcons : forall g, shm_invariant g -> pointers_consistent g).
  { intros g [(Hp & Hh & Hd & _) | (Hm & _)]; [left | right]; auto. }
  induction cs as [|[e c] cs IH]; intros g shm g' shm' H; cbn [run].
  - intros [= <- _]. auto.
  - destruct (step e c g shm) as [[g1 shm1]|] eqn:E; [|discriminate].
    apply IH. exact (step_invariant e c g shm g1 shm1 H E).
Qed.

Lemma mapping_statics_stay_consistent_witness :
  exists g' shm',
    run example_calls initial_globals (shm_with 0 0 0 []) = Some (g', shm') /\
    shm_invariant g' /\ pointers_consistent g'.
Proof.
  eexists _, _. split; [vm_compute; reflexivity|].
  eapply (mapping_statics_stay_consistent example_calls initial_globals
            (shm_with 0 0 0 [])).
  - left. repeat split.
  - vm_compute. reflexivity.
Defined.

(** X15. [StopIO] always leaves the driver without a mapping and without a
    descriptor, and is idempotent: a second [StopIO] makes no system call
    and changes nothing. *)
Theorem StopIO_is_idempotent g :
  let g1 := snd (RightMic_StopIO g) in
  sShm_Ptr g1 = MAP_FAILED /\ sRingHeader g1 = NULL /\ sRingData g1 = NULL /\
  sShm_FD g1 < 0 /\ sDeviceIsRunning g1 = false /\
  snd (RightMic_StopIO g1) = g1.
Proof.
  intros g1. subst g1. unfold RightMic_StopIO. cbn [snd].
  pose proof (CloseSharedMemory_closed
                (set_io (sIO_StartHostTime g) (sIO_HostTicksPerPeriod g) false g))
    as (Hp & Hh & Hd & Hfd).
  repeat split; try assumption.
  cbv zeta in Hfd.
  set (g1 := RightMic_CloseSharedMemory _) in *.
  unfold RightMic_CloseSharedMemory at 1.
  cbn [set_io sShm_Ptr sShm_FD sRingHeader sRingData syscalls sRefCount sDeviceIsRunning
       sClientCount sTimebaseInfo sIO_StartHostTime sIO_HostTicksPerPeriod].
  rewrite Hp. cbn [Pointer_eqb negb].
  destruct (Z.geb_spec (sShm_FD g1) 0); [lia|].
  unfold set_shm.
  cbn [sShm_Ptr sShm_FD sRingHeader sRingData syscalls sRefCount sDeviceIsRunning
       sClientCount sTimebaseInfo sIO_StartHostTime sIO_HostTicksPerPeriod app].
  rewrite app_nil_r.
  assert (Hrun : sDeviceIsRunning g1 = false) by reflexivity.
  destruct g1; cbn in *. congruence.
Qed.

(** X16. A [StartIO] on a driver without a mapping, followed by [StopIO],
    releases what it acquired: the descriptor of a successful [open] is
    closed, the mapping of a successful [mmap] is unmapped, and nothing is
    closed or unmapped that was not acquired. *)
Theorem StartIO_then_StopIO_releases_the_mapping e g st g1 :
  sShm_Ptr g = MAP_FAILED ->
  RightMic_StartIO e g = Some (st, g1) ->
  let g2 := snd (RightMic_StopIO g1) in
  syscalls g1 = syscalls g ++
    (if open_result e <? 0 then [sys_open]
     else if mmap_succeeds e then [sys_open; sys_mmap]
     else [sys_open; sys_mmap; sys_close]) /\
  syscalls g2 = syscalls g1 ++
    (if open_result e <? 0 then []
     else if mmap_succeeds e then [sys_munmap; sys_close]
     else []).
Proof.
  intros Hp. unfold RightMic_StartIO.
  destruct (host_ticks_per_period (sTimebaseInfo g)) as [t|]; [|discriminate].
  intros [= _ <-]. cbv zeta. unfold RightMic_StopIO. cbn [snd].
  unfold RightMic_CloseSharedMemory, RightMic_OpenSharedMemory.
  cbn [set_io sShm_Ptr sShm_FD sRingHeader sRingData syscalls].
  rewrite Hp. cbn [Pointer_eqb negb].
  destruct (Z.ltb_spec (open_result e) 0).
  - cbn [set_shm set_io sShm_Ptr sShm_FD sRingHeader sRingData syscalls].
    cbn [Pointer_eqb negb].
    destruct (Z.geb_spec (open_result e) 0); [lia|]. split; reflexivity.
  - destruct (mmap_succeeds e); cbn [negb];
      cbn [set_shm set_io sShm_Ptr sShm_FD sRingHeader sRingData syscalls Pointer_eqb negb].
    + destruct (Z.geb_spec (open_result e) 0); [|lia]. split; reflexivity.
    + split; reflexivity.
Qed.

Lemma StartIO_then_StopIO_releases_the_mapping_witness :
  let g := initialized_globals (host_at 0) in
  let g1 := running_since 1000 in
  let g2 := snd (RightMic_StopIO g1) in
  syscalls g1 = syscalls g ++
    (if open_result (host_at 1000) <? 0 then [sys_open]
     else if mmap_succeeds (host_at 1000) then [sys_open; sys_mmap]
     else [sys_open; sys_mmap; sys_close]) /\
  syscalls g2 = syscalls g1 ++
    (if open_result (host_at 1000) <? 0 then []
     else if mmap_succeeds (host_at 1000) then [sys_munmap; sys_close]
     else []).
Proof.
  apply (StartIO_then_StopIO_releases_the_mapping (host_at 1000)
           (initialized_globals (host_at 0)) kAudioHardwareNoError (running_since 1000)).
  - reflexivity.
  - exact (running_since_StartIO 1000).
Defined.

(* ================================================================= *)
(** ** The IO path *)

(** X17. [DoIOOperation] does what [WillDoIOOperation] announces: the
    operation is announced as done exactly when it is ReadInput, always in
    place, and an operation announced as not done changes nothing. *)
Theorem DoIOOperation_does_what_WillDoIOOperation_announces e g shm op n buf :
  let announced := RightMic_WillDoIOOperation op in
  fst announced = kAudioHardwareNoError /\
  (fst (snd announced) = true <-> op = kAudioServerPlugInIOOperationReadInput) /\
  snd (snd announced) = true /\
  (fst (snd announced) = false ->
   RightMic_DoIOOperation e g shm op n buf =
   {| io_status := Some kAudioHardwareNoError; io_globals := g; io_shm := shm;
      io_buffer := buf; io_copies := [] |}).
Proof.
  cbv zeta. rewrite WillDoIOOperation_only_ReadInput. cbn [fst snd].
  unfold RightMic_DoIOOperation.
  destruct (Z.eqb_spec op kAudioServerPlugInIOOperationReadInput) as [-> | Hne].
  - repeat split; auto; discriminate.
  - repeat split; auto; discriminate.
Qed.

Lemma OpenSharedMemory_counts e g :
  sRefCount (RightMic_OpenSharedMemory e g) = sRefCount g /\
  sClientCount (RightMic_OpenSharedMemory e g) = sClientCount g.
Proof.
  unfold RightMic_OpenSharedMemory.
  destruct (negb _); [auto|]. destruct (_ <? 0); [auto|].
  destruct (negb _); auto.
Qed.

(** X18. What [DoIOOperation] leaves alone, for every operation and every
    request. It writes nothing to the shared object: ring data and header
    are as before, whether the call returns or not. Of the statics it
    changes at most those of the mapping: the clock, the running flag and
    the two counts are as before. It never answers with an error: it
    returns [kAudioHardwareNoError], or it does not return. *)
Theorem DoIOOperation_leaves_the_shared_object_alone e g shm op n buf :
  let r := RightMic_DoIOOperation e g shm op n buf in
  (io_status r = Some kAudioHardwareNoError \/ io_status r = None) /\
  io_shm r = shm /\
  (sIO_StartHostTime (io_globals r) = sIO_StartHostTime g /\
   sIO_HostTicksPerPeriod (io_globals r) = sIO_HostTicksPerPeriod g /\
   sTimebaseInfo (io_globals r) = sTimebaseInfo g /\
   sDeviceIsRunning (io_globals r) = sDeviceIsRunning g /\
   sRefCount (io_globals r) = sRefCount g /\
   sClientCount (io_globals r) = sClientCount g).
Proof.
  intros r. split; [|split].
  - subst r. unfold RightMic_DoIOOperation.
    destruct (negb _); [left; reflexivity|]. cbv zeta.
    destruct (_ && _); [destruct (_ >=? _); [destruct (copy_loop _ _ _ _ _ _ _) as [[? ?] ?]|]|];
      rewrite ?store_readHead_faults; auto.
  - subst r. unfold RightMic_DoIOOperation.
    destruct (negb _); [reflexivity|]. cbv zeta.
    destruct (_ && _); [destruct (_ >=? _); [destruct (copy_loop _ _ _ _ _ _ _) as [[? ?] ?]|]|];
      rewrite ?store_readHead_faults; reflexivity.
  - assert (Hg : io_globals r = g \/ io_globals r = after_reopen e g)
      by apply DoIOOperation_globals.
    destruct Hg as [-> | ->]; [repeat split|].
    unfold after_reopen. destruct (Pointer_eqb _ _); [|repeat split].
    destruct (OpenSharedMemory_clock e g) as (-> & -> & -> & ->).
    destruct (OpenSharedMemory_counts e g) as (-> & ->). repeat split.
Qed.

Lemma length_memcpy dst d src s n :
  0 <= d -> 0 <= s -> 0 <= n ->
  d + n <= Z.of_nat (length dst) -> s + n <= Z.of_nat (length src) ->
  length (memcpy dst d src s n) = length dst.
Proof.
  intros. unfold memcpy.
  rewrite !length_app, !length_take, !length_drop. lia.
Qed.

Lemma copy_loop_in_bounds ring rHead k :
  0 <= rHead < 2 ^ 64 -> 0 <= k < 2 ^ 31 ->
  Z.of_nat (length ring) = 2 * kRightMic_RingBufferFrames ->
  forall fuel fr out log,
    0 <= fr <= k ->
    Z.of_nat (length out) = 2 * k ->
    Forall (copy_in_bounds (2 * k) (2 * kRightMic_RingBufferFrames)) log ->
    Z.of_nat (length (snd (fst (copy_loop fuel ring rHead k fr out log)))) = 2 * k /\
    Forall (copy_in_bounds (2 * k) (2 * kRightMic_RingBufferFrames))
           (snd (copy_loop fuel ring rHead k fr out log)).
Proof.
  intros Hr Hk Hring. induction fuel as [|fuel IH]; intros fr out log Hfr Hout Hlog.
  - cbn [copy_loop fst snd]. auto.
  - destruct (Z.eq_dec fr k) as [-> | Hne].
    + rewrite copy_loop_done by lia. cbn [fst snd]. auto.
    + rewrite copy_loop_iter by lia. cbv zeta.
      pose proof (Z.mod_pos_bound (rHead + fr) kRightMic_RingBufferFrames eq_refl) as Hidx.
      set (idx := (rHead + fr) mod kRightMic_RingBufferFrames) in *.
      set (chunk := Z.min (k - fr) (kRightMic_RingBufferFrames - idx)).
      assert (Hchunk : 0 < chunk <= k - fr /\ idx + chunk <= kRightMic_RingBufferFrames)
        by (subst chunk; lia).
      assert (Hw : wrap32 (fr * 2) = 2 * fr) by (rewrite wrap32_small; lia).
      apply IH.
      * lia.
      * rewrite length_memcpy; rewrite ?Hw; lia.
      * apply Forall_app. split; [exact Hlog|]. constructor; [|constructor].
        unfold copy_in_bounds. cbn [dst_offset src_offset n_bytes].
        rewrite Hw. unfold sizeof_float.
        replace (8 * chunk / 4) with (2 * chunk) by (apply Z.div_unique_exact; lia).
        lia.
Qed.

(** X19. A read never touches memory outside its two arrays. For every
    request of fewer than 2^31 frames with a buffer of that many frames,
    mapped or not, with data or without: the buffer has the same length
    afterwards, and every [memcpy] call made lies inside the buffer on the
    destination side and inside the data region of the ring on the source
    side. *)
Theorem read_stays_within_its_buffers e g m k buf :
  Z.of_nat (length (ringData m)) = kRightMic_RingBufferFrames * kRightMic_ChannelCount ->
  0 <= readHead (header m) < 2 ^ 64 ->
  0 <= k < 2 ^ 31 ->
  Z.of_nat (length buf) = kRightMic_ChannelCount * k ->
  let r := read_input e g m k buf in
  length (io_buffer r) = length buf /\
  Forall (copy_in_bounds (Z.of_nat (length buf)) (Z.of_nat (length (ringData m))))
         (io_copies r).
Proof.
  intros Hring Hr Hk Hbuf r. subst r. rewrite read_input_unfold. cbv zeta.
  assert (Hsil : forall g',
    length (io_buffer (fill_with_silence g' m buf (wrap32 (k * kRightMic_ChannelCount))))
    = length buf).
  { intros g'. rewrite fill_with_silence_buffer by assumption.
    unfold silence. rewrite length_replicate. lia. }
  destruct (_ && _); [destruct (_ >=? _)|]; cbn [io_buffer io_copies];
    try (split; [apply Hsil | constructor]).
  unfold kRightMic_ChannelCount in *.
  destruct (copy_loop_in_bounds (ringData m) (readHead (header m)) k Hr Hk
              ltac:(lia) (copy_fuel k) 0 buf []) as (Hlen & Hlog);
    [lia | lia | constructor |].
  split; [lia|]. rewrite Hbuf, Hring.
  replace (kRightMic_RingBufferFrames * 2) with (2 * kRightMic_RingBufferFrames) by lia.
  exact Hlog.
Qed.

Lemma read_stays_within_its_buffers_witness :
  let r := read_input (host_at 0) mapped_globals (shm_with 16512 16000 1 counting_ring)
             512 (replicate 1024 7) in
  length (io_buffer r) = length (replicate 1024 7) /\
  Forall (copy_in_bounds (Z.of_nat (length (replicate 1024 7)))
            (Z.of_nat (length (ringData (shm_with 16512 16000 1 counting_ring)))))
         (io_copies r).
Proof.
  apply (read_stays_within_its_buffers (host_at 0) mapped_globals
           (shm_with 16512 16000 1 counting_ring) 512 (replicate 1024 7)).
  - vm_compute. reflexivity.
  - vm_compute. intuition discriminate.
  - lia.
  - vm_compute. reflexivity.
Defined.

Lemma copy_loop_more_fuel extra ring rHead k : forall fuel fr out log,
  k <= fst (fst (copy_loop fuel ring rHead k fr out log)) ->
  copy_loop (fuel + extra) ring rHead k fr out log
  = copy_loop fuel ring rHead k fr out log.
Proof.
  induction fuel as [|fuel IH]; intros fr out log H.
  - cbn [copy_loop fst] in H. cbn [copy_loop Nat.add].
    apply copy_loop_done. exact H.
  - change (S fuel + extra)%nat with (S (fuel + extra)).
    cbn [copy_loop] in *. destruct (fr <? k); [|reflexivity].
    apply IH. exact H.
Qed.

Lemma copy_loop_calls ring rHead k : forall fuel fr out log,
  (length (snd (copy_loop fuel ring rHead k fr out log)) <= length log + fuel)%nat.
Proof.
  induction fuel as [|fuel IH]; intros fr out log.
  - cbn [copy_loop snd]. lia.
  - cbn [copy_loop]. destruct (fr <? k); [|cbn [snd]; lia].
    etransitivity; [apply IH|]. rewrite length_app. cbn [length]. lia.
Qed.

(** X20. The copy loop terminates. For every 32-bit request the loop has
    read all [k] frames after at most [k / N + 2] iterations (one [memcpy]
    each), and running it longer changes nothing: the bound on the
    iterations in the model is not a restriction. *)
Theorem copy_loop_terminates ring rHead k out extra :
  0 <= rHead < 2 ^ 64 -> 0 <= k < 2 ^ 32 ->
  let r := copy_loop (copy_fuel k) ring rHead k 0 out [] in
  fst (fst r) = k /\
  Z.of_nat (length (snd r)) <= k / kRightMic_RingBufferFrames + 2 /\
  copy_loop (copy_fuel k + extra) ring rHead k 0 out [] = r.
Proof.
  intros Hr Hk r. subst r.
  pose proof (copy_loop_total ring rHead k out Hr Hk) as Htotal.
  split; [exact Htotal|]. split.
  - pose proof (copy_loop_calls ring rHead k (copy_fuel k) 0 out []) as Hcalls.
    cbn [length] in Hcalls. unfold copy_fuel in *.
    assert (0 <= k / kRightMic_RingBufferFrames) by (apply Z.div_pos; [lia | reflexivity]).
    lia.
  - apply copy_loop_more_fuel. lia.
Qed.

Lemma copy_loop_terminates_witness :
  let r := copy_loop (copy_fuel 512) counting_ring 16000 512 0 (replicate 1024 7) [] in
  fst (fst r) = 512 /\
  Z.of_nat (length (snd r)) <= 512 / kRightMic_RingBufferFrames + 2 /\
  copy_loop (copy_fuel 512 + 5) counting_ring 16000 512 0 (replicate 1024 7) [] = r.
Proof.
  apply (copy_loop_terminates counting_ring 16000 512 (replicate 1024 7) 5); lia.
Defined.

(** X21. What the host gets from a read that returns. For every request
    of fewer than 2^31 frames with a buffer of that many frames, whatever
    the writer has published: a read that returns has returned
    [kAudioHardwareNoError] with a buffer of zeros and without a copy from
    the ring. No sample of the writer reaches the host through a read that
    returns. *)
Theorem a_read_that_returns_delivers_silence e g m k buf :
  0 <= k < 2 ^ 31 ->
  Z.of_nat (length buf) = kRightMic_ChannelCount * k ->
  let r := read_input e g m k buf in
  io_status r <> None ->
  io_status r = Some kAudioHardwareNoError /\
  io_buffer r = silence k /\
  io_copies r = [] /\
  r = fill_with_silence (after_reopen e g) m buf (wrap32 (k * kRightMic_ChannelCount)).
Proof.
  intros Hk Hlen r Hret. subst r. revert Hret.
  rewrite read_input_unfold. cbv zeta.
  destruct (_ && _); [destruct (_ >=? _)|]; cbn [io_status];
    try (intros Hret; contradiction);
    intros _; rewrite fill_with_silence_buffer by assumption; auto.
Qed.

(** The writer has published 256 frames and the host asks for 512. *)
Lemma a_read_that_returns_delivers_silence_witness :
  let r := read_input (host_at 0) mapped_globals (shm_with 16256 16000 1 counting_ring)
             512 (replicate 1024 7) in
  io_status r = Some kAudioHardwareNoError /\
  io_buffer r = silence 512 /\
  io_copies r = [] /\
  r = fill_with_silence (after_reopen (host_at 0) mapped_globals)
        (shm_with 16256 16000 1 counting_ring) (replicate 1024 7)
        (wrap32 (512 * kRightMic_ChannelCount)).
Proof.
  apply (a_read_that_returns_delivers_silence (host_at 0) mapped_globals
           (shm_with 16256 16000 1 counting_ring) 512 (replicate 1024 7)).
  - lia.
  - vm_compute. reflexivity.
  - vm_compute. discriminate.
Defined.

(* ================================================================= *)
(** ** The clock *)

(** X22. [StartIO] needs the timebase that [Initialize] stores. With
    [sTimebaseInfo.numer = 0], as in the initial state, the tick count is
    the quotient of a division by 0.0, an infinity or a NaN, and its
    conversion to [uint64_t] is undefined. *)
Theorem StartIO_needs_a_timebase e g :
  numer (sTimebaseInfo g) = 0 -> RightMic_StartIO e g = None.
Proof.
  intros H. unfold RightMic_StartIO, host_ticks_per_period. rewrite H.
  change (Float64_of_Z 0) with (S754_zero false).
  destruct (Float64_mul nsPerPeriod (Float64_of_Z (denom (sTimebaseInfo g))));
    reflexivity.
Qed.

Lemma StartIO_needs_a_timebase_witness :
  RightMic_StartIO (host_at 1000) initial_globals = None.
Proof.
  apply (StartIO_needs_a_timebase (host_at 1000) initial_globals). reflexivity.
Defined.

(** X23. Zero timestamps never go back. For two queries of a running
    device, the later one returns a host time that is not earlier, neither
    is after its query, and two queries within the same period return the
    same timestamp. *)
Theorem zero_timestamps_never_go_back e1 e2 g :
  kRightMic_BufferFrameSize <= sIO_HostTicksPerPeriod g ->
  0 <= sIO_StartHostTime g <= mach_absolute_time e1 ->
  mach_absolute_time e1 <= mach_absolute_time e2 ->
  mach_absolute_time e2 < 2 ^ 64 ->
  exists ts1 ts2,
    RightMic_GetZeroTimeStamp e1 g = Some (kAudioHardwareNoError, ts1) /\
    RightMic_GetZeroTimeStamp e2 g = Some (kAudioHardwareNoError, ts2) /\
    outHostTime ts1 <= outHostTime ts2 /\
    outHostTime ts1 <= mach_absolute_time e1 /\
    outHostTime ts2 <= mach_absolute_time e2 /\
    ((mach_absolute_time e1 - sIO_StartHostTime g) / sIO_HostTicksPerPeriod g
     = (mach_absolute_time e2 - sIO_StartHostTime g) / sIO_HostTicksPerPeriod g ->
     ts1 = ts2).
Proof.
  intros Hticks H1 H12 H2. unfold kRightMic_BufferFrameSize in Hticks.
  pose proof (GetZeroTimeStamp_running e1 g) as E1.
  pose proof (GetZeroTimeStamp_running e2 g) as E2.
  cbv zeta in E1, E2. unfold kRightMic_BufferFrameSize in E1, E2 at 1.
  specialize (E1 ltac:(lia) ltac:(lia) ltac:(lia) ltac:(lia)).
  specialize (E2 ltac:(lia) ltac:(lia) ltac:(lia) ltac:(lia)).
  eexists _, _. split; [exact E1|]. split; [exact E2|].
  cbn [outHostTime].
  set (T0 := sIO_StartHostTime g) in *. set (t := sIO_HostTicksPerPeriod g) in *.
  assert (Hmono : (mach_absolute_time e1 - T0) / t <= (mach_absolute_time e2 - T0) / t)
    by (apply Z.div_le_mono; lia).
  pose proof (Z.mul_div_le (mach_absolute_time e1 - T0) t ltac:(lia)).
  pose proof (Z.mul_div_le (mach_absolute_time e2 - T0) t ltac:(lia)).
  repeat split; try nia.
  intros ->. reflexivity.
Qed.

Lemma zero_timestamps_never_go_back_witness :
  exists ts1 ts2,
    RightMic_GetZeroTimeStamp (host_at 300000) (running_since 1000)
      = Some (kAudioHardwareNoError, ts1) /\
    RightMic_GetZeroTimeStamp (host_at 600000) (running_since 1000)
      = Some (kAudioHardwareNoError, ts2) /\
    outHostTime ts1 <= outHostTime ts2 /\
    outHostTime ts1 <= mach_absolute_time (host_at 300000) /\
    outHostTime ts2 <= mach_absolute_time (host_at 600000) /\
    ((mach_absolute_time (host_at 300000) - sIO_StartHostTime (running_since 1000))
       / sIO_HostTicksPerPeriod (running_since 1000)
     = (mach_absolute_time (host_at 600000) - sIO_StartHostTime (running_since 1000))
       / sIO_HostTicksPerPeriod (running_since 1000) ->
     ts1 = ts2).
Proof.
  assert (Hstart : sIO_StartHostTime (running_since 1000) = 1000).
  { destruct (StartIO_clock _ _ _ _ (running_since_StartIO 1000)) as (_ & _ & E & _).
    exact E. }
  apply (zero_timestamps_never_go_back (host_at 300000) (host_at 600000)
           (running_since 1000)).
  - rewrite running_since_ticks. vm_compute. discriminate.
  - rewrite Hstart. cbn [mach_absolute_time host_at]. lia.
  - cbn [mach_absolute_time host_at]. lia.
  - cbn [mach_absolute_time host_at]. lia.
Defined.

(* ================================================================= *)
(** ** Reads that find their frames *)

(** X24. When a read does not return. A ReadInput call fails to return
    exactly when it has a mapping (its own, or the one it has just made),
    the writer is active and at least as many frames are available as
    requested: that is, exactly when it has copied the frames it was asked
    for. It has then filled the buffer with the [k] frames of the ring from
    [readHead] on, and the store of [readHead + k] that follows goes
    through the mapping made with PROT_READ. *)
Theorem read_faults_exactly_when_frames_are_available e g m k buf :
  let r := read_input e g m k buf in
  (io_status r = None <->
   sRingHeader (after_reopen e g) <> NULL /\
   active (header m) <> 0 /\
   available_frames (writeHead (header m)) (readHead (header m)) >= k) /\
  (io_status r = None ->
   io_copies r = snd (copy_loop (copy_fuel k) (ringData m) (readHead (header m)) k 0 buf []) /\
   io_buffer r = snd (fst (copy_loop (copy_fuel k) (ringData m) (readHead (header m)) k 0 buf [])) /\
   io_shm r = m) /\
  store_readHead mapping_protection (wrap64 (readHead (header m) + k)) m = None /\
  store_readHead (Z.lor PROT_READ PROT_WRITE) (wrap64 (readHead (header m) + k)) m
    = Some (set_readHead (wrap64 (readHead (header m) + k)) m).
Proof.
  cbv zeta. split; [apply read_input_faults_iff|]. split; [|split; reflexivity].
  rewrite read_input_unfold. cbv zeta.
  destruct (_ && _); [destruct (_ >=? _)|]; cbn [io_status io_copies io_buffer io_shm];
    try discriminate.
  auto.
Qed.
